(** * csv_mulch: monthly reentry totals

    A shallow embedding of [csv_mulch.py].  The script reads a CSV of
    satellite launches, parses three date columns, sorts the launches by
    reentry date and tallies the reentries per calendar month.

    The file has two parts.  The first holds the definitions: a small model
    of the Python runtime the script relies on (exceptions, [datetime],
    [datetime.strptime], [sorted]) and then the functions of the script
    itself, under their own names.  The second part holds the lemmas. *)

From Stdlib Require Import ZArith List String Ascii Lia Bool DecimalString Sorted.
From stdpp Require Import base option list gmap strings.

Local Open Scope string_scope.
Local Open Scope Z_scope.

(** ** Exceptions and results *)

(** The exceptions the script can raise. *)
Inductive exn : Type :=
| ValueError
| TypeError
| IndexError
| KeyError.

(** A computation either returns a value or raises. *)
Inductive result (A : Type) : Type :=
| Ok (a : A)
| Raise (e : exn).
Arguments Ok {A} a.
Arguments Raise {A} e.

Definition bind {A B : Type} (c : result A) (k : A -> result B) : result B :=
  match c with
  | Ok a => k a
  | Raise e => Raise e
  end.

Notation "x <- c ; k" := (bind c (fun x => k))
  (at level 20, c at level 100, k at level 200).
Notation "' p <- c ; k" := (bind c (fun x => match x with p => k end))
  (at level 20, p pattern, c at level 100, k at level 200).

#[global] Instance exn_eq_dec : EqDecision exn.
Proof. solve_decision. Defined.

(** [try: c except e: h] *)
Definition try_except {A : Type} (c : result A) (e : exn) (h : result A) : result A :=
  match c with
  | Ok a => Ok a
  | Raise e' => if decide (e' = e) then h else Raise e'
  end.

(** ** datetime *)

Record datetime : Type := mk_datetime {
  year : Z;
  month : Z;
  day : Z;
  hour : Z;
  minute : Z;
  second : Z;
  microsecond : Z
}.

Definition MINYEAR : Z := 1.
Definition MAXYEAR : Z := 9999.

Definition is_leap (y : Z) : bool :=
  (y mod 4 =? 0) && (negb (y mod 100 =? 0) || (y mod 400 =? 0)).

Definition DAYS_IN_MONTH : list Z :=
  [-1; 31; 28; 31; 30; 31; 30; 31; 31; 30; 31; 30; 31].

Definition days_in_month (y m : Z) : Z :=
  if (m =? 2) && is_leap y then 29 else nth (Z.to_nat m) DAYS_IN_MONTH (-1).

Definition check_date_fields (y m d : Z) : bool :=
  (MINYEAR <=? y) && (y <=? MAXYEAR) && (1 <=? m) && (m <=? 12)
  && (1 <=? d) && (d <=? days_in_month y m).

Definition check_time_fields (h mi s us : Z) : bool :=
  (0 <=? h) && (h <=? 23) && (0 <=? mi) && (mi <=? 59)
  && (0 <=? s) && (s <=? 59) && (0 <=? us) && (us <=? 999999).

(** [datetime(y, m, d, h, mi, s, us)]: the constructor checks its fields. *)
Definition datetime_new (y m d h mi s us : Z) : result datetime :=
  if check_date_fields y m d && check_time_fields h mi s us
  then Ok (mk_datetime y m d h mi s us)
  else Raise ValueError.

(** [dt.replace(year=.., month=.., day=..)]: a fresh datetime is built from
    the old fields and the given ones, through the checking constructor. *)
Definition replace (dt : datetime) (y m d : option Z) : result datetime :=
  datetime_new (default (year dt) y) (default (month dt) m) (default (day dt) d)
               (hour dt) (minute dt) (second dt) (microsecond dt).

(** Datetimes compare field by field, most significant first. *)
Definition dt_fields (dt : datetime) : list Z :=
  [year dt; month dt; day dt; hour dt; minute dt; second dt; microsecond dt].

Fixpoint lex_compare (a b : list Z) : comparison :=
  match a, b with
  | [], [] => Eq
  | [], _ :: _ => Lt
  | _ :: _, [] => Gt
  | x :: a', y :: b' =>
      match x ?= y with
      | Eq => lex_compare a' b'
      | c => c
      end
  end.

Definition dt_compare (a b : datetime) : comparison :=
  lex_compare (dt_fields a) (dt_fields b).

Definition dt_ltb (a b : datetime) : bool :=
  match dt_compare a b with Lt => true | _ => false end.

Definition dt_geb (a b : datetime) : bool := negb (dt_ltb a b).

(** ** Ordinals and timedelta

    Days are counted from 0001-01-01, which is day 1.  The arithmetic of
    datetimes can raise (OverflowError, when a result leaves the calendar):
    its operations return an [option], [None] when they raise. *)

Definition DAYS_BEFORE_MONTH : list Z :=
  [-1; 0; 31; 59; 90; 120; 151; 181; 212; 243; 273; 304; 334].

Definition days_before_year (y : Z) : Z :=
  let y := y - 1 in y * 365 + y / 4 - y / 100 + y / 400.

Definition days_before_month (y m : Z) : Z :=
  nth (Z.to_nat m) DAYS_BEFORE_MONTH (-1) + (if (2 <? m) && is_leap y then 1 else 0).

Definition ymd2ord (y m d : Z) : Z :=
  days_before_year y + days_before_month y m + d.

(** The days of 400 years, of 100 years and of 4 years. *)
Definition DI400Y : Z := Eval cbv in days_before_year 401.
Definition DI100Y : Z := Eval cbv in days_before_year 101.
Definition DI4Y : Z := Eval cbv in days_before_year 5.

(** The ordinal of 9999-12-31. *)
Definition MAXORDINAL : Z := 3652059.

(** The date of an ordinal: the cycles of 400, 100 and 4 years and the years
    are taken off in turn; the month is estimated from the day of the year
    and corrected when the estimate is one too large. *)
Definition ord2ymd (n : Z) : Z * Z * Z :=
  let n := n - 1 in
  let n400 := n / DI400Y in
  let n := n mod DI400Y in
  let year := n400 * 400 + 1 in
  let n100 := n / DI100Y in
  let n := n mod DI100Y in
  let n4 := n / DI4Y in
  let n := n mod DI4Y in
  let n1 := n / 365 in
  let n := n mod 365 in
  let year := year + n100 * 100 + n4 * 4 + n1 in
  if (n1 =? 4) || (n100 =? 4) then (year - 1, 12, 31)
  else
    let leapyear := (n1 =? 3) && (negb (n4 =? 24) || (n100 =? 3)) in
    let month := Z.shiftr (n + 50) 5 in
    let preceding :=
      nth (Z.to_nat month) DAYS_BEFORE_MONTH (-1)
      + (if (2 <? month) && leapyear then 1 else 0) in
    let '(month, preceding) :=
      if n <? preceding
      then (month - 1,
            preceding - (nth (Z.to_nat (month - 1)) DAYS_IN_MONTH (-1)
                         + (if (month - 1 =? 2) && leapyear then 1 else 0)))
      else (month, preceding) in
    (year, month, n - preceding + 1).

(** [dt.toordinal()] *)
Definition toordinal (dt : datetime) : Z := ymd2ord (year dt) (month dt) (day dt).

(** A duration, normalised: the seconds within a day, the microseconds
    within a second. *)
Record timedelta : Type := mk_timedelta {
  days : Z;
  seconds : Z;
  microseconds : Z
}.

(** [timedelta(days, seconds, microseconds, minutes, hours)] on integers:
    the carries are taken with [divmod], and more than 999999999 days either
    way raise OverflowError. *)
Definition timedelta_new (days seconds microseconds minutes hours : Z)
  : option timedelta :=
  let d := days in
  let seconds := seconds + minutes * 60 + hours * 3600 in
  let days := seconds / (24 * 3600) in
  let seconds := seconds mod (24 * 3600) in
  let d := d + days in
  let s := seconds in
  let seconds := microseconds / 1000000 in
  let microseconds := microseconds mod 1000000 in
  let days := seconds / (24 * 3600) in
  let seconds := seconds mod (24 * 3600) in
  let d := d + days in
  let s := s + seconds in
  let seconds := microseconds / 1000000 in
  let us := microseconds mod 1000000 in
  let s := s + seconds in
  let days := s / (24 * 3600) in
  let s := s mod (24 * 3600) in
  let d := d + days in
  if 999999999 <? Z.abs d then None
  else Some {| days := d; seconds := s; microseconds := us |}.

(** [a + b] on timedeltas *)
Definition td_add (a b : timedelta) : option timedelta :=
  timedelta_new (days a + days b) (seconds a + seconds b)
                (microseconds a + microseconds b) 0 0.

(** [a - b] on datetimes *)
Definition dt_sub (a b : datetime) : option timedelta :=
  let days1 := toordinal a in
  let days2 := toordinal b in
  let secs1 := second a + minute a * 60 + hour a * 3600 in
  let secs2 := second b + minute b * 60 + hour b * 3600 in
  timedelta_new (days1 - days2) (secs1 - secs2) (microsecond a - microsecond b) 0 0.

(** [dt + other]: the ordinal and the time of day of [dt] make a timedelta,
    [other] is added, and the sum is turned back into a datetime by the
    checking constructor; outside of the ordinals 1 to [MAXORDINAL]
    OverflowError is raised. *)
Definition dt_add (dt : datetime) (other : timedelta) : option datetime :=
  delta ← timedelta_new (toordinal dt) (second dt) (microsecond dt) (minute dt) (hour dt);
  delta ← td_add delta other;
  let hour := seconds delta / 3600 in
  let rem := seconds delta mod 3600 in
  let minute := rem / 60 in
  let second := rem mod 60 in
  if (0 <? days delta) && (days delta <=? MAXORDINAL) then
    let '(y, m, d) := ord2ymd (days delta) in
    match datetime_new y m d hour minute second (microseconds delta) with
    | Ok r => Some r
    | Raise _ => None
    end
  else None.

(** ** Decimal digits *)

Definition digit_char (n : Z) : ascii := ascii_of_N (48 + Z.to_N n).

(** Zero-padded rendering on two or four digits ([%d], [%m], [%Y]). *)
Definition pad2 (n : Z) : string :=
  String (digit_char (n / 10)) (String (digit_char (n mod 10)) "").

Definition pad4 (n : Z) : string :=
  String (digit_char (n / 1000))
    (String (digit_char (n / 100 mod 10))
      (String (digit_char (n / 10 mod 10))
        (String (digit_char (n mod 10)) ""))).

(** [dt.strftime("%d/%m/%Y")], the year on four digits as the documentation
    of [strftime] has it (the C library of some platforms drops the leading
    zeros of a year below 1000). *)
Definition strftime_dmY (dt : datetime) : string :=
  pad2 (day dt) +:+ "/" +:+ pad2 (month dt) +:+ "/" +:+ pad4 (year dt).

(** [str(n)] for an int. *)
Definition str_int (n : Z) : string := NilZero.string_of_int (Z.to_int n).

(** ** Character classes of the regular expressions of [_strptime]

    Strings are sequences of code points below 256. *)

Definition code (c : ascii) : N := N_of_ascii c.

(** [\d] *)
Definition is_digit (c : ascii) : bool :=
  ((48 <=? code c) && (code c <=? 57))%N.

Definition digit_val (c : ascii) : Z := Z.of_N (code c) - 48.

(** [\s]: tab, line feed, vertical tab, form feed, carriage return, the four
    separators 28 to 31, space, next line (133) and no-break space (160). *)
Definition is_space (c : ascii) : bool :=
  (((9 <=? code c) && (code c <=? 13)) || ((28 <=? code c) && (code c <=? 32))
   || (code c =? 133) || (code c =? 160))%N.

Definition lower (c : ascii) : ascii :=
  if ((65 <=? code c) && (code c <=? 90))%N then ascii_of_N (code c + 32) else c.

(** ** A backtracking matcher for the patterns of [_strptime]

    A matcher takes the input and a continuation for the rest of the pattern;
    it tries its alternatives in order and returns the first overall match,
    as [re.match] does. *)

Section Matcher.
Context {A : Type}.

Definition matcher (V : Type) : Type := string -> (V -> string -> option A) -> option A.

(** One character of a class, captured as a digit value. *)
Definition re_class (p : ascii -> bool) : matcher Z := fun s k =>
  match s with
  | String c s' => if p c then k (digit_val c) s' else None
  | EmptyString => None
  end.

Definition in_range (lo hi : Z) (c : ascii) : bool :=
  is_digit c && (lo <=? digit_val c) && (digit_val c <=? hi).

(** A literal, matched ignoring case. *)
Fixpoint re_literal (p : string) (s : string) (k : string -> option A) : option A :=
  match p with
  | EmptyString => k s
  | String pc p' =>
      match s with
      | String c s' => if Ascii.eqb (lower c) pc then re_literal p' s' k else None
      | EmptyString => None
      end
  end.

(** Ordered alternation: the first alternative whose match lets the rest of
    the pattern succeed. *)
Fixpoint re_alt {V : Type} (alts : list (matcher V)) : matcher V := fun s k =>
  match alts with
  | [] => None
  | m :: alts' =>
      match m s k with
      | Some r => Some r
      | None => re_alt alts' s k
      end
  end.

(** [\s*] and [\s+], greedy: the longest run first, then shorter ones. *)
Fixpoint re_spaces_star (s : string) (k : string -> option A) : option A :=
  match s with
  | String c s' =>
      if is_space c then
        match re_spaces_star s' k with
        | Some r => Some r
        | None => k s
        end
      else k s
  | EmptyString => k s
  end.

Definition re_spaces_plus (s : string) (k : string -> option A) : option A :=
  match s with
  | String c s' => if is_space c then re_spaces_star s' k else None
  | EmptyString => None
  end.

(** [%Y]: [\d\d\d\d] *)
Definition re_Y : matcher Z := fun s k =>
  re_class is_digit s (fun a s =>
  re_class is_digit s (fun b s =>
  re_class is_digit s (fun c s =>
  re_class is_digit s (fun d s =>
  k (1000 * a + 100 * b + 10 * c + d) s)))).

(** [%b]: [jan|feb|mar|apr|may|jun|jul|aug|sep|oct|nov|dec]; the capture is
    the month number. *)
Definition a_month : list string :=
  ["jan"; "feb"; "mar"; "apr"; "may"; "jun"; "jul"; "aug"; "sep"; "oct"; "nov"; "dec"].

Definition re_b : matcher Z :=
  re_alt (imap (fun i name => fun s k => re_literal name s (k (Z.of_nat i + 1))) a_month).

(** [%d]: [3[0-1]|[1-2]\d|0[1-9]|[1-9]| [1-9]]; the capture is [int] of the
    matched text. *)
Definition re_d : matcher Z :=
  re_alt
    [ (fun s k => re_class (in_range 3 3) s (fun a s =>
                  re_class (in_range 0 1) s (fun b s => k (10 * a + b) s)));
      (fun s k => re_class (in_range 1 2) s (fun a s =>
                  re_class is_digit s (fun b s => k (10 * a + b) s)));
      (fun s k => re_class (in_range 0 0) s (fun a s =>
                  re_class (in_range 1 9) s (fun b s => k (10 * a + b) s)));
      (fun s k => re_class (in_range 1 9) s k);
      (fun s k => re_literal " " s (fun s => re_class (in_range 1 9) s k)) ].
End Matcher.

(** The pieces of a format string: a directive or a run of white space. *)
Inductive directive : Type := dir_Y | dir_b | dir_d | dir_space.

(** ["%Y %b %d"] and ["%Y %b"] *)
Definition fmt_Ybd : list directive := [dir_Y; dir_space; dir_b; dir_space; dir_d].
Definition fmt_Yb : list directive := [dir_Y; dir_space; dir_b].

(** What the named groups captured. *)
Record found : Type := mk_found {
  found_Y : option Z;
  found_b : option Z;
  found_d : option Z
}.

(** [format_regex.match(data_string)]: the groups and the unmatched rest. *)
Fixpoint re_match (fmt : list directive) (s : string) (f : found) : option (found * string) :=
  match fmt with
  | [] => Some (f, s)
  | dir_Y :: fmt' =>
      re_Y s (fun y s' => re_match fmt' s' (mk_found (Some y) (found_b f) (found_d f)))
  | dir_b :: fmt' =>
      re_b s (fun m s' => re_match fmt' s' (mk_found (found_Y f) (Some m) (found_d f)))
  | dir_d :: fmt' =>
      re_d s (fun d s' => re_match fmt' s' (mk_found (found_Y f) (found_b f) (Some d)))
  | dir_space :: fmt' =>
      re_spaces_plus s (fun s' => re_match fmt' s' f)
  end.

(** [datetime.strptime(data_string, format)]: no match, unconverted data and
    field values that are no date all raise ValueError.  Fields the format
    does not mention default to 1900, 1 and 1. *)
Definition strptime (data_string : string) (format : list directive) : result datetime :=
  match re_match format data_string (mk_found None None None) with
  | None => Raise ValueError
  | Some (f, rest) =>
      if String.eqb rest "" then
        datetime_new (default 1900 (found_Y f)) (default 1 (found_b f))
                     (default 1 (found_d f)) 0 0 0 0
      else Raise ValueError
  end.

(** ** Values of a date column: a [datetime] or a [str] *)

Inductive pyval : Type :=
| VDate (d : datetime)
| VStr (s : string).

(** [a == b]: values of different types are unequal, nothing is raised. *)
Definition py_eqb (a b : pyval) : bool :=
  match a, b with
  | VDate x, VDate y => match dt_compare x y with Eq => true | _ => false end
  | VStr x, VStr y => String.eqb x y
  | _, _ => false
  end.

(** [a < b] and [a >= b]: a [str] and a [datetime] do not compare. *)
Definition py_lt (a b : pyval) : result bool :=
  match a, b with
  | VDate x, VDate y => Ok (dt_ltb x y)
  | VStr x, VStr y => Ok (String.ltb x y)
  | _, _ => Raise TypeError
  end.

Definition py_ge (a b : pyval) : result bool :=
  match a, b with
  | VDate x, VDate y => Ok (dt_geb x y)
  | VStr x, VStr y => Ok (negb (String.ltb x y))
  | _, _ => Raise TypeError
  end.

(** [v.replace(day=d)]: [str.replace] takes no keyword arguments. *)
Definition py_replace_day (v : pyval) (d : Z) : result datetime :=
  match v with
  | VDate dt => replace dt None None (Some d)
  | VStr _ => Raise TypeError
  end.

(** [d[k]] on a dict and [l[0]] on a list. *)
Definition getitem {V : Type} (d : gmap string V) (k : string) : result V :=
  match d !! k with
  | Some v => Ok v
  | None => Raise KeyError
  end.

Definition list_getitem0 {V : Type} (l : list V) : result V :=
  match l with
  | x :: _ => Ok x
  | [] => Raise IndexError
  end.

(** [s[-1]] (of a non-empty string) and [s[:-1]]. *)
Fixpoint last_char (s : string) : option ascii :=
  match s with
  | EmptyString => None
  | String c EmptyString => Some c
  | String _ s' => last_char s'
  end.

Fixpoint drop_last (s : string) : string :=
  match s with
  | EmptyString => EmptyString
  | String _ EmptyString => EmptyString
  | String c s' => String c (drop_last s')
  end.

(** ** The script *)

Definition AL_CONST : Z := 143.

(** The loop of [dates_between] (lines 19-21) over the values of [range],
    and [dates_between] itself; [None] when it raises. *)
Fixpoint dates_from (date1 : datetime) (range : list Z) (dates : list datetime)
  : option (list datetime) :=
  match range with
  | [] => Some dates
  | i :: range' =>
      td ← timedelta_new i 0 0 0 0;
      date ← dt_add date1 td;
      dates_from date1 range' (dates ++ [date])%list
  end.

Definition dates_between (date1 date2 : datetime) (include_end : bool)
  : option (list datetime) :=
  delta ← dt_sub date2 date1;
  let dates := [] in
  let days := if include_end then days delta + 1 else days delta in
  dates_from date1 (seqZ 0 days) dates.

(** A row of [DictReader] maps column names to text; after [read_csv] the
    three date columns hold a [datetime] or a sentinel string.  (A row
    shorter than the header holds [None] in the missing columns, which
    [read_date] treats as it treats the empty string.) *)
Abbreviation csv_row := (gmap string string).
Abbreviation launch := (gmap string pyval).

(** The trailing question mark is dropped (lines 42-43). *)
Definition strip_uncertain (date_string : string) : string :=
  if decide (last_char date_string = Some "?"%char)
  then drop_last date_string else date_string.

Definition read_date (date_string : string) : result pyval :=
  if String.eqb date_string "" then Ok (VStr "-")
  else if String.eqb date_string "*" || String.eqb date_string "-"
  then Ok (VStr date_string)
  else
    let actual_date := strip_uncertain date_string in
    dt <- try_except (strptime actual_date fmt_Ybd) ValueError
                     (strptime actual_date fmt_Yb);
    Ok (VDate dt).

(** The body of the loop of [read_csv]: the three date columns of the row are
    overwritten in turn. *)
Definition read_row (row : csv_row) : result launch :=
  let r : launch := VStr <$> row in
  s <- getitem row "Launch Date";
  v <- read_date s;
  let r := <["Launch Date" := v]> r in
  s <- getitem row "Fail Date";
  v <- read_date s;
  let r := <["Fail Date" := v]> r in
  s <- getitem row "Reentry Date";
  v <- read_date s;
  Ok (<["Reentry Date" := v]> r).

(** [read_csv], given the rows the reader yields. *)
Fixpoint read_csv (rows : list csv_row) : result (list launch) :=
  match rows with
  | [] => Ok []
  | row :: rows' =>
      l <- read_row row;
      launches <- read_csv rows';
      Ok (l :: launches)
  end.

Definition increment_month (cur_date : datetime) : result datetime :=
  let month := month cur_date in
  if Z.eqb month 12
  then replace cur_date (Some (year cur_date + 1)) (Some 1) None
  else replace cur_date (Some (year cur_date)) (Some (month + 1)) None.

(** A monthly total, the dict appended at lines 119-125. *)
Record bucket : Type := mk_bucket {
  Month : string;
  Reentered : Z;
  Al : Z
}.

(** The module-level variables of the aggregation, and the number of times
    [datetime.now()] has been called. *)
Record globals : Type := mk_globals {
  cur_date : datetime;
  monthly_totals : list bucket;
  cur_month_total : Z;
  ticks : nat
}.

(** Every call of [increment_month] that returns yields a year within
    1..9999, so a month counter bounds the iterations of the inner loop. *)
Definition months_left (cur : datetime) : nat :=
  Z.to_nat (12 * (MAXYEAR + 2) - (12 * year cur + month cur)).

Section Script.
(** [clock n] is what the [n]-th call of [datetime.now()] returns. *)
Variable clock : nat -> datetime.

Definition reentry_date (l : launch) (tick : nat) : result (pyval * nat) :=
  v <- getitem l "Reentry Date";
  if py_eqb v (VStr "-") then Ok (VDate (clock tick), S tick)
  else Ok (v, tick).

(** [sorted(launches, key=reentry_date)]: the key of every launch is taken
    once, in list order, then the list is sorted on the keys.  The sort is
    stable and compares with [<] only; it is modelled by insertion. *)
Fixpoint keys_of (ls : list launch) (tick : nat)
  : result (list (pyval * launch) * nat) :=
  match ls with
  | [] => Ok ([], tick)
  | l :: ls' =>
      '(k, tick1) <- reentry_date l tick;
      '(ks, tick2) <- keys_of ls' tick1;
      Ok ((k, l) :: ks, tick2)
  end.

Fixpoint insert_keyed (x : pyval * launch) (l : list (pyval * launch))
  : result (list (pyval * launch)) :=
  match l with
  | [] => Ok [x]
  | y :: l' =>
      b <- py_lt (fst y) (fst x);
      if b then (r <- insert_keyed x l'; Ok (y :: r)) else Ok (x :: l)
  end.

Fixpoint sort_keyed (l : list (pyval * launch)) : result (list (pyval * launch)) :=
  match l with
  | [] => Ok []
  | x :: l' => s <- sort_keyed l'; insert_keyed x s
  end.

Definition sorted_by_reentry (ls : list launch) (tick : nat)
  : result (list launch * nat) :=
  '(keyed, tick') <- keys_of ls tick;
  s <- sort_keyed keyed;
  Ok (map snd s, tick').

(** The test of the while loop (line 117): the left operand first, then the
    right one, then the comparison. *)
Definition past_month_end (l : launch) (st : globals) : result (bool * nat) :=
  '(k, tick) <- reentry_date l (ticks st);
  nxt <- increment_month (cur_date st);
  b <- py_ge k (VDate nxt);
  Ok (b, tick).

(** The body of the while loop (lines 119-128). *)
Definition flush_month (st : globals) (tick : nat) : result globals :=
  let totals :=
    (monthly_totals st ++
      [ {| Month := strftime_dmY (cur_date st);
           Reentered := cur_month_total st;
           Al := cur_month_total st * AL_CONST |} ])%list in
  nxt <- increment_month (cur_date st);
  Ok {| cur_date := nxt; monthly_totals := totals;
        cur_month_total := 0; ticks := tick |}.

(** The while loop, unrolled at most [fuel] times; [None] when the fuel
    does not suffice. *)
Fixpoint while_past_month_end (fuel : nat) (l : launch) (st : globals)
  : option (result globals) :=
  match fuel with
  | O => None
  | S fuel' =>
      match past_month_end l st with
      | Raise e => Some (Raise e)
      | Ok (false, tick) =>
          Some (Ok {| cur_date := cur_date st; monthly_totals := monthly_totals st;
                      cur_month_total := cur_month_total st; ticks := tick |})
      | Ok (true, tick) =>
          match flush_month st tick with
          | Raise e => Some (Raise e)
          | Ok st' => while_past_month_end fuel' l st'
          end
      end
  end.

(** The while loop with the fuel that always suffices (see
    [while_past_month_end_enough]). *)
Definition flush_months (l : launch) (st : globals) : result globals :=
  match while_past_month_end (S (months_left (cur_date st))) l st with
  | Some r => r
  | None => Raise ValueError
  end.

(** The for loop (lines 112-131), with its [break]. *)
Fixpoint for_launches (ls : list launch) (st : globals) : result globals :=
  match ls with
  | [] => Ok st
  | l :: rest =>
      v <- getitem l "Reentry Date";
      if py_eqb v (VStr "-") then Ok st
      else
        st1 <- flush_months l st;
        for_launches rest
          {| cur_date := cur_date st1; monthly_totals := monthly_totals st1;
             cur_month_total := cur_month_total st1 + 1; ticks := ticks st1 |}
  end.

(** Lines 100-131, from the list [read_csv] returned. *)
Definition aggregate (parsed : list launch) : result globals :=
  '(launches, tick) <- sorted_by_reentry parsed O;
  first <- list_getitem0 launches;
  '(v, tick) <- reentry_date first tick;
  cur <- py_replace_day v 1;
  for_launches launches
    {| cur_date := cur; monthly_totals := []; cur_month_total := 0; ticks := tick |}.

(** Lines 135-138: the header, then one row of cells per bucket. *)
Definition fieldnames : list string := ["Month"; "Reentered"; "Al"].

Definition writerow (b : bucket) : list string :=
  [Month b; str_int (Reentered b); str_int (Al b)].

Definition monthly_csv (totals : list bucket) : list (list string) :=
  fieldnames :: map writerow totals.

(** The whole script: the rows of [output.csv] in, the cells of
    [monthly.csv] out. *)
Definition main (rows : list csv_row) : result (list (list string)) :=
  parsed <- read_csv rows;
  st <- aggregate parsed;
  Ok (monthly_csv (monthly_totals st)).
End Script.

(** ** Renderings the properties are stated with *)

(** The abbreviated month names, as [strftime("%b")] prints them. *)
Definition MONTH_ABBR : list string :=
  ["Jan"; "Feb"; "Mar"; "Apr"; "May"; "Jun"; "Jul"; "Aug"; "Sep"; "Oct"; "Nov"; "Dec"].

Definition month_abbr (m : Z) : string := nth (Z.to_nat (m - 1)) MONTH_ABBR "".

(** The day-precision rendering [YYYY Mon DD] and the month-precision
    rendering [YYYY Mon] of a date. *)
Definition format_Ybd (y m d : Z) : string :=
  pad4 y +:+ " " +:+ month_abbr m +:+ " " +:+ pad2 d.

Definition format_Yb (y m : Z) : string :=
  pad4 y +:+ " " +:+ month_abbr m.

(** A date at midnight. *)
Definition date (y m d : Z) : datetime := mk_datetime y m d 0 0 0 0.

(** The columns [read_csv] parses, and the rows that have them: every row of
    a [DictReader] has the columns of the header. *)
Definition date_columns : list string := ["Launch Date"; "Fail Date"; "Reentry Date"].

Definition has_date_columns (row : csv_row) : Prop :=
  Forall (fun col => is_Some (row !! col)) date_columns.

(** A checked datetime, and one that falls on the first of its month. *)
Definition valid_datetime (dt : datetime) : Prop :=
  check_date_fields (year dt) (month dt) (day dt) = true
  /\ check_time_fields (hour dt) (minute dt) (second dt) (microsecond dt) = true.

Definition first_of_month (dt : datetime) : Prop :=
  valid_datetime dt /\ day dt = 1.

(** The first of the following month, at the same time of day. *)
Definition next_month (dt : datetime) : datetime :=
  mk_datetime (if month dt =? 12 then year dt + 1 else year dt)
              (if month dt =? 12 then 1 else month dt + 1)
              (day dt) (hour dt) (minute dt) (second dt) (microsecond dt).

Definition midnight (dt : datetime) : Prop :=
  hour dt = 0 /\ minute dt = 0 /\ second dt = 0 /\ microsecond dt = 0.

(** Months counted from year 0, and the first of the month of a datetime
    ([dt.replace(day=1)]). *)
Definition month_index (dt : datetime) : Z := 12 * year dt + month dt.

Definition month_start (dt : datetime) : datetime :=
  mk_datetime (year dt) (month dt) 1 (hour dt) (minute dt) (second dt) (microsecond dt).

Definition add_months (n : nat) (dt : datetime) : datetime := Nat.iter n next_month dt.

(** A launch that has not reentered, and the launches the for loop reaches:
    those before the first one still in orbit. *)
Definition still_in_orbit (l : launch) : bool :=
  match l !! "Reentry Date" with
  | Some v => py_eqb v (VStr "-")
  | None => false
  end.

Fixpoint before_break (ls : list launch) : list launch :=
  match ls with
  | [] => []
  | l :: ls' => if still_in_orbit l then [] else l :: before_break ls'
  end.

(** Every launch with the unknown sentinel comes after every launch with a
    concrete reentry date. *)
Definition sentinels_last (launches : list launch) : Prop :=
  forall (i j : nat) (l l' : launch) (d : datetime),
    launches !! i = Some l -> launches !! j = Some l' ->
    l !! "Reentry Date" = Some (VStr "-") ->
    l' !! "Reentry Date" = Some (VDate d) ->
    (j < i)%nat.

(** What [read_csv] leaves in the reentry column: a date at midnight or one
    of the two sentinels. *)
Definition well_read (l : launch) : Prop :=
  exists v, l !! "Reentry Date" = Some v /\
    match v with
    | VDate dt => valid_datetime dt /\ midnight dt
    | VStr s => s = "-" \/ s = "*"
    end.

(** A well-formed monthly total: the month as [01/MM/YYYY], a count that is
    not negative, and the count times 143. *)
Definition bucket_well_formed (b : bucket) : Prop :=
  exists y m, 1 <= y <= 9999 /\ 1 <= m <= 12
    /\ Month b = "01/" +:+ pad2 m +:+ "/" +:+ pad4 y
    /\ 0 <= Reentered b /\ Al b = Reentered b * 143.

(** What the loops keep true of the module-level variables. *)
Definition totals_inv (st : globals) : Prop :=
  first_of_month (cur_date st) /\ 0 <= cur_month_total st
  /\ Forall bucket_well_formed (monthly_totals st).

(** The type of a sort key: a datetime or a string. *)
Definition key_kind (v : pyval) : bool :=
  match v with
  | VDate _ => true
  | VStr _ => false
  end.

(** The key [reentry_date] gives a launch is a string when the reentry column
    holds a string other than ["-"]. *)
Definition key_is_str (l : launch) : bool :=
  match l !! "Reentry Date" with
  | Some (VStr s) => negb (String.eqb s "-")
  | _ => false
  end.

(** [a <= b] on keys, as the sort sees it: [b < a] is false. *)
Definition key_le (p q : pyval * launch) : Prop := py_lt (fst q) (fst p) = Ok false.

(** The bucket the loop appends for the month [cur] and the count [n], and
    the buckets of [k] months without a reentry, from the month [cur] on. *)
Definition bucket_of (cur : datetime) (n : Z) : bucket :=
  {| Month := strftime_dmY cur; Reentered := n; Al := n * AL_CONST |}.

Definition zero_buckets (k : nat) (cur : datetime) : list bucket :=
  map (fun i => bucket_of (add_months i cur) 0) (seq 0 k).

(** The last month of the calendar, December 9999, as a month index. *)
Definition LAST_MONTH : Z := 12 * MAXYEAR + 12.

(** A key of the sort: what [reentry_date] returned for the launch. *)
Definition effective_key (clock : nat -> datetime) (p : pyval * launch) : Prop :=
  exists tick tick', reentry_date clock (snd p) tick = Ok (fst p, tick').

(** Launches with a date each, the months never going back, from the month
    index [prev] on. *)
Fixpoint month_chain (prev : Z) (ls : list launch) : Prop :=
  match ls with
  | [] => True
  | l :: ls' =>
      exists d, l !! "Reentry Date" = Some (VDate d)
        /\ valid_datetime d /\ midnight d
        /\ prev <= month_index d /\ month_chain (month_index d) ls'
  end.

(** The emitted buckets are those of months before the current one. *)
Definition months_before (st : globals) : Prop :=
  first_of_month (cur_date st)
  /\ Forall (fun b => exists M, first_of_month M /\ Month b = strftime_dmY M
                       /\ month_index M < month_index (cur_date st))
       (monthly_totals st).

(** The reentries the buckets account for. *)
Definition reentered_sum (totals : list bucket) : Z :=
  foldr (fun b acc => Reentered b + acc) 0 totals.

(** The strings [read_date] returns unchanged or maps to ["-"]. *)
Definition is_sentinel (s : string) : Prop := s = "" \/ s = "*" \/ s = "-".

(** The time of day in microseconds, the whole days from one datetime to
    another, and the datetime a number of days after another, at the same
    time of day. *)
Definition time_of_day (dt : datetime) : Z :=
  (second dt + minute dt * 60 + hour dt * 3600) * 1000000 + microsecond dt.

Definition whole_days (date1 date2 : datetime) : Z :=
  toordinal date2 - toordinal date1
  - (if time_of_day date2 <? time_of_day date1 then 1 else 0).

Definition plus_days (dt : datetime) (i : Z) : datetime :=
  let '(y, m, d) := ord2ymd (toordinal dt + i) in
  mk_datetime y m d (hour dt) (minute dt) (second dt) (microsecond dt).

(** The month a launch reentered in, as a month index, the number of
    launches of a list that reentered in the month [M], and the count the
    loop carries into the month it is in: it belongs to that month only. *)
Definition reentry_month (l : launch) : option Z :=
  match l !! "Reentry Date" with
  | Some (VDate d) => Some (month_index d)
  | _ => None
  end.

Definition reentries_in (M : Z) (ls : list launch) : Z :=
  Z.of_nat (length (filter (fun l => reentry_month l = Some M) ls)).

Definition pending (i : nat) (count : Z) : Z :=
  match i with
  | O => count
  | S _ => 0
  end.

(** What an exception of the script points to in the rows it read: no row
    at all, a row without one of the date columns, a wildcard as reentry
    date, a date field that does not parse or a reentry in the last month of
    the calendar. *)
Definition cause (rows : list csv_row) (e : exn) : Prop :=
  match e with
  | IndexError => rows = []
  | KeyError => exists row col, row ∈ rows /\ col ∈ date_columns /\ row !! col = None
  | TypeError => exists row, row ∈ rows /\ row !! "Reentry Date" = Some "*"
  | ValueError =>
      (exists row col s, row ∈ rows /\ col ∈ date_columns /\ row !! col = Some s
                         /\ read_date s = Raise ValueError)
      \/ (exists row s d, row ∈ rows /\ row !! "Reentry Date" = Some s
                          /\ read_date s = Ok (VDate d) /\ month_index d = LAST_MONTH)
  end.

(** What an exception of the aggregation points to among the launches: a
    wildcard for a TypeError, a reentry in the last month of the calendar
    for a ValueError.  The loops keep the current month from being that last
    month unless a launch reentered in it. *)
Definition reenters_last_month (parsed : list launch) : Prop :=
  exists l d, l ∈ parsed /\ l !! "Reentry Date" = Some (VDate d)
              /\ month_index d = LAST_MONTH.

Definition has_wildcard (parsed : list launch) : Prop :=
  exists l, l ∈ parsed /\ l !! "Reentry Date" = Some (VStr "*").

Definition points_to (parsed : list launch) (e : exn) : Prop :=
  (e = TypeError /\ has_wildcard parsed) \/ (e = ValueError /\ reenters_last_month parsed).

Definition cur_inv (parsed : list launch) (st : globals) : Prop :=
  first_of_month (cur_date st)
  /\ (month_index (cur_date st) = LAST_MONTH -> reenters_last_month parsed).

(** The texts [read_date] reads a date from.  A year is written on four
    digits and a day on one or two; the month is one of the abbreviated
    names, in letters of either case; runs of white space separate them. *)
Fixpoint all_of (p : ascii -> bool) (s : string) : bool :=
  match s with
  | EmptyString => true
  | String c s' => p c && all_of p s'
  end.

Fixpoint lower_string (s : string) : string :=
  match s with
  | EmptyString => EmptyString
  | String c s' => String (lower c) (lower_string s')
  end.

(** [int(t)] for a text of digits, on top of the digits read so far. *)
Fixpoint digits_value (acc : Z) (t : string) : Z :=
  match t with
  | EmptyString => acc
  | String c t' => digits_value (10 * acc + digit_val c) t'
  end.

Definition blank (w : string) : Prop := w <> "" /\ all_of is_space w = true.

Definition year_text (Y : string) (y : Z) : Prop :=
  String.length Y = 4%nat /\ all_of is_digit Y = true /\ digits_value 0 Y = y.

Definition month_text (B : string) (m : Z) : Prop :=
  1 <= m <= 12 /\ lower_string B = lower_string (month_abbr m).

Definition day_text (D : string) (d : Z) : Prop :=
  (String.length D = 1%nat \/ String.length D = 2%nat)
  /\ all_of is_digit D = true /\ digits_value 0 D = d.

Definition day_precision (t : string) (y m d : Z) : Prop :=
  exists Y w B w' D,
    t = Y +:+ w +:+ B +:+ w' +:+ D
    /\ year_text Y y /\ blank w /\ month_text B m /\ blank w' /\ day_text D d.

Definition month_precision (t : string) (y m : Z) : Prop :=
  exists Y w B, t = Y +:+ w +:+ B /\ year_text Y y /\ blank w /\ month_text B m.

(** [k] calls of [increment_month] in a row, each on what the call before
    returned, as the while loop makes them (line 126); and the datetime [k]
    months after another one, on the same day and at the same time of day. *)
Fixpoint increment_months (k : nat) (cur_date : datetime) : result datetime :=
  match k with
  | O => Ok cur_date
  | S k' => nxt <- increment_month cur_date; increment_months k' nxt
  end.

Definition months_later (k : Z) (dt : datetime) : datetime :=
  let i := month_index dt + k - 1 in
  mk_datetime (i / 12) (i mod 12 + 1) (day dt)
              (hour dt) (minute dt) (second dt) (microsecond dt).

(** ** Sample data of the examples *)

(** A row of the input with the given reentry date, and the launch [read_csv]
    makes of it when the reentry date parses to [v]. *)
Definition sample_row (reentry : string) : csv_row :=
  {[ "Launch Date" := "2019 May 24"; "Fail Date" := "-"; "Reentry Date" := reentry ]}.

Definition sample_launch (reentry : string) (v : pyval) : launch :=
  <["Reentry Date" := v]>
    (<["Fail Date" := VStr "-"]>
       (<["Launch Date" := VDate (date 2019 5 24)]> (VStr <$> sample_row reentry))).

(** A clock that stands at noon of 2022-03-15. *)
Definition noon_2022 : nat -> datetime := fun _ => mk_datetime 2022 3 15 12 0 0 0.

(** * Lemmas *)

(** ** The result monad *)

Lemma bind_Ok {A B : Type} (c : result A) (k : A -> result B) (b : B) :
  bind c k = Ok b -> exists a, c = Ok a /\ k a = Ok b.
Proof. destruct c as [a|e]; simpl; [eauto | discriminate]. Qed.

Lemma bind_Raise {A B : Type} (c : result A) (k : A -> result B) (e : exn) :
  bind c k = Raise e -> c = Raise e \/ exists a, c = Ok a /\ k a = Raise e.
Proof. destruct c as [a|e']; simpl; [eauto | intros [= ->]; auto]. Qed.

(** ** Digits and padded numbers *)

(** Case analysis on an integer known to lie in [lo, lo + n). *)
Ltac enum_Z d lo n tac :=
  lazymatch n with
  | O => exfalso; lia
  | S ?n' =>
      let lo' := eval compute in (lo + 1) in
      destruct (Z.eq_dec d lo) as [->|?]; [tac | enum_Z d lo' n' tac]
  end.

Lemma digit_char_is_digit (n : Z) : 0 <= n <= 9 -> is_digit (digit_char n) = true.
Proof. intros Hn. enum_Z n 0 10%nat ltac:(reflexivity). Qed.

Lemma digit_char_val (n : Z) : 0 <= n <= 9 -> digit_val (digit_char n) = n.
Proof. intros Hn. enum_Z n 0 10%nat ltac:(reflexivity). Qed.

Lemma digit_char_not_space (n : Z) : 0 <= n <= 9 -> is_space (digit_char n) = false.
Proof. intros Hn. enum_Z n 0 10%nat ltac:(reflexivity). Qed.

Lemma digit_char_not_question (n : Z) : 0 <= n <= 9 -> digit_char n <> "?"%char.
Proof. intros Hn. enum_Z n 0 10%nat ltac:(discriminate). Qed.

Lemma pad4_digits (y : Z) :
  0 <= y <= 9999 ->
  0 <= y / 1000 <= 9 /\ 0 <= y / 100 mod 10 <= 9 /\
  0 <= y / 10 mod 10 <= 9 /\ 0 <= y mod 10 <= 9 /\
  1000 * (y / 1000) + 100 * (y / 100 mod 10) + 10 * (y / 10 mod 10) + y mod 10 = y.
Proof. intros Hy. repeat split; Z.div_mod_to_equations; lia. Qed.

Lemma pad2_digits (d : Z) :
  0 <= d <= 99 -> 0 <= d / 10 <= 9 /\ 0 <= d mod 10 <= 9 /\ 10 * (d / 10) + d mod 10 = d.
Proof. intros Hd. repeat split; Z.div_mod_to_equations; lia. Qed.

(** ** Strings: the last character *)

Lemma append_String (c : ascii) (s t : string) : String c s +:+ t = String c (s +:+ t).
Proof. reflexivity. Qed.

Lemma append_Empty (t : string) : "" +:+ t = t.
Proof. reflexivity. Qed.

Lemma append_Empty_r (s : string) : s +:+ "" = s.
Proof. induction s as [|c s IH]; [reflexivity|]. now rewrite append_String, IH. Qed.

Lemma last_char_app (s t : string) :
  t <> "" -> last_char (s +:+ t) = last_char t.
Proof.
  intros Ht. induction s as [|c s IH]; simpl; [reflexivity|].
  rewrite IH. destruct (s +:+ t) eqn:E; [|reflexivity].
  destruct s; simpl in E; [contradiction | discriminate].
Qed.

Lemma drop_last_app_char (s : string) (c : ascii) :
  drop_last (s +:+ String c "") = s.
Proof.
  induction s as [|a s IH]; simpl; [reflexivity|].
  rewrite IH. destruct (s +:+ String c "") eqn:E; [|reflexivity].
  destruct s; discriminate.
Qed.

Lemma strip_uncertain_question (s : string) : strip_uncertain (s +:+ "?") = s.
Proof.
  unfold strip_uncertain. rewrite last_char_app by discriminate.
  destruct (decide _) as [_|Hn]; [apply drop_last_app_char | now destruct Hn].
Qed.

Lemma strip_uncertain_id (s : string) :
  last_char s <> Some "?"%char -> strip_uncertain s = s.
Proof. intros H. unfold strip_uncertain. destruct (decide _); [contradiction | reflexivity]. Qed.

(** ** datetime *)

Lemma datetime_new_date (y m d : Z) :
  check_date_fields y m d = true -> datetime_new y m d 0 0 0 0 = Ok (date y m d).
Proof. intros H. unfold datetime_new. rewrite H. reflexivity. Qed.

Lemma datetime_new_Ok (y m d h mi s us : Z) (dt : datetime) :
  datetime_new y m d h mi s us = Ok dt ->
  dt = mk_datetime y m d h mi s us /\ check_date_fields y m d = true
  /\ check_time_fields h mi s us = true.
Proof.
  unfold datetime_new.
  destruct (check_date_fields y m d); [|discriminate].
  destruct (check_time_fields h mi s us); [|discriminate].
  intros [= <-]. auto.
Qed.

Lemma datetime_new_Raise (y m d h mi s us : Z) (e : exn) :
  datetime_new y m d h mi s us = Raise e -> e = ValueError.
Proof.
  unfold datetime_new.
  destruct (_ && _); [discriminate | congruence].
Qed.

Lemma check_date_fields_range (y m d : Z) :
  check_date_fields y m d = true ->
  1 <= y <= 9999 /\ 1 <= m <= 12 /\ 1 <= d <= 31.
Proof.
  unfold check_date_fields, MINYEAR, MAXYEAR. intros H.
  repeat (apply andb_prop in H; destruct H as [H ?]).
  assert (Hm : 1 <= m <= 12) by lia.
  assert (days_in_month y m <= 31).
  { unfold days_in_month. destruct (_ && _); [lia|].
    enum_Z m 1 12%nat ltac:(simpl; lia). }
  lia.
Qed.

Lemma check_date_fields_first (y m : Z) :
  1 <= y <= 9999 -> 1 <= m <= 12 -> check_date_fields y m 1 = true.
Proof.
  intros Hy Hm. unfold check_date_fields, MINYEAR, MAXYEAR.
  assert (1 <= days_in_month y m).
  { unfold days_in_month. destruct (_ && _); [lia|].
    enum_Z m 1 12%nat ltac:(simpl; lia). }
  repeat (apply andb_true_intro; split); lia.
Qed.

(** ** increment_month *)

Lemma increment_month_Ok (cur nxt : datetime) :
  increment_month cur = Ok nxt ->
  nxt = mk_datetime (if month cur =? 12 then year cur + 1 else year cur)
                    (if month cur =? 12 then 1 else month cur + 1)
                    (day cur) (hour cur) (minute cur) (second cur) (microsecond cur)
  /\ check_date_fields (year nxt) (month nxt) (day nxt) = true.
Proof.
  unfold increment_month, replace. destruct (month cur =? 12); simpl;
    intros H; apply datetime_new_Ok in H as (-> & H1 & H2); simpl; auto.
Qed.

Lemma increment_month_Raise (cur : datetime) (e : exn) :
  increment_month cur = Raise e -> e = ValueError.
Proof.
  unfold increment_month, replace. destruct (month cur =? 12);
    apply datetime_new_Raise.
Qed.

(** ** The matcher on rendered dates *)

Lemma month_abbr_head (m : Z) :
  1 <= m <= 12 -> exists c r, month_abbr m = String c r /\ is_space c = false.
Proof. intros Hm. enum_Z m 1 12%nat ltac:(do 2 eexists; split; reflexivity). Qed.

Lemma format_Yb_last (y m : Z) :
  1 <= m <= 12 -> last_char (format_Yb y m) <> Some "?"%char.
Proof.
  intros Hm. unfold format_Yb.
  rewrite !last_char_app; enum_Z m 1 12%nat ltac:(discriminate).
Qed.

Section MatcherLemmas.
Context {A : Type}.

Lemma re_Y_pad4 (y : Z) (rest : string) (k : Z -> string -> option A) :
  0 <= y <= 9999 -> re_Y (pad4 y +:+ rest) k = k y rest.
Proof.
  intros Hy. destruct (pad4_digits y Hy) as (H1 & H2 & H3 & H4 & E).
  unfold pad4. rewrite !append_String, append_Empty. unfold re_Y, re_class.
  rewrite !digit_char_is_digit, !digit_char_val by assumption.
  rewrite E. reflexivity.
Qed.

Lemma re_b_month_abbr (m : Z) (rest : string) (k : Z -> string -> option A) :
  1 <= m <= 12 -> re_b (month_abbr m +:+ rest) k = k m rest.
Proof.
  intros Hm.
  enum_Z m 1 12%nat ltac:(vm_compute; match goal with |- context [k ?a ?b] =>
                                        destruct (k a b); reflexivity end).
Qed.

Lemma re_spaces_plus_sep (s : string) (k : string -> option A) :
  (exists c r, s = String c r /\ is_space c = false) ->
  re_spaces_plus (" " +:+ s) k = k s.
Proof. intros (c & r & -> & Hc). simpl. rewrite Hc. reflexivity. Qed.

Lemma re_d_pad2 (d : Z) (k : Z -> string -> option A) (r : A) :
  1 <= d <= 31 -> k d "" = Some r -> re_d (pad2 d) k = Some r.
Proof.
  intros Hd.
  enum_Z d 1 31%nat ltac:(intros Hk; vm_compute; vm_compute in Hk; rewrite Hk; reflexivity).
Qed.
End MatcherLemmas.

Lemma pad2_head (d : Z) :
  0 <= d <= 99 -> exists c r, pad2 d = String c r /\ is_space c = false.
Proof.
  intros Hd. destruct (pad2_digits d Hd) as (H1 & _).
  do 2 eexists. split; [reflexivity|]. now apply digit_char_not_space.
Qed.

Lemma app_head (s t : string) :
  (exists c r, s = String c r /\ is_space c = false) ->
  exists c r, s +:+ t = String c r /\ is_space c = false.
Proof. intros (c & r & -> & Hc). exists c, (r +:+ t). auto. Qed.

Lemma re_match_format_Ybd (y m d : Z) :
  check_date_fields y m d = true ->
  re_match fmt_Ybd (format_Ybd y m d) (mk_found None None None)
  = Some (mk_found (Some y) (Some m) (Some d), "").
Proof.
  intros Hv. apply check_date_fields_range in Hv as (Hy & Hm & Hd).
  unfold fmt_Ybd, format_Ybd. cbn [re_match found_Y found_b found_d].
  rewrite re_Y_pad4 by lia.
  rewrite re_spaces_plus_sep by (apply app_head, month_abbr_head; lia).
  rewrite re_b_month_abbr by lia.
  rewrite re_spaces_plus_sep by (apply pad2_head; lia).
  apply re_d_pad2; [lia | reflexivity].
Qed.

Lemma re_match_format_Yb (y m : Z) :
  1 <= y <= 9999 -> 1 <= m <= 12 ->
  re_match fmt_Yb (format_Yb y m) (mk_found None None None)
  = Some (mk_found (Some y) (Some m) None, "").
Proof.
  intros Hy Hm. unfold fmt_Yb, format_Yb. cbn [re_match found_Y found_b found_d].
  rewrite re_Y_pad4 by lia.
  rewrite re_spaces_plus_sep by (apply month_abbr_head; lia).
  rewrite <- (append_Empty_r (month_abbr m)) at 1.
  rewrite re_b_month_abbr by lia. reflexivity.
Qed.

(** A month-precision string is not matched by the day-precision pattern. *)
Lemma re_match_format_Yb_day (y m : Z) :
  1 <= y <= 9999 -> 1 <= m <= 12 ->
  re_match fmt_Ybd (format_Yb y m) (mk_found None None None) = None.
Proof.
  intros Hy Hm. unfold fmt_Ybd, format_Yb. cbn [re_match found_Y found_b found_d].
  rewrite re_Y_pad4 by lia.
  rewrite re_spaces_plus_sep by (apply month_abbr_head; lia).
  rewrite <- (append_Empty_r (month_abbr m)) at 1.
  rewrite re_b_month_abbr by lia. reflexivity.
Qed.

Lemma strptime_format_Ybd (y m d : Z) :
  check_date_fields y m d = true ->
  strptime (format_Ybd y m d) fmt_Ybd = Ok (date y m d).
Proof.
  intros Hv. unfold strptime. rewrite re_match_format_Ybd by assumption.
  simpl. now apply datetime_new_date.
Qed.

Lemma strptime_format_Yb (y m : Z) :
  1 <= y <= 9999 -> 1 <= m <= 12 ->
  strptime (format_Yb y m) fmt_Yb = Ok (date y m 1)
  /\ strptime (format_Yb y m) fmt_Ybd = Raise ValueError.
Proof.
  intros Hy Hm. unfold strptime.
  rewrite re_match_format_Yb, re_match_format_Yb_day by assumption.
  split; [|reflexivity]. simpl. apply datetime_new_date.
  now apply check_date_fields_first.
Qed.

(** ** read_date *)

Lemma read_date_sentinels :
  read_date "" = Ok (VStr "-") /\ read_date "-" = Ok (VStr "-")
  /\ read_date "*" = Ok (VStr "*").
Proof. repeat split. Qed.

Lemma read_date_parse (s : string) :
  ~ is_sentinel s ->
  read_date s =
    (dt <- try_except (strptime (strip_uncertain s) fmt_Ybd) ValueError
                      (strptime (strip_uncertain s) fmt_Yb);
     Ok (VDate dt)).
Proof.
  intros Hs. unfold read_date.
  destruct (String.eqb_spec s "") as [->|_]; [destruct Hs; left; reflexivity|].
  destruct (String.eqb_spec s "*") as [->|_]; [destruct Hs; right; left; reflexivity|].
  destruct (String.eqb_spec s "-") as [->|_]; [destruct Hs; right; right; reflexivity|].
  reflexivity.
Qed.

Lemma strptime_Raise (s : string) (fmt : list directive) (e : exn) :
  strptime s fmt = Raise e -> e = ValueError.
Proof.
  unfold strptime. destruct (re_match _ _ _) as [[f rest]|]; [|congruence].
  destruct (String.eqb rest ""); [apply datetime_new_Raise | congruence].
Qed.

Lemma strptime_Ok (s : string) (fmt : list directive) (dt : datetime) :
  strptime s fmt = Ok dt ->
  check_date_fields (year dt) (month dt) (day dt) = true
  /\ check_time_fields (hour dt) (minute dt) (second dt) (microsecond dt) = true.
Proof.
  unfold strptime. destruct (re_match _ _ _) as [[f rest]|]; [|discriminate].
  destruct (String.eqb rest ""); [|discriminate].
  intros H. apply datetime_new_Ok in H as (-> & H1 & H2). auto.
Qed.

Lemma read_date_Raise (s : string) (e : exn) :
  read_date s = Raise e -> e = ValueError.
Proof.
  unfold read_date.
  destruct (String.eqb s ""); [discriminate|].
  destruct (_ || _); [discriminate|].
  destruct (strptime (strip_uncertain s) fmt_Ybd) as [dt|e1] eqn:E1; simpl; [discriminate|].
  apply strptime_Raise in E1 as ->. simpl.
  destruct (strptime (strip_uncertain s) fmt_Yb) as [dt|e2] eqn:E2; simpl; [discriminate|].
  apply strptime_Raise in E2 as ->. congruence.
Qed.

Lemma pad4_app_not_sentinel (y : Z) (t : string) : ~ is_sentinel (pad4 y +:+ t).
Proof. unfold pad4. rewrite !append_String. intros [H|[H|H]]; discriminate. Qed.

Lemma format_Ybd_last (y m d : Z) (Hd : 0 <= d <= 99) :
  last_char (format_Ybd y m d) <> Some "?"%char.
Proof.
  unfold format_Ybd, pad2.
  rewrite !last_char_app by (try destruct (month_abbr m); discriminate).
  simpl. intros [= H]. revert H. apply digit_char_not_question.
  now apply pad2_digits.
Qed.

(** ** The parser on some inputs *)

Example strptime_day_precision :
  strptime "2020 Jan 05" fmt_Ybd = Ok (date 2020 1 5).
Proof. reflexivity. Qed.

(** Any run of white space separates the fields, case does not matter, and
    the day needs no leading zero. *)
Example strptime_loose :
  strptime "2020  JAN	5" fmt_Ybd = Ok (date 2020 1 5).
Proof. reflexivity. Qed.

(** A day the month does not have, a day of two digits the pattern cuts
    short, and a year 0 are no dates. *)
Example strptime_no_such_day : strptime "2020 Feb 30" fmt_Ybd = Raise ValueError.
Proof. reflexivity. Qed.

Example strptime_unconverted : strptime "2020 Jan 35" fmt_Ybd = Raise ValueError.
Proof. reflexivity. Qed.

Example strptime_year_zero : strptime "0000 Jan 01" fmt_Ybd = Raise ValueError.
Proof. reflexivity. Qed.

Example strptime_month_precision :
  strptime "0999 dec" fmt_Yb = Ok (date 999 12 1)
  /\ strptime "2020 Jan 5" fmt_Yb = Raise ValueError.
Proof. split; reflexivity. Qed.

Example read_date_examples :
  read_date "2020 Jan 05?" = Ok (VDate (date 2020 1 5))
  /\ read_date "2020 Jan?" = Ok (VDate (date 2020 1 1))
  /\ read_date "?" = Raise ValueError
  /\ read_date "20/01/2020" = Raise ValueError
  /\ read_date "2020 Jan 5??" = Raise ValueError
  /\ read_date "2020 Feb 30" = Raise ValueError.
Proof. repeat split. Qed.

(** ** read_csv *)

Lemma getitem_Some {V : Type} (d : gmap string V) (k : string) (v : V) :
  d !! k = Some v -> getitem d k = Ok v.
Proof. intros H. unfold getitem. now rewrite H. Qed.

Lemma has_date_columns_lookup (row : csv_row) :
  has_date_columns row ->
  exists a b c, row !! "Launch Date" = Some a /\ row !! "Fail Date" = Some b
                /\ row !! "Reentry Date" = Some c.
Proof.
  unfold has_date_columns, date_columns. intros H.
  repeat match goal with
         | H : Forall _ (_ :: _) |- _ => apply Forall_cons_1 in H; destruct H as [[? ?] H]
         end.
  eauto 10.
Qed.

Lemma read_row_columns (row : csv_row) (a b c : string) :
  row !! "Launch Date" = Some a -> row !! "Fail Date" = Some b ->
  row !! "Reentry Date" = Some c ->
  read_row row =
    (va <- read_date a; vb <- read_date b; vc <- read_date c;
     Ok (<["Reentry Date" := vc]> (<["Fail Date" := vb]>
          (<["Launch Date" := va]> (VStr <$> row))))).
Proof.
  intros Ha Hb Hc. unfold read_row.
  rewrite (getitem_Some _ _ _ Ha), (getitem_Some _ _ _ Hb), (getitem_Some _ _ _ Hc).
  reflexivity.
Qed.

Lemma read_row_Ok_reentry (row : csv_row) (l : launch) :
  read_row row = Ok l ->
  exists s v, row !! "Reentry Date" = Some s /\ read_date s = Ok v
              /\ l !! "Reentry Date" = Some v.
Proof.
  unfold read_row, getitem. intros H.
  destruct (row !! "Launch Date") as [a|]; [|discriminate]. simpl in H.
  destruct (read_date a) as [va|]; [|discriminate]. simpl in H.
  destruct (row !! "Fail Date") as [b|]; [|discriminate]. simpl in H.
  destruct (read_date b) as [vb|]; [|discriminate]. simpl in H.
  destruct (row !! "Reentry Date") as [c|]; [|discriminate]. simpl in H.
  destruct (read_date c) as [vc|] eqn:Ec; [|discriminate]. simpl in H.
  injection H as <-. exists c, vc. repeat split; auto.
  apply lookup_insert_eq.
Qed.

Lemma read_row_bad_field (row : csv_row) (col s : string) :
  has_date_columns row -> col ∈ date_columns -> row !! col = Some s ->
  read_date s = Raise ValueError -> read_row row = Raise ValueError.
Proof.
  intros Hrow Hcol Hs Hbad.
  destruct (has_date_columns_lookup row Hrow) as (a & b & c & Ha & Hb & Hc).
  rewrite (read_row_columns row a b c) by assumption.
  assert (Hany : forall t, read_date t = Raise ValueError \/ exists v, read_date t = Ok v).
  { intros t. destruct (read_date t) as [v|e] eqn:E; [eauto|].
    apply read_date_Raise in E as ->. auto. }
  unfold date_columns in Hcol.
  destruct (Hany a) as [Ea|[va Ea]]; rewrite Ea; simpl; [reflexivity|].
  destruct (Hany b) as [Eb|[vb Eb]]; rewrite Eb; simpl; [reflexivity|].
  destruct (Hany c) as [Ec|[vc Ec]]; rewrite Ec; simpl; [reflexivity|].
  exfalso.
  repeat match goal with
         | H : _ ∈ _ :: _ |- _ => apply elem_of_cons in H; destruct H as [->|H]
         | H : _ ∈ [] |- _ => now apply not_elem_of_nil in H
         end; congruence.
Qed.

Lemma read_row_Raise (row : csv_row) (e : exn) :
  has_date_columns row -> read_row row = Raise e -> e = ValueError.
Proof.
  intros Hrow.
  destruct (has_date_columns_lookup row Hrow) as (a & b & c & Ha & Hb & Hc).
  rewrite (read_row_columns row a b c) by assumption.
  destruct (read_date a) as [va|ea] eqn:Ea; simpl;
    [|apply read_date_Raise in Ea as ->; congruence].
  destruct (read_date b) as [vb|eb] eqn:Eb; simpl;
    [|apply read_date_Raise in Eb as ->; congruence].
  destruct (read_date c) as [vc|ec] eqn:Ec; simpl;
    [discriminate|apply read_date_Raise in Ec as ->; congruence].
Qed.

Lemma read_csv_bad_field (rows : list csv_row) (row : csv_row) (col s : string) :
  Forall has_date_columns rows -> row ∈ rows -> col ∈ date_columns ->
  row !! col = Some s -> read_date s = Raise ValueError ->
  read_csv rows = Raise ValueError.
Proof.
  intros Hall Hin Hcol Hs Hbad.
  induction rows as [|r rows IH]; [now apply not_elem_of_nil in Hin|].
  apply Forall_cons_1 in Hall as [Hr Hall]. simpl.
  destruct (read_row r) as [l|e] eqn:Er; simpl.
  - apply elem_of_cons in Hin as [E|Hin].
    + subst r. rewrite (read_row_bad_field row col s) in Er by assumption. discriminate.
    + now rewrite IH.
  - now apply read_row_Raise in Er as ->.
Qed.

(** ** The sample data *)

Lemma sample_row_columns (reentry : string) : has_date_columns (sample_row reentry).
Proof. repeat constructor; eexists; vm_compute; reflexivity. Qed.

Lemma sample_row_reentry (reentry : string) :
  sample_row reentry !! "Reentry Date" = Some reentry.
Proof. vm_compute. reflexivity. Qed.

Lemma read_sample_row (reentry : string) (v : pyval) :
  read_date reentry = Ok v ->
  read_row (sample_row reentry) = Ok (sample_launch reentry v).
Proof.
  intros H.
  rewrite (read_row_columns (sample_row reentry) "2019 May 24" "-" reentry)
    by (vm_compute; reflexivity).
  rewrite H. reflexivity.
Qed.

Lemma read_sample_rows_in_orbit :
  read_csv [sample_row "2020 Mar 02"; sample_row "-"; sample_row "2020 Jan 05";
            sample_row "2020 Jan 20"]
  = Ok [ sample_launch "2020 Mar 02" (VDate (date 2020 3 2));
         sample_launch "-" (VStr "-");
         sample_launch "2020 Jan 05" (VDate (date 2020 1 5));
         sample_launch "2020 Jan 20" (VDate (date 2020 1 20)) ].
Proof.
  cbn [read_csv].
  rewrite (read_sample_row "2020 Mar 02" (VDate (date 2020 3 2))) by reflexivity.
  rewrite (read_sample_row "-" (VStr "-")) by reflexivity.
  rewrite (read_sample_row "2020 Jan 05" (VDate (date 2020 1 5))) by reflexivity.
  rewrite (read_sample_row "2020 Jan 20" (VDate (date 2020 1 20))) by reflexivity.
  reflexivity.
Qed.

Lemma sample_launch_reentry (reentry : string) (v : pyval) :
  sample_launch reentry v !! "Reentry Date" = Some v.
Proof. apply lookup_insert_eq. Qed.

Lemma read_sample_rows :
  read_csv [sample_row "2020 Mar 02"; sample_row "2020 Jan 05"; sample_row "2020 Jan 20"]
  = Ok [ sample_launch "2020 Mar 02" (VDate (date 2020 3 2));
         sample_launch "2020 Jan 05" (VDate (date 2020 1 5));
         sample_launch "2020 Jan 20" (VDate (date 2020 1 20)) ].
Proof.
  cbn [read_csv].
  rewrite (read_sample_row "2020 Mar 02" (VDate (date 2020 3 2))) by reflexivity.
  rewrite (read_sample_row "2020 Jan 05" (VDate (date 2020 1 5))) by reflexivity.
  rewrite (read_sample_row "2020 Jan 20" (VDate (date 2020 1 20))) by reflexivity.
  reflexivity.
Qed.

(** ** The properties of the date parser *)

(** C4: [read_date] round-trips day-precision dates: for every date (year,
    month, day) the checking constructor accepts, parsing its rendering
    [YYYY Mon DD] returns that date, and so does parsing the rendering with
    one question mark appended. *)
Theorem read_date_round_trip (y m d : Z) :
  check_date_fields y m d = true ->
  read_date (format_Ybd y m d) = Ok (VDate (date y m d))
  /\ read_date (format_Ybd y m d +:+ "?") = Ok (VDate (date y m d)).
Proof.
  intros Hv.
  assert (Hd : 0 <= d <= 99) by (apply check_date_fields_range in Hv; lia).
  split.
  - rewrite read_date_parse by apply pad4_app_not_sentinel.
    rewrite strip_uncertain_id by now apply format_Ybd_last.
    now rewrite strptime_format_Ybd.
  - rewrite read_date_parse.
    + rewrite strip_uncertain_question. now rewrite strptime_format_Ybd.
    + unfold format_Ybd, pad4. rewrite !append_String. intros [H|[H|H]]; discriminate.
Qed.

Lemma read_date_round_trip_witness :
  check_date_fields 2020 2 29 = true
  /\ read_date "2020 Feb 29" = Ok (VDate (date 2020 2 29))
  /\ read_date "2020 Feb 29?" = Ok (VDate (date 2020 2 29)).
Proof. split; [reflexivity | apply (read_date_round_trip 2020 2 29); reflexivity]. Defined.

(** C5: [read_date] raises exactly on malformed input that is no sentinel.
    On the empty string, ["-"] and ["*"] it returns a string (["-"] for the
    empty one), which no datetime equals; on any other input it raises, and
    then a ValueError, exactly when the input without its trailing question
    mark fits neither the day-precision nor the month-precision format; and
    a date column on which it raises makes the whole script raise. *)
Theorem read_date_raises_on_malformed :
  (read_date "" = Ok (VStr "-") /\ read_date "-" = Ok (VStr "-")
   /\ read_date "*" = Ok (VStr "*"))
  /\ (forall s, is_sentinel s ->
        exists t, read_date s = Ok (VStr t) /\ forall dt, VStr t <> VDate dt)
  /\ (forall s e,
        read_date s = Raise e <->
        e = ValueError /\ ~ is_sentinel s
        /\ strptime (strip_uncertain s) fmt_Ybd = Raise ValueError
        /\ strptime (strip_uncertain s) fmt_Yb = Raise ValueError)
  /\ (forall clock rows row col s,
        Forall has_date_columns rows -> row ∈ rows -> col ∈ date_columns ->
        row !! col = Some s -> read_date s = Raise ValueError ->
        main clock rows = Raise ValueError).
Proof.
  split; [exact read_date_sentinels|]. split; [|split].
  - intros s [-> | [-> | ->]]; eexists; (split; [reflexivity | discriminate]).
  - intros s e. split.
    + intros H. pose proof (read_date_Raise _ _ H) as ->.
      assert (Hs : ~ is_sentinel s).
      { intros [-> | [-> | ->]]; discriminate. }
      rewrite read_date_parse in H by assumption.
      destruct (strptime (strip_uncertain s) fmt_Ybd) as [dt|e1] eqn:E1; [discriminate|].
      apply strptime_Raise in E1 as ->. simpl in H.
      destruct (strptime (strip_uncertain s) fmt_Yb) as [dt|e2] eqn:E2; [discriminate|].
      apply strptime_Raise in E2 as ->. auto.
    + intros (-> & Hs & E1 & E2). rewrite read_date_parse by assumption.
      rewrite E1. simpl. now rewrite E2.
  - intros clock rows row col s Hall Hin Hcol Hs Hbad. unfold main.
    now rewrite (read_csv_bad_field rows row col s).
Qed.

Lemma read_date_raises_on_malformed_witness :
  read_date "20/01/2020" = Raise ValueError
  /\ main noon_2022 [sample_row "20/01/2020"] = Raise ValueError.
Proof.
  assert (Hbad : read_date "20/01/2020" = Raise ValueError).
  { apply (proj1 (proj2 (proj2 read_date_raises_on_malformed)) "20/01/2020" ValueError).
    repeat split. intros [H|[H|H]]; discriminate. }
  split; [exact Hbad|].
  apply (proj2 (proj2 (proj2 read_date_raises_on_malformed)) noon_2022
           [sample_row "20/01/2020"] (sample_row "20/01/2020")
           "Reentry Date" "20/01/2020").
  - constructor; [apply sample_row_columns | constructor].
  - apply list_elem_of_here.
  - unfold date_columns. set_solver.
  - apply sample_row_reentry.
  - exact Hbad.
Defined.

(** C6: a year and an abbreviated month name, with or without a trailing
    question mark, parse to the first day of that month; the day-precision
    format wins whenever it parses, and the month-precision format decides
    only when the day-precision parse has raised. *)
Theorem read_date_month_precision :
  (forall y m, 1 <= y <= 9999 -> 1 <= m <= 12 ->
     read_date (format_Yb y m) = Ok (VDate (date y m 1))
     /\ read_date (format_Yb y m +:+ "?") = Ok (VDate (date y m 1)))
  /\ (forall s dt, ~ is_sentinel s ->
        strptime (strip_uncertain s) fmt_Ybd = Ok dt -> read_date s = Ok (VDate dt))
  /\ (forall s, ~ is_sentinel s ->
        strptime (strip_uncertain s) fmt_Ybd = Raise ValueError ->
        read_date s = (dt <- strptime (strip_uncertain s) fmt_Yb; Ok (VDate dt))).
Proof.
  split; [|split].
  - intros y m Hy Hm. destruct (strptime_format_Yb y m Hy Hm) as [E1 E2]. split.
    + rewrite read_date_parse by apply pad4_app_not_sentinel.
      rewrite strip_uncertain_id by now apply format_Yb_last.
      rewrite E2. simpl. now rewrite E1.
    + rewrite read_date_parse.
      * rewrite strip_uncertain_question. rewrite E2. simpl. now rewrite E1.
      * unfold format_Yb, pad4. rewrite !append_String. intros [H|[H|H]]; discriminate.
  - intros s dt Hs E. rewrite read_date_parse by assumption. now rewrite E.
  - intros s Hs E. rewrite read_date_parse by assumption. now rewrite E.
Qed.

Lemma read_date_month_precision_witness :
  read_date "1998 Nov" = Ok (VDate (date 1998 11 1))
  /\ read_date "1998 Nov?" = Ok (VDate (date 1998 11 1)).
Proof. apply (proj1 read_date_month_precision 1998 11); lia. Defined.

(** ** increment_month *)

Lemma check_time_fields_midnight : check_time_fields 0 0 0 0 = true.
Proof. reflexivity. Qed.

Lemma increment_month_next (cur : datetime) :
  first_of_month cur -> (month cur = 12 -> year cur < 9999) ->
  increment_month cur = Ok (next_month cur) /\ first_of_month (next_month cur).
Proof.
  intros [[Hd Ht] H1] Hy. rewrite H1 in Hd.
  apply check_date_fields_range in Hd as (Hyr & Hm & _).
  assert (Hd' : check_date_fields (year (next_month cur)) (month (next_month cur)) 1 = true).
  { simpl. apply check_date_fields_first; destruct (Z.eqb_spec (month cur) 12); lia. }
  split.
  - unfold increment_month, replace, next_month, datetime_new in *. simpl in *.
    rewrite H1. destruct (Z.eqb_spec (month cur) 12); simpl; rewrite Hd', Ht; reflexivity.
  - unfold first_of_month, valid_datetime. simpl. rewrite H1. auto.
Qed.

(** C7, as it is stated, fails on the last December of the calendar: there
    is no year 10000, and [replace] raises. *)
Lemma increment_month_december_9999 :
  increment_month (date 9999 12 1) = Raise ValueError
  /\ increment_month (date 9999 12 1) <> Ok (date (9999 + 1) 1 1).
Proof. split; [reflexivity | discriminate]. Qed.

(** C7, amended: on the first of a month, [increment_month] takes December
    of a year Y below 9999 to January of Y+1, and any month M below 12 of a
    year Y to the month M+1 of Y. *)
Theorem increment_month_year_boundary (y m : Z) :
  1 <= y <= 9999 -> 1 <= m <= 12 ->
  (m = 12 -> y < 9999 -> increment_month (date y m 1) = Ok (date (y + 1) 1 1))
  /\ (m < 12 -> increment_month (date y m 1) = Ok (date y (m + 1) 1)).
Proof.
  intros Hy Hm.
  assert (Hf : first_of_month (date y m 1)).
  { repeat split. simpl. now apply check_date_fields_first. }
  split.
  - intros -> Hlt. now destruct (increment_month_next _ Hf) as [-> _].
  - intros Hlt. destruct (increment_month_next _ Hf) as [-> _]; [simpl; lia|].
    unfold next_month, date. simpl. destruct (Z.eqb_spec m 12); [lia | reflexivity].
Qed.

Lemma increment_month_year_boundary_witness :
  increment_month (date 2018 12 1) = Ok (date 2019 1 1)
  /\ increment_month (date 2022 1 1) = Ok (date 2022 2 1).
Proof.
  split.
  - apply (proj1 (increment_month_year_boundary 2018 12 ltac:(lia) ltac:(lia))); lia.
  - apply (proj2 (increment_month_year_boundary 2022 1 ltac:(lia) ltac:(lia))); lia.
Defined.

(** ** The inner loop returns *)

Lemma increment_month_months_left (cur nxt : datetime) :
  increment_month cur = Ok nxt -> (months_left nxt < months_left cur)%nat.
Proof.
  intros H. apply increment_month_Ok in H as [-> Hv]. simpl in Hv.
  apply check_date_fields_range in Hv as (Hy & Hm & _).
  unfold months_left, MAXYEAR. simpl.
  destruct (Z.eqb_spec (month cur) 12); lia.
Qed.

Section Loops.
Variable clock : nat -> datetime.

Lemma flush_month_cur (st st' : globals) (tick : nat) :
  flush_month st tick = Ok st' -> increment_month (cur_date st) = Ok (cur_date st').
Proof.
  unfold flush_month. destruct (increment_month (cur_date st)); simpl; [|discriminate].
  now intros [= <-].
Qed.

Lemma while_past_month_end_fuel (n : nat) :
  forall (m : nat) (l : launch) (st : globals),
    (months_left (cur_date st) < n)%nat -> (months_left (cur_date st) < m)%nat ->
    while_past_month_end clock n l st = while_past_month_end clock m l st
    /\ while_past_month_end clock n l st <> None.
Proof.
  induction n as [|n IH]; intros m l st Hn Hm; [lia|].
  destruct m as [|m]; [lia|]. simpl.
  destruct (past_month_end clock l st) as [[[] tick]|e]; [|split; congruence..].
  destruct (flush_month st tick) as [st'|e] eqn:E; [|split; congruence].
  apply flush_month_cur, increment_month_months_left in E.
  apply IH; lia.
Qed.

(** Enough fuel gives the result of [flush_months]. *)
Lemma while_past_month_end_enough (fuel : nat) (l : launch) (st : globals) :
  (months_left (cur_date st) < fuel)%nat ->
  while_past_month_end clock fuel l st = Some (flush_months clock l st).
Proof.
  intros Hf. unfold flush_months.
  destruct (while_past_month_end_fuel (S (months_left (cur_date st))) fuel l st)
    as [E Hsome]; [lia..|].
  rewrite <- E. destruct (while_past_month_end clock _ l st); congruence.
Qed.

(** The equation of the while loop. *)
Lemma flush_months_eq (l : launch) (st : globals) :
  flush_months clock l st =
    match past_month_end clock l st with
    | Raise e => Raise e
    | Ok (false, tick) =>
        Ok {| cur_date := cur_date st; monthly_totals := monthly_totals st;
              cur_month_total := cur_month_total st; ticks := tick |}
    | Ok (true, tick) => st' <- flush_month st tick; flush_months clock l st'
    end.
Proof.
  unfold flush_months at 1. simpl.
  destruct (past_month_end clock l st) as [[[] tick]|e]; try reflexivity.
  destruct (flush_month st tick) as [st'|e] eqn:E; simpl; [|reflexivity].
  apply flush_month_cur, increment_month_months_left in E.
  rewrite while_past_month_end_enough by lia. reflexivity.
Qed.

(** Induction along the iterations of the while loop. *)
Lemma flush_months_ind (l : launch) (P : globals -> result globals -> Prop) :
  (forall st e, past_month_end clock l st = Raise e -> P st (Raise e)) ->
  (forall st tick, past_month_end clock l st = Ok (false, tick) ->
     P st (Ok {| cur_date := cur_date st; monthly_totals := monthly_totals st;
                 cur_month_total := cur_month_total st; ticks := tick |})) ->
  (forall st tick e, past_month_end clock l st = Ok (true, tick) ->
     flush_month st tick = Raise e -> P st (Raise e)) ->
  (forall st tick st', past_month_end clock l st = Ok (true, tick) ->
     flush_month st tick = Ok st' -> P st' (flush_months clock l st') ->
     P st (flush_months clock l st')) ->
  forall st, P st (flush_months clock l st).
Proof.
  intros Hraise Hstop Hflush Hstep st.
  remember (months_left (cur_date st)) as n eqn:En.
  revert st En. induction n as [n IH] using lt_wf_ind. intros st ->.
  rewrite flush_months_eq.
  destruct (past_month_end clock l st) as [[[] tick]|e] eqn:Et; [|auto..].
  destruct (flush_month st tick) as [st'|e] eqn:Ef; simpl; [|eauto].
  eapply Hstep; eauto. eapply IH; [|reflexivity].
  now apply flush_month_cur, increment_month_months_left in Ef.
Qed.
End Loops.

(** ** The rows of monthly.csv *)

Lemma replace_day_first (v : pyval) (cur : datetime) :
  py_replace_day v 1 = Ok cur ->
  exists dt, v = VDate dt /\ cur = month_start dt /\ first_of_month cur.
Proof.
  destruct v as [dt|s]; simpl; [|discriminate]. unfold replace. simpl.
  intros H. apply datetime_new_Ok in H as (-> & H1 & H2).
  exists dt. repeat split; assumption.
Qed.

Lemma increment_month_first (cur nxt : datetime) :
  first_of_month cur -> increment_month cur = Ok nxt ->
  nxt = next_month cur /\ first_of_month nxt.
Proof.
  intros [[_ Ht] H1] H. apply increment_month_Ok in H as [E Hv].
  split; [exact E|]. subst nxt. repeat split; simpl in *; assumption.
Qed.

Lemma strftime_first (cur : datetime) :
  first_of_month cur ->
  1 <= year cur <= 9999 /\ 1 <= month cur <= 12
  /\ strftime_dmY cur = "01/" +:+ pad2 (month cur) +:+ "/" +:+ pad4 (year cur).
Proof.
  intros [[Hd _] H1]. apply check_date_fields_range in Hd as (Hy & Hm & _).
  unfold strftime_dmY. rewrite H1. auto.
Qed.

Section Rows.
Variable clock : nat -> datetime.

Lemma flush_month_inv (st st' : globals) (tick : nat) :
  totals_inv st -> flush_month st tick = Ok st' -> totals_inv st'.
Proof.
  intros (Hc & Ht & Hb) H. unfold flush_month in H.
  destruct (increment_month (cur_date st)) as [nxt|] eqn:E; [|discriminate].
  injection H as <-. apply increment_month_first in E as [_ Hn]; [|assumption].
  repeat split; simpl; try apply Hn; [lia|].
  apply Forall_app. split; [assumption|]. constructor; [|constructor].
  destruct (strftime_first _ Hc) as (Hy & Hm & Es).
  exists (year (cur_date st)), (month (cur_date st)). simpl.
  unfold AL_CONST. auto.
Qed.

Lemma flush_months_inv (l : launch) (st st' : globals) :
  totals_inv st -> flush_months clock l st = Ok st' -> totals_inv st'.
Proof.
  revert st'. pattern st, (flush_months clock l st).
  apply flush_months_ind; clear st.
  - discriminate.
  - intros st tick _ st' Hi [= <-]. exact Hi.
  - discriminate.
  - intros st tick st1 _ Hf IH st' Hi. apply IH. eapply flush_month_inv; eauto.
Qed.

Lemma for_launches_inv (ls : list launch) :
  forall st st', totals_inv st -> for_launches clock ls st = Ok st' -> totals_inv st'.
Proof.
  induction ls as [|l ls IH]; intros st st' Hi; simpl.
  - now intros [= <-].
  - destruct (getitem l "Reentry Date") as [v|]; simpl; [|discriminate].
    destruct (py_eqb v (VStr "-")); [now intros [= <-]|].
    destruct (flush_months clock l st) as [st1|] eqn:E; simpl; [|discriminate].
    apply IH. apply flush_months_inv in E as (Hc & Ht & Hb); [|assumption].
    repeat split; simpl; try apply Hc; [lia | assumption].
Qed.

Lemma aggregate_inv (parsed : list launch) (st : globals) :
  aggregate clock parsed = Ok st -> totals_inv st.
Proof.
  unfold aggregate. intros H.
  apply bind_Ok in H as ([launches tick] & _ & H).
  apply bind_Ok in H as (first & _ & H).
  apply bind_Ok in H as ([v tick'] & _ & H).
  apply bind_Ok in H as (cur & Hcur & H).
  apply for_launches_inv in H; [assumption|].
  apply replace_day_first in Hcur as (dt & _ & _ & Hf).
  repeat split; simpl; try apply Hf; [lia | constructor].
Qed.
End Rows.



(** ** sorted *)

Lemma lex_compare_antisym (a b : list Z) :
  lex_compare b a = CompOpp (lex_compare a b).
Proof.
  revert b. induction a as [|x a IH]; intros [|y b]; simpl; try reflexivity.
  rewrite (Z.compare_antisym x y). destruct (x ?= y); simpl; auto.
Qed.

Lemma dt_ltb_asym (a b : datetime) : dt_ltb a b = true -> dt_ltb b a = false.
Proof.
  unfold dt_ltb, dt_compare. rewrite (lex_compare_antisym (dt_fields a)).
  destruct (lex_compare _ _); simpl; congruence.
Qed.

Lemma string_ltb_asym (a b : string) : String.ltb a b = true -> String.ltb b a = false.
Proof.
  unfold String.ltb. rewrite (String.compare_antisym b a).
  destruct (String.compare a b); simpl; congruence.
Qed.

Lemma py_lt_asym (a b : pyval) : py_lt a b = Ok true -> py_lt b a = Ok false.
Proof.
  destruct a, b; simpl; try discriminate; intros [= H]; f_equal.
  - now apply dt_ltb_asym.
  - now apply string_ltb_asym.
Qed.

Lemma py_lt_same (a b : pyval) :
  key_kind a = key_kind b -> exists c, py_lt a b = Ok c.
Proof. destruct a, b; simpl; try discriminate; eauto. Qed.

Lemma py_lt_Ok (a b : pyval) (c : bool) :
  py_lt a b = Ok c -> key_kind a = key_kind b.
Proof. destruct a, b; simpl; try discriminate; reflexivity. Qed.

Lemma py_lt_Raise (a b : pyval) (e : exn) :
  py_lt a b = Raise e -> e = TypeError /\ key_kind a <> key_kind b.
Proof. destruct a, b; simpl; try discriminate; intros [= <-]; auto. Qed.

Lemma py_lt_diff (a b : pyval) :
  key_kind a <> key_kind b -> py_lt a b = Raise TypeError.
Proof. destruct a, b; simpl; congruence. Qed.

Section Sorted.
Variable clock : nat -> datetime.

Lemma insert_keyed_Ok (x : pyval * launch) (l r : list (pyval * launch)) :
  insert_keyed x l = Ok r ->
  r ≡ₚ x :: l
  /\ match l with [] => True | y :: _ => key_kind (fst y) = key_kind (fst x) end.
Proof.
  revert r. induction l as [|y l IH]; intros r; simpl.
  - intros [= <-]. auto.
  - destruct (py_lt (fst y) (fst x)) as [[]|] eqn:E; simpl; [| |discriminate].
    + destruct (insert_keyed x l) as [r'|]; simpl; [|discriminate].
      intros [= <-]. destruct (IH r' eq_refl) as [Hp _].
      split; [|eapply py_lt_Ok; eauto]. rewrite Hp. apply perm_swap.
    + intros [= <-]. split; [reflexivity | eapply py_lt_Ok; eauto].
Qed.

Lemma insert_keyed_Raise (x : pyval * launch) (l : list (pyval * launch)) (e : exn) :
  insert_keyed x l = Raise e -> e = TypeError.
Proof.
  induction l as [|y l IH]; simpl; [discriminate|].
  destruct (py_lt (fst y) (fst x)) as [[]|] eqn:E; simpl.
  - destruct (insert_keyed x l); simpl; [discriminate | intros [= <-]; auto].
  - discriminate.
  - intros [= <-]. now apply py_lt_Raise in E.
Qed.

Lemma insert_keyed_same_kind (x : pyval * launch) (l : list (pyval * launch)) :
  Forall (fun y => key_kind (fst y) = key_kind (fst x)) l ->
  exists r, insert_keyed x l = Ok r.
Proof.
  induction 1 as [|y l Hy _ IH]; simpl; [eauto|].
  destruct (py_lt_same _ _ Hy) as [[] ->]; simpl; [|eauto].
  destruct IH as [r ->]. simpl. eauto.
Qed.

Lemma sort_keyed_Ok (l s : list (pyval * launch)) :
  sort_keyed l = Ok s ->
  s ≡ₚ l /\ exists k, Forall (fun y => key_kind (fst y) = k) l.
Proof.
  revert s. induction l as [|x l IH]; intros s; simpl.
  - intros [= <-]. split; [reflexivity | exists true; constructor].
  - intros H. apply bind_Ok in H as (s' & Hs' & H).
    destruct (IH s' Hs') as [Hp [k Hk]].
    apply insert_keyed_Ok in H as [Hq Hhd]. split; [now rewrite Hq, Hp|].
    exists (key_kind (fst x)). constructor; [reflexivity|].
    destruct s' as [|y s'].
    { apply Permutation_nil_l in Hp. subst l. constructor. }
    assert (Hy : key_kind (fst y) = k).
    { rewrite <- Hp in Hk. now apply Forall_cons_1 in Hk as [? _]. }
    eapply Forall_impl; [exact Hk|]. simpl. intros z Hz. congruence.
Qed.

Lemma sort_keyed_Raise (l : list (pyval * launch)) (e : exn) :
  sort_keyed l = Raise e -> e = TypeError.
Proof.
  induction l as [|x l IH]; simpl; [discriminate|].
  intros H. apply bind_Raise in H as [H|(s & _ & H)]; [auto|].
  now apply insert_keyed_Raise in H.
Qed.

Lemma sort_keyed_same_kind (k : bool) (l : list (pyval * launch)) :
  Forall (fun y => key_kind (fst y) = k) l -> exists s, sort_keyed l = Ok s.
Proof.
  induction 1 as [|x l Hx Hl [s Hs]]; simpl; [eauto|].
  rewrite Hs. simpl. apply insert_keyed_same_kind.
  apply sort_keyed_Ok in Hs as [Hp _]. rewrite Hp.
  eapply Forall_impl; [exact Hl|]. simpl. congruence.
Qed.

(** Keys of both types make the sort raise. *)
Lemma sort_keyed_mixed (l : list (pyval * launch)) (x y : pyval * launch) :
  x ∈ l -> y ∈ l -> key_kind (fst x) <> key_kind (fst y) ->
  sort_keyed l = Raise TypeError.
Proof.
  intros Hx Hy Hxy. destruct (sort_keyed l) as [s|e] eqn:E.
  - apply sort_keyed_Ok in E as [_ [k Hk]].
    rewrite Forall_forall in Hk. destruct Hxy.
    now rewrite (Hk x Hx), (Hk y Hy).
  - now apply sort_keyed_Raise in E as ->.
Qed.

(** The sort leaves the keys in non-decreasing order. *)
Lemma insert_keyed_sorted (x : pyval * launch) (l r : list (pyval * launch)) :
  Sorted key_le l -> insert_keyed x l = Ok r -> Sorted key_le r.
Proof.
  revert r. induction l as [|y l IH]; intros r Hs; simpl.
  - intros [= <-]. repeat constructor.
  - destruct (py_lt (fst y) (fst x)) as [[]|] eqn:E; simpl; [| |discriminate].
    + destruct (insert_keyed x l) as [r'|] eqn:Er; simpl; [|discriminate].
      intros [= <-]. apply Sorted_inv in Hs as [Hs Hhd].
      constructor; [now apply IH|].
      destruct l as [|z l]; simpl in Er.
      * injection Er as <-. constructor. now apply py_lt_asym.
      * destruct (py_lt (fst z) (fst x)) as [[]|]; simpl in Er; [| |discriminate].
        -- destruct (insert_keyed x l); simpl in Er; [|discriminate].
           injection Er as <-. constructor. now apply HdRel_inv in Hhd.
        -- injection Er as <-. constructor. now apply py_lt_asym.
    + intros [= <-]. constructor; [assumption|]. constructor. exact E.
Qed.

Lemma sort_keyed_sorted (l s : list (pyval * launch)) :
  sort_keyed l = Ok s -> Sorted key_le s.
Proof.
  revert s. induction l as [|x l IH]; intros s; simpl.
  - intros [= <-]. constructor.
  - intros H. apply bind_Ok in H as (s' & Hs' & H).
    apply (insert_keyed_sorted x s'); [apply IH|]; assumption.
Qed.
End Sorted.

(** ** reentry_date and the keys of the sort *)

Section Keys.
Variable clock : nat -> datetime.

Lemma reentry_date_date (l : launch) (d : datetime) (tick : nat) :
  l !! "Reentry Date" = Some (VDate d) ->
  reentry_date clock l tick = Ok (VDate d, tick).
Proof. intros H. unfold reentry_date, getitem. rewrite H. reflexivity. Qed.

Lemma reentry_date_in_orbit (l : launch) (tick : nat) :
  l !! "Reentry Date" = Some (VStr "-") ->
  reentry_date clock l tick = Ok (VDate (clock tick), S tick).
Proof. intros H. unfold reentry_date, getitem. rewrite H. reflexivity. Qed.

Lemma reentry_date_str (l : launch) (s : string) (tick : nat) :
  l !! "Reentry Date" = Some (VStr s) -> s <> "-" ->
  reentry_date clock l tick = Ok (VStr s, tick).
Proof.
  intros H Hs. unfold reentry_date, getitem. rewrite H. simpl.
  now destruct (String.eqb_spec s "-").
Qed.

Lemma reentry_date_Ok (l : launch) (tick tick' : nat) (k : pyval) :
  reentry_date clock l tick = Ok (k, tick') ->
  key_kind k = negb (key_is_str l).
Proof.
  unfold reentry_date, getitem, key_is_str.
  destruct (l !! "Reentry Date") as [[d|s]|]; simpl; [| |discriminate].
  - now intros [= <- _].
  - destruct (String.eqb s "-"); now intros [= <- _].
Qed.

Lemma reentry_date_Raise (l : launch) (tick : nat) (e : exn) :
  reentry_date clock l tick = Raise e -> e = KeyError /\ l !! "Reentry Date" = None.
Proof.
  unfold reentry_date, getitem.
  destruct (l !! "Reentry Date") as [v|]; simpl; [|now intros [= <-]].
  destruct (py_eqb v (VStr "-")); discriminate.
Qed.

Lemma keys_of_Ok (ls : list launch) :
  forall tick keyed tick',
    keys_of clock ls tick = Ok (keyed, tick') ->
    map snd keyed = ls
    /\ Forall (fun p => key_kind (fst p) = negb (key_is_str (snd p))) keyed.
Proof.
  induction ls as [|l ls IH]; intros tick keyed tick'; simpl.
  - intros [= <- _]. auto.
  - intros H. apply bind_Ok in H as ([k t1] & Hk & H).
    apply bind_Ok in H as ([ks t2] & Hks & H). injection H as <- _.
    destruct (IH _ _ _ Hks) as [E Hf]. simpl. split; [now rewrite E|].
    constructor; [|assumption]. simpl. eapply reentry_date_Ok; eauto.
Qed.

Lemma keys_of_Raise (ls : list launch) :
  forall tick e, keys_of clock ls tick = Raise e -> e = KeyError.
Proof.
  induction ls as [|l ls IH]; intros tick e; simpl; [discriminate|].
  intros H. apply bind_Raise in H as [H|([k t1] & _ & H)].
  - now apply reentry_date_Raise in H.
  - apply bind_Raise in H as [H|([ks t2] & _ & H)]; [eauto | discriminate].
Qed.

Lemma keys_of_Some (ls : list launch) :
  Forall (fun l => is_Some (l !! "Reentry Date")) ls ->
  forall tick, exists keyed tick', keys_of clock ls tick = Ok (keyed, tick').
Proof.
  induction 1 as [|l ls [v Hv] _ IH]; intros tick; simpl; [eauto|].
  destruct (reentry_date clock l tick) as [[k t1]|e] eqn:E.
  - simpl. destruct (IH t1) as (ks & t2 & ->). simpl. eauto.
  - apply reentry_date_Raise in E as [_ E]. congruence.
Qed.

Lemma sorted_by_reentry_Ok (ls launches : list launch) (tick tick' : nat) :
  sorted_by_reentry clock ls tick = Ok (launches, tick') ->
  launches ≡ₚ ls /\ exists b, Forall (fun l => key_is_str l = b) ls.
Proof.
  unfold sorted_by_reentry. intros H.
  apply bind_Ok in H as ([keyed t1] & Hk & H).
  apply bind_Ok in H as (s & Hs & H). injection H as <- _.
  apply keys_of_Ok in Hk as [<- Hf].
  apply sort_keyed_Ok in Hs as [Hp [k Hk]].
  split; [now rewrite Hp|]. exists (negb k).
  apply Forall_fmap. rewrite Forall_forall in *. intros p Hp'. simpl.
  rewrite <- (Hk p Hp'), (Hf p Hp'). now destruct (key_is_str (snd p)).
Qed.

Lemma sorted_by_reentry_Raise (ls : list launch) (tick : nat) (e : exn) :
  sorted_by_reentry clock ls tick = Raise e -> e = KeyError \/ e = TypeError.
Proof.
  unfold sorted_by_reentry. intros H.
  apply bind_Raise in H as [H|([keyed t1] & _ & H)].
  - left. eapply keys_of_Raise; eauto.
  - apply bind_Raise in H as [H|(s & _ & H)]; [|discriminate].
    right. eapply sort_keyed_Raise; eauto.
Qed.
End Keys.

(** ** What read_csv returns *)

Lemma read_date_Ok (s : string) (v : pyval) :
  read_date s = Ok v ->
  match v with
  | VDate dt => valid_datetime dt /\ midnight dt
  | VStr t => t = "-" \/ t = "*"
  end.
Proof.
  unfold read_date.
  destruct (String.eqb_spec s ""); [intros [= <-]; auto|].
  destruct (String.eqb_spec s "*"); [intros [= <-]; auto|].
  destruct (String.eqb_spec s "-"); [intros [= <-]; auto|]. simpl.
  intros H. apply bind_Ok in H as (dt & H & [= <-]).
  assert (Hany : exists fmt, strptime (strip_uncertain s) fmt = Ok dt).
  { destruct (strptime (strip_uncertain s) fmt_Ybd) as [d|e] eqn:E; simpl in H.
    - injection H as <-. eauto.
    - destruct (decide (e = ValueError)); [eauto | discriminate]. }
  destruct Hany as [fmt Hfmt]. split; [eapply strptime_Ok; eauto|].
  unfold strptime in Hfmt. destruct (re_match _ _ _) as [[f rest]|]; [|discriminate].
  destruct (String.eqb rest ""); [|discriminate].
  apply datetime_new_Ok in Hfmt as (-> & _ & _). repeat split.
Qed.

Lemma read_row_well_read (row : csv_row) (l : launch) :
  read_row row = Ok l -> well_read l.
Proof.
  intros H. apply read_row_Ok_reentry in H as (s & v & _ & Hv & Hl).
  exists v. split; [assumption|]. now apply read_date_Ok in Hv.
Qed.

Lemma read_csv_Ok (rows : list csv_row) :
  forall parsed, read_csv rows = Ok parsed -> Forall2 (fun row l => read_row row = Ok l) rows parsed.
Proof.
  induction rows as [|row rows IH]; intros parsed; simpl.
  - intros [= <-]. constructor.
  - intros H. apply bind_Ok in H as (l & Hl & H).
    apply bind_Ok in H as (ls & Hls & H). injection H as <-.
    constructor; auto.
Qed.

Lemma read_csv_well_read (rows : list csv_row) (parsed : list launch) :
  read_csv rows = Ok parsed -> Forall well_read parsed.
Proof.
  intros H. apply read_csv_Ok in H.
  induction H as [|row l rows parsed Hl _ IH]; constructor; [|assumption].
  eapply read_row_well_read; eauto.
Qed.

Lemma read_csv_Raise (rows : list csv_row) (e : exn) :
  read_csv rows = Raise e -> e = ValueError \/ e = KeyError.
Proof.
  induction rows as [|row rows IH]; simpl; [discriminate|].
  intros H. apply bind_Raise in H as [H|(l & _ & H)].
  - unfold read_row in H.
    repeat match type of H with
           | bind ?c _ = Raise _ =>
               apply bind_Raise in H as [H|(? & _ & H)];
               [first [apply read_date_Raise in H; auto
                      | unfold getitem in H; destruct (_ !! _); [discriminate|];
                        injection H as <-; auto]|]
           end.
    discriminate.
  - apply bind_Raise in H as [H|(ls & _ & H)]; [auto | discriminate].
Qed.

Lemma well_read_key (l : launch) : well_read l -> is_Some (l !! "Reentry Date").
Proof. intros (v & Hv & _). eauto. Qed.

(** ** The exceptions of the aggregation *)

Section Exceptions.
Variable clock : nat -> datetime.

Lemma past_month_end_Raise (l : launch) (st : globals) (e : exn) :
  past_month_end clock l st = Raise e -> e <> IndexError.
Proof.
  unfold past_month_end. intros H.
  apply bind_Raise in H as [H|([k t] & _ & H)].
  { apply reentry_date_Raise in H as [-> _]. discriminate. }
  apply bind_Raise in H as [H|(nxt & _ & H)].
  { apply increment_month_Raise in H as ->. discriminate. }
  apply bind_Raise in H as [H|(b & _ & H)]; [|discriminate].
  destruct k; simpl in H; [discriminate|]. injection H as <-. discriminate.
Qed.

Lemma flush_month_Raise (st : globals) (tick : nat) (e : exn) :
  flush_month st tick = Raise e -> e = ValueError.
Proof.
  unfold flush_month. intros H.
  apply bind_Raise in H as [H|(nxt & _ & H)]; [|discriminate].
  now apply increment_month_Raise in H.
Qed.

Lemma flush_months_Raise (l : launch) (st : globals) (e : exn) :
  flush_months clock l st = Raise e -> e <> IndexError.
Proof.
  pattern st, (flush_months clock l st).
  apply flush_months_ind; clear st.
  - intros st e' H [= <-]. eapply past_month_end_Raise; eauto.
  - discriminate.
  - intros st tick e' _ H [= <-]. apply flush_month_Raise in H as ->. discriminate.
  - auto.
Qed.

Lemma for_launches_Raise (ls : list launch) :
  forall st e, for_launches clock ls st = Raise e -> e <> IndexError.
Proof.
  induction ls as [|l ls IH]; intros st e; simpl; [discriminate|].
  intros H. apply bind_Raise in H as [H|(v & _ & H)].
  { unfold getitem in H. destruct (_ !! _); [discriminate|].
    injection H as <-. discriminate. }
  destruct (py_eqb v (VStr "-")); [discriminate|].
  apply bind_Raise in H as [H|(st1 & _ & H)]; [|eauto].
  eapply flush_months_Raise; eauto.
Qed.

Lemma py_replace_day_Raise (v : pyval) (d : Z) (e : exn) :
  py_replace_day v d = Raise e -> e <> IndexError.
Proof.
  destruct v; simpl; [|intros [= <-]; discriminate].
  intros H. apply datetime_new_Raise in H as ->. discriminate.
Qed.

(** Only the first-element access raises IndexError, and only on the empty
    list. *)
Lemma aggregate_IndexError (parsed : list launch) :
  aggregate clock parsed = Raise IndexError -> parsed = [].
Proof.
  unfold aggregate. intros H.
  apply bind_Raise in H as [H|([launches tick] & Hs & H)].
  { apply sorted_by_reentry_Raise in H as [H|H]; discriminate. }
  apply sorted_by_reentry_Ok in Hs as [Hp _].
  apply bind_Raise in H as [H|(first & _ & H)].
  { destruct launches; [|discriminate]. now apply Permutation_nil_l in Hp. }
  apply bind_Raise in H as [H|([v t] & _ & H)].
  { apply reentry_date_Raise in H as [H _]. discriminate. }
  apply bind_Raise in H as [H|(cur & _ & H)].
  { now apply py_replace_day_Raise in H. }
  now apply for_launches_Raise in H.
Qed.
End Exceptions.

(** C9: with no record at all, the script fails at the access to the first
    element of the sorted list, before the loop and before any output; on a
    list that is not empty this access succeeds, and the script never raises
    IndexError. *)
Theorem empty_input_index_error :
  (forall clock,
     sorted_by_reentry clock [] O = Ok ([], O)
     /\ list_getitem0 (@nil launch) = Raise IndexError
     /\ aggregate clock [] = Raise IndexError
     /\ main clock [] = Raise IndexError)
  /\ (forall clock parsed launches tick,
        parsed <> [] -> sorted_by_reentry clock parsed O = Ok (launches, tick) ->
        exists first, list_getitem0 launches = Ok first)
  /\ (forall clock rows, rows <> [] -> main clock rows <> Raise IndexError).
Proof.
  split; [|split].
  - intros clock. repeat split.
  - intros clock parsed launches tick Hne Hs.
    apply sorted_by_reentry_Ok in Hs as [Hp _].
    destruct launches as [|first launches]; [|simpl; eauto].
    apply Permutation_nil_l in Hp. congruence.
  - intros clock rows Hne H. unfold main in H.
    apply bind_Raise in H as [H|(parsed & Hp & H)].
    { apply read_csv_Raise in H as [H|H]; discriminate. }
    apply bind_Raise in H as [H|(st & _ & H)]; [|discriminate].
    apply aggregate_IndexError in H. subst parsed.
    apply read_csv_Ok in Hp. inversion Hp. congruence.
Qed.

Lemma empty_input_index_error_witness :
  exists first,
    list_getitem0 [({[ "Reentry Date" := VStr "-" ]} : launch)] = Ok first.
Proof.
  apply (proj1 (proj2 empty_input_index_error) (fun _ => date 2022 3 15)
           [({[ "Reentry Date" := VStr "-" ]} : launch)] _ 1%nat).
  - discriminate.
  - vm_compute. reflexivity.
Defined.

(** ** The wildcard in the reentry column *)

Section Wildcard.
Variable clock : nat -> datetime.

Lemma aggregate_wildcard (parsed : list launch) (l : launch) :
  Forall well_read parsed -> l ∈ parsed ->
  l !! "Reentry Date" = Some (VStr "*") ->
  aggregate clock parsed = Raise TypeError
  /\ (sorted_by_reentry clock parsed O = Raise TypeError
      \/ exists launches tick first,
           sorted_by_reentry clock parsed O = Ok (launches, tick)
           /\ list_getitem0 launches = Ok first
           /\ reentry_date clock first tick = Ok (VStr "*", tick)
           /\ py_replace_day (VStr "*") 1 = Raise TypeError).
Proof.
  intros Hwr Hin Hl. unfold aggregate.
  destruct (sorted_by_reentry clock parsed O) as [[launches tick]|e] eqn:Es.
  - pose proof (sorted_by_reentry_Ok _ _ _ _ _ Es) as [Hp [b Hb]].
    rewrite Forall_forall in Hb, Hwr.
    assert (Hbt : b = true).
    { rewrite <- (Hb l Hin). unfold key_is_str. now rewrite Hl. }
    subst b. destruct launches as [|first launches].
    { apply Permutation_nil_l in Hp. subst parsed. now apply not_elem_of_nil in Hin. }
    assert (Hf : first ∈ parsed) by (rewrite <- Hp; apply list_elem_of_here).
    assert (Hstar : first !! "Reentry Date" = Some (VStr "*")).
    { destruct (Hwr first Hf) as (v & Hv & Hm). specialize (Hb first Hf).
      unfold key_is_str in Hb. rewrite Hv in Hb.
      destruct v as [d|s]; [discriminate|].
      destruct Hm as [-> | ->]; [discriminate | assumption]. }
    assert (Hk : reentry_date clock first tick = Ok (VStr "*", tick)).
    { apply reentry_date_str; [assumption | discriminate]. }
    simpl. rewrite Hk. simpl. split; [reflexivity|].
    right. exists (first :: launches), tick, first. auto.
  - assert (He : e = TypeError).
    { unfold sorted_by_reentry in Es.
      apply bind_Raise in Es as [Es|([keyed t1] & _ & Es)].
      - destruct (keys_of_Some clock parsed) with (tick := O) as (ks & t & Hks).
        + eapply Forall_impl; [exact Hwr|]. apply well_read_key.
        + congruence.
      - apply bind_Raise in Es as [Es|(s & _ & Es)]; [|discriminate].
        eapply sort_keyed_Raise; eauto. }
    subst e. simpl. auto.
Qed.
End Wildcard.

(** C10: the wildcard does not survive in the reentry column.  [reentry_date]
    returns the string ["*"] as it is, and an input whose rows parse and one
    of which has ["*"] as reentry date makes the script raise TypeError
    before anything is written: in the sort, or else when the first launch of
    the sorted list anchors the starting month. *)
Theorem wildcard_reentry_type_error :
  (forall clock l tick,
     l !! "Reentry Date" = Some (VStr "*") ->
     reentry_date clock l tick = Ok (VStr "*", tick))
  /\ (forall clock rows parsed row,
        read_csv rows = Ok parsed -> row ∈ rows ->
        row !! "Reentry Date" = Some "*" ->
        main clock rows = Raise TypeError
        /\ aggregate clock parsed = Raise TypeError
        /\ (sorted_by_reentry clock parsed O = Raise TypeError
            \/ exists launches tick first,
                 sorted_by_reentry clock parsed O = Ok (launches, tick)
                 /\ list_getitem0 launches = Ok first
                 /\ reentry_date clock first tick = Ok (VStr "*", tick)
                 /\ py_replace_day (VStr "*") 1 = Raise TypeError)).
Proof.
  split.
  - intros clock l tick H. apply reentry_date_str; [assumption | discriminate].
  - intros clock rows parsed row Hp Hin Hrow.
    pose proof (read_csv_well_read _ _ Hp) as Hwr.
    assert (Hl : exists l, l ∈ parsed /\ l !! "Reentry Date" = Some (VStr "*")).
    { apply read_csv_Ok in Hp. clear Hwr.
      induction Hp as [|r l rows parsed Hr _ IH]; [now apply not_elem_of_nil in Hin|].
      apply elem_of_cons in Hin as [E|Hin].
      - subst r. exists l. split; [apply list_elem_of_here|].
        apply read_row_Ok_reentry in Hr as (s & v & Hs & Hv & Hlv).
        rewrite Hrow in Hs. injection Hs as <-. injection Hv as <-. assumption.
      - destruct (IH Hin) as (l' & Hl' & E). exists l'. split; [|assumption].
        now apply list_elem_of_further. }
    destruct Hl as (l & Hl & Hstar).
    destruct (aggregate_wildcard clock parsed l Hwr Hl Hstar) as [Ha Hcase].
    split; [|split; assumption]. unfold main. rewrite Hp. simpl. now rewrite Ha.
Qed.

Lemma wildcard_reentry_type_error_witness :
  main noon_2022 [sample_row "*"; sample_row "2020 Jan 05"] = Raise TypeError.
Proof.
  apply (proj2 wildcard_reentry_type_error noon_2022
           [sample_row "*"; sample_row "2020 Jan 05"]
           [sample_launch "*" (VStr "*");
            sample_launch "2020 Jan 05" (VDate (date 2020 1 5))]
           (sample_row "*")).
  - cbn [read_csv].
    rewrite (read_sample_row "*" (VStr "*")) by reflexivity.
    rewrite (read_sample_row "2020 Jan 05" (VDate (date 2020 1 5))) by reflexivity.
    reflexivity.
  - apply list_elem_of_here.
  - apply sample_row_reentry.
Defined.

(** ** Dates and months *)

Lemma dt_geb_first_of_month (d c : datetime) :
  valid_datetime d -> midnight d -> first_of_month c -> midnight c ->
  dt_geb d c = (month_index c <=? month_index d).
Proof.
  destruct d as [y m dd h mi s us], c as [y' m' dd' h' mi' s' us'].
  unfold valid_datetime, midnight, first_of_month, month_index. simpl.
  intros [Hd _] (-> & -> & -> & ->) [[Hc _] ->] (-> & -> & -> & ->).
  apply check_date_fields_range in Hd, Hc. cbn [year month day] in Hd, Hc.
  unfold dt_geb, dt_ltb, dt_compare. simpl.
  destruct (Z.compare_spec y y'); destruct (Z.compare_spec m m');
    destruct (Z.compare_spec dd 1); cbn [negb]; symmetry;
    first [apply Z.leb_le; lia | apply Z.leb_gt; lia].
Qed.

Lemma dt_ltb_month_index (a b : datetime) :
  valid_datetime a -> valid_datetime b ->
  dt_ltb a b = false -> month_index b <= month_index a.
Proof.
  destruct a as [y m dd h mi s us], b as [y' m' dd' h' mi' s' us'].
  unfold valid_datetime, month_index. simpl. intros [Ha _] [Hb _].
  apply check_date_fields_range in Ha, Hb. cbn [year month day] in Ha, Hb.
  unfold dt_ltb, dt_compare. simpl.
  destruct (Z.compare_spec y y'); destruct (Z.compare_spec m m');
    try discriminate; intros _; lia.
Qed.

Lemma next_month_first (c : datetime) :
  first_of_month c -> midnight c -> month_index c < LAST_MONTH ->
  increment_month c = Ok (next_month c)
  /\ first_of_month (next_month c) /\ midnight (next_month c)
  /\ month_index (next_month c) = month_index c + 1.
Proof.
  intros Hf Hm Hlt.
  assert (Hr := Hf). destruct Hr as [[Hd _] _].
  apply check_date_fields_range in Hd as (Hy & Hmo & _).
  unfold LAST_MONTH, MAXYEAR, month_index in Hlt.
  destruct (increment_month_next c Hf) as [E Hn]; [lia|].
  repeat split; try assumption; try apply Hn; try apply Hm.
  unfold month_index, next_month. simpl. destruct (Z.eqb_spec (month c) 12); lia.
Qed.

Lemma increment_month_last (c : datetime) :
  first_of_month c -> month_index c = LAST_MONTH ->
  increment_month c = Raise ValueError.
Proof.
  intros [[Hd _] _] Hl. apply check_date_fields_range in Hd as (Hy & Hmo & _).
  unfold LAST_MONTH, MAXYEAR, month_index in Hl.
  assert (month c = 12) as Hm by lia. assert (year c = 9999) as Hyr by lia.
  unfold increment_month, replace, datetime_new. rewrite Hm, Hyr. reflexivity.
Qed.

Lemma add_months_S (k : nat) (c : datetime) :
  add_months (S k) c = add_months k (next_month c).
Proof. unfold add_months. now rewrite Nat.iter_succ_r. Qed.

Lemma add_months_first (k : nat) :
  forall c, first_of_month c -> midnight c ->
    month_index c + Z.of_nat k <= LAST_MONTH ->
    first_of_month (add_months k c) /\ midnight (add_months k c)
    /\ month_index (add_months k c) = month_index c + Z.of_nat k.
Proof.
  induction k as [|k IH]; intros c Hf Hm Hle.
  - simpl. repeat split; try apply Hf; try apply Hm. lia.
  - rewrite add_months_S.
    destruct (next_month_first c Hf Hm) as (_ & Hf' & Hm' & Hi); [lia|].
    destruct (IH (next_month c) Hf' Hm') as (H1 & H2 & H3); [lia|].
    repeat split; try apply H1; try apply H2. lia.
Qed.

Lemma month_index_range (d : datetime) :
  valid_datetime d -> 13 <= month_index d <= LAST_MONTH.
Proof.
  intros [Hd _]. apply check_date_fields_range in Hd.
  unfold month_index, LAST_MONTH, MAXYEAR. lia.
Qed.

(** A midnight first of month is determined by its month index. *)
Lemma first_of_month_month_start (c d : datetime) :
  first_of_month c -> midnight c -> valid_datetime d -> midnight d ->
  month_index c = month_index d -> c = month_start d.
Proof.
  destruct c as [y m dd h mi s us], d as [y' m' dd' h' mi' s' us'].
  unfold first_of_month, valid_datetime, midnight, month_index, month_start. simpl.
  intros [[Hc _] ->] (-> & -> & -> & ->) [Hd _] (-> & -> & -> & ->) E.
  apply check_date_fields_range in Hc, Hd. cbn [year month day] in Hc, Hd.
  assert (y = y') by lia. assert (m = m') by lia. now subst.
Qed.

Lemma zero_buckets_S (k : nat) (c : datetime) :
  zero_buckets (S k) c = bucket_of c 0 :: zero_buckets k (next_month c).
Proof.
  unfold zero_buckets. simpl. f_equal. rewrite <- seq_shift, map_map.
  apply map_ext. intros i. now rewrite add_months_S.
Qed.

Lemma zero_buckets_zero (k : nat) (c : datetime) :
  length (zero_buckets k c) = k
  /\ Forall (fun b => Reentered b = 0 /\ Al b = 0) (zero_buckets k c).
Proof.
  unfold zero_buckets. split; [now rewrite length_map, length_seq|].
  apply Forall_forall. intros b Hb. apply list_elem_of_In, in_map_iff in Hb.
  destruct Hb as (i & <- & _). auto.
Qed.

(** ** The inner loop on a launch with a date *)

Section Flush.
Variable clock : nat -> datetime.

Lemma past_month_end_dated (l : launch) (d : datetime) (st : globals) :
  l !! "Reentry Date" = Some (VDate d) ->
  past_month_end clock l st =
    (nxt <- increment_month (cur_date st); Ok (dt_geb d nxt, ticks st)).
Proof.
  intros Hl. unfold past_month_end. rewrite (reentry_date_date clock l d) by assumption.
  simpl. destruct (increment_month (cur_date st)); reflexivity.
Qed.

(** A launch whose month lies [k] months after the current one: the current
    month is flushed with its count, then the months in between with count
    zero; past December 9999 the test of the loop raises. *)
Lemma flush_months_dated (l : launch) (d : datetime) (k : nat) :
  l !! "Reentry Date" = Some (VDate d) -> valid_datetime d -> midnight d ->
  forall st,
    first_of_month (cur_date st) -> midnight (cur_date st) ->
    month_index d = month_index (cur_date st) + Z.of_nat k ->
    flush_months clock l st =
      if month_index d <? LAST_MONTH then
        Ok {| cur_date := add_months k (cur_date st);
              monthly_totals :=
                (monthly_totals st ++
                 match k with
                 | O => []
                 | S k' => bucket_of (cur_date st) (cur_month_total st)
                           :: zero_buckets k' (next_month (cur_date st))
                 end)%list;
              cur_month_total := match k with O => cur_month_total st | S _ => 0 end;
              ticks := ticks st |}
      else Raise ValueError.
Proof.
  intros Hl Hv Hmid. pose proof (month_index_range d Hv) as Hr.
  induction k as [|k IH]; intros st Hf Hm Hk; rewrite flush_months_eq,
    (past_month_end_dated l d st Hl).
  - destruct (Z.ltb_spec (month_index d) LAST_MONTH) as [Hlt|Hge].
    + destruct (next_month_first _ Hf Hm) as (-> & Hf' & Hm' & Hi); [lia|]. simpl.
      rewrite (dt_geb_first_of_month d _ Hv Hmid Hf' Hm').
      destruct (Z.leb_spec (month_index (next_month (cur_date st))) (month_index d));
        [lia|].
      now rewrite app_nil_r.
    + rewrite increment_month_last by (assumption || lia). reflexivity.
  - destruct (next_month_first _ Hf Hm) as (E & Hf' & Hm' & Hi); [lia|].
    rewrite E. cbn [bind]. rewrite (dt_geb_first_of_month d _ Hv Hmid Hf' Hm').
    destruct (Z.leb_spec (month_index (next_month (cur_date st))) (month_index d));
      [|lia].
    unfold flush_month. rewrite E. cbn [bind].
    rewrite IH; cbn [cur_date monthly_totals cur_month_total ticks];
      [|assumption..|lia].
    destruct (month_index d <? LAST_MONTH); [|reflexivity].
    rewrite add_months_S. f_equal. f_equal.
    + rewrite <- app_assoc. simpl. f_equal. f_equal.
      destruct k as [|k']; [reflexivity|]. now rewrite zero_buckets_S.
    + now destruct k.
Qed.
End Flush.

(** ** The for loop *)

Lemma reentered_sum_app (a b : list bucket) :
  reentered_sum (a ++ b) = reentered_sum a + reentered_sum b.
Proof.
  unfold reentered_sum. induction a as [|x a IH]; simpl; [reflexivity|].
  rewrite IH. lia.
Qed.

Lemma month_index_next (c : datetime) :
  month_index (next_month c) = month_index c + 1.
Proof.
  unfold month_index, next_month. simpl. destruct (Z.eqb_spec (month c) 12); lia.
Qed.

Lemma pad2_inj (a b : Z) : 0 <= a <= 99 -> 0 <= b <= 99 -> pad2 a = pad2 b -> a = b.
Proof.
  intros Ha Hb. unfold pad2. intros [= H1 H2].
  destruct (pad2_digits a Ha) as (A1 & A2 & <-).
  destruct (pad2_digits b Hb) as (B1 & B2 & <-).
  apply (f_equal digit_val) in H1, H2.
  rewrite !digit_char_val in H1, H2 by assumption. lia.
Qed.

Lemma pad4_inj (a b : Z) : 0 <= a <= 9999 -> 0 <= b <= 9999 -> pad4 a = pad4 b -> a = b.
Proof.
  intros Ha Hb. unfold pad4. intros [= H1 H2 H3 H4].
  destruct (pad4_digits a Ha) as (A1 & A2 & A3 & A4 & <-).
  destruct (pad4_digits b Hb) as (B1 & B2 & B3 & B4 & <-).
  apply (f_equal digit_val) in H1, H2, H3, H4.
  rewrite !digit_char_val in H1, H2, H3, H4 by assumption. lia.
Qed.

(** Two first-of-months with the same rendering are the same month. *)
Lemma strftime_first_inj (a b : datetime) :
  first_of_month a -> first_of_month b ->
  strftime_dmY a = strftime_dmY b -> month_index a = month_index b.
Proof.
  intros Ha Hb.
  destruct (strftime_first a Ha) as (Hya & Hma & ->).
  destruct (strftime_first b Hb) as (Hyb & Hmb & ->).
  unfold pad2. rewrite !append_String, !append_Empty.
  intros H. injection H as Hm1 Hm2 Hy1 Hy2 Hy3 Hy4. unfold month_index.
  assert (month a = month b).
  { apply pad2_inj; [lia..|]. unfold pad2. now rewrite Hm1, Hm2. }
  assert (year a = year b).
  { apply pad4_inj; [lia..|]. unfold pad4. now rewrite Hy1, Hy2, Hy3, Hy4. }
  lia.
Qed.

Section ForLoop.
Variable clock : nat -> datetime.

(** The loop reaches the launches before the first one still in orbit. *)
Lemma for_launches_before_break (ls : list launch) :
  forall st, for_launches clock ls st = for_launches clock (before_break ls) st.
Proof.
  induction ls as [|l ls IH]; intros st; [reflexivity|].
  simpl. unfold still_in_orbit, getitem.
  destruct (l !! "Reentry Date") as [v|] eqn:Ev; simpl.
  - destruct (py_eqb v (VStr "-")) eqn:Eq; simpl; [reflexivity|].
    unfold getitem. rewrite Ev. simpl. rewrite Eq.
    destruct (flush_months clock l st); simpl; auto.
  - unfold getitem. now rewrite Ev.
Qed.

Lemma before_break_reached (ls : list launch) :
  Forall (fun l => still_in_orbit l = false) (before_break ls).
Proof.
  induction ls as [|l ls IH]; simpl; [constructor|].
  destruct (still_in_orbit l) eqn:E; constructor; assumption.
Qed.

(** Every launch the loop reaches is counted once, and no other. *)
Lemma flush_months_count (l : launch) (st st' : globals) :
  flush_months clock l st = Ok st' ->
  reentered_sum (monthly_totals st') + cur_month_total st'
  = reentered_sum (monthly_totals st) + cur_month_total st.
Proof.
  revert st'. pattern st, (flush_months clock l st).
  apply flush_months_ind; clear st.
  - discriminate.
  - intros st tick _ st' [= <-]. reflexivity.
  - discriminate.
  - intros st tick st1 _ Hf IH st' H. rewrite (IH st' H).
    unfold flush_month in Hf. apply bind_Ok in Hf as (nxt & _ & [= <-]). simpl.
    rewrite reentered_sum_app. unfold reentered_sum. simpl. lia.
Qed.

Lemma for_launches_count (ls : list launch) :
  forall st st', for_launches clock ls st = Ok st' ->
    reentered_sum (monthly_totals st') + cur_month_total st'
    = reentered_sum (monthly_totals st) + cur_month_total st
      + Z.of_nat (length (before_break ls)).
Proof.
  induction ls as [|l ls IH]; intros st st'; simpl.
  - intros [= <-]. lia.
  - unfold still_in_orbit, getitem.
    destruct (l !! "Reentry Date") as [v|]; simpl; [|discriminate].
    destruct (py_eqb v (VStr "-")); simpl; [intros [= <-]; lia|].
    intros H. apply bind_Ok in H as (st1 & H1 & H).
    apply IH in H. simpl in H. apply flush_months_count in H1. lia.
Qed.

Lemma flush_month_before (st st' : globals) (tick : nat) :
  months_before st -> flush_month st tick = Ok st' -> months_before st'.
Proof.
  intros [Hf Hb] H. unfold flush_month in H.
  apply bind_Ok in H as (nxt & Hn & [= <-]).
  apply increment_month_first in Hn as [-> Hf']; [|assumption].
  split; [exact Hf'|]. simpl. apply Forall_app. split.
  - eapply Forall_impl; [exact Hb|]. simpl. intros b (M & HM & E & Hlt).
    exists M. rewrite month_index_next. split; [exact HM | split; [exact E | lia]].
  - constructor; [|constructor]. exists (cur_date st). simpl.
    rewrite month_index_next. split; [exact Hf | split; [reflexivity | lia]].
Qed.

Lemma flush_months_before (l : launch) (st st' : globals) :
  months_before st -> flush_months clock l st = Ok st' -> months_before st'.
Proof.
  revert st'. pattern st, (flush_months clock l st).
  apply flush_months_ind; clear st.
  - discriminate.
  - intros st tick _ st' Hi [= <-]. exact Hi.
  - discriminate.
  - intros st tick st1 _ Hf IH st' Hi. apply IH. eapply flush_month_before; eauto.
Qed.

Lemma for_launches_before (ls : list launch) :
  forall st st', months_before st -> for_launches clock ls st = Ok st' ->
    months_before st'.
Proof.
  induction ls as [|l ls IH]; intros st st' Hi; simpl.
  - now intros [= <-].
  - intros H. apply bind_Ok in H as (v & _ & H).
    destruct (py_eqb v (VStr "-")); [now injection H as <-|].
    apply bind_Ok in H as (st1 & H1 & H). apply IH in H; [assumption|].
    now apply flush_months_before in H1.
Qed.

(** On launches in month order the current month ends as the month of the
    last one, with a count of one at least. *)
Lemma for_launches_chain (ls : list launch) :
  forall st st',
    first_of_month (cur_date st) -> midnight (cur_date st) ->
    0 <= cur_month_total st ->
    month_chain (month_index (cur_date st)) ls ->
    for_launches clock ls st = Ok st' ->
    forall pre l d, ls = (pre ++ [l])%list -> l !! "Reentry Date" = Some (VDate d) ->
      cur_date st' = month_start d /\ 1 <= cur_month_total st'.
Proof.
  induction ls as [|l0 ls IH]; intros st st' Hf Hm Ht Hc Hrun pre l d Hls Hl.
  { now destruct pre. }
  destruct Hc as (d0 & Hl0 & Hv0 & Hm0 & Hle & Hc).
  simpl in Hrun. unfold getitem in Hrun. rewrite Hl0 in Hrun. simpl in Hrun.
  apply bind_Ok in Hrun as (st1 & H1 & Hrun).
  rewrite (flush_months_dated clock l0 d0 (Z.to_nat (month_index d0 - month_index (cur_date st))))
    in H1 by (assumption || lia).
  pose proof (month_index_range d0 Hv0) as Hr.
  destruct (month_index d0 <? LAST_MONTH); [|discriminate]. injection H1 as <-.
  destruct (add_months_first (Z.to_nat (month_index d0 - month_index (cur_date st)))
              (cur_date st) Hf Hm) as (Hf1 & Hm1 & Hi1); [lia|].
  cbn [cur_date monthly_totals cur_month_total ticks] in Hrun.
  assert (Hcur : add_months (Z.to_nat (month_index d0 - month_index (cur_date st)))
                   (cur_date st) = month_start d0).
  { apply first_of_month_month_start; auto. lia. }
  destruct pre as [|l1 pre]; simpl in Hls; injection Hls as -> Hls.
  - subst ls. simpl in Hrun. injection Hrun as <-. simpl.
    rewrite Hl0 in Hl. injection Hl as <-. split; [assumption|].
    destruct (Z.to_nat _); lia.
  - eapply (IH _ st'); [.. | exact Hrun | exact Hls | exact Hl]; simpl;
      try assumption.
    + destruct (Z.to_nat _); lia.
    + replace (month_index (add_months _ (cur_date st))) with (month_index d0) by lia.
      exact Hc.
Qed.
End ForLoop.

(** ** The order the sort leaves *)

Lemma lex_compare_le_trans (a : list Z) :
  forall b c, lex_compare a b <> Gt -> lex_compare b c <> Gt -> lex_compare a c <> Gt.
Proof.
  induction a as [|x a IH]; intros [|y b] [|z c]; simpl; try congruence.
  destruct (Z.compare_spec x y), (Z.compare_spec y z), (Z.compare_spec x z);
    try congruence; try lia; apply IH.
Qed.

Lemma dt_ltb_false (a b : datetime) :
  dt_ltb b a = false <-> lex_compare (dt_fields a) (dt_fields b) <> Gt.
Proof.
  unfold dt_ltb, dt_compare. rewrite (lex_compare_antisym (dt_fields a)).
  destruct (lex_compare (dt_fields a) (dt_fields b)); simpl; split; congruence.
Qed.

Lemma dt_le_trans (a b c : datetime) :
  dt_ltb b a = false -> dt_ltb c b = false -> dt_ltb c a = false.
Proof. rewrite !dt_ltb_false. apply lex_compare_le_trans. Qed.

Lemma key_le_trans_dates (p q r : pyval * launch) :
  key_kind (fst q) = true -> key_le p q -> key_le q r -> key_le p r.
Proof.
  unfold key_le. destruct p as [[a|a] lp], q as [[b|b] lq], r as [[c|c] lr];
    simpl; try discriminate.
  intros _ [= H1] [= H2]. f_equal. eapply dt_le_trans; eauto.
Qed.

Lemma Sorted_dates_strongly (s : list (pyval * launch)) :
  Forall (fun p => key_kind (fst p) = true) s ->
  Sorted key_le s -> StronglySorted key_le s.
Proof.
  induction s as [|p s IH]; intros Hk Hs; [constructor|].
  apply Forall_cons_1 in Hk as [Hp Hk]. apply Sorted_inv in Hs as [Hs Hhd].
  specialize (IH Hk Hs). constructor; [assumption|].
  destruct s as [|q s]; [constructor|].
  apply HdRel_inv in Hhd. apply StronglySorted_inv in IH as [_ Hq].
  apply Forall_cons_1 in Hk as [Hkq _].
  constructor; [assumption|].
  eapply Forall_impl; [exact Hq|]. simpl. intros r Hr.
  eapply key_le_trans_dates; eauto.
Qed.

Lemma StronglySorted_lookup {A : Type} (R : A -> A -> Prop) (s : list A) :
  StronglySorted R s ->
  forall (i j : nat) (a b : A), (i < j)%nat -> s !! i = Some a -> s !! j = Some b -> R a b.
Proof.
  induction 1 as [|x s Hs IH Hx]; intros i j a b Hij Hi Hj; [discriminate|].
  destruct j as [|j]; [lia|]. simpl in Hj. destruct i as [|i]; simpl in Hi.
  - injection Hi as <-. rewrite Forall_forall in Hx. apply Hx.
    eapply list_elem_of_lookup_2; eauto.
  - apply (IH i j a b); [lia | assumption..].
Qed.

Section SortOrder.
Variable clock : nat -> datetime.

Lemma keys_of_effective (ls : list launch) :
  forall tick keyed tick',
    keys_of clock ls tick = Ok (keyed, tick') -> Forall (effective_key clock) keyed.
Proof.
  induction ls as [|l ls IH]; intros tick keyed tick'; simpl.
  - intros [= <- _]. constructor.
  - intros H. apply bind_Ok in H as ([k t1] & Hk & H).
    apply bind_Ok in H as ([ks t2] & Hks & H). injection H as <- _.
    constructor; [|eapply IH; eauto]. exists tick, t1. exact Hk.
Qed.

(** What the sort returns: the launches of a list of keyed launches, each
    with the key [reentry_date] gave it, in non-decreasing order of keys. *)
Lemma sorted_by_reentry_keyed (ls launches : list launch) (tick tick' : nat) :
  sorted_by_reentry clock ls tick = Ok (launches, tick') ->
  exists s, launches = map snd s /\ Sorted key_le s
    /\ Forall (effective_key clock) s /\ map snd s ≡ₚ ls
    /\ exists k, Forall (fun p => key_kind (fst p) = k) s.
Proof.
  unfold sorted_by_reentry. intros H.
  apply bind_Ok in H as ([keyed t1] & Hk & H).
  apply bind_Ok in H as (s & Hs & H). injection H as <- _.
  pose proof (keys_of_effective _ _ _ _ Hk) as He.
  apply keys_of_Ok in Hk as [<- _].
  pose proof (sort_keyed_sorted _ _ Hs) as Hsorted.
  apply sort_keyed_Ok in Hs as [Hp [k Hkind]].
  exists s. repeat split; auto.
  - now rewrite Hp.
  - now rewrite Hp.
  - exists k. now rewrite Hp.
Qed.

Lemma effective_key_date (p : pyval * launch) (d : datetime) :
  effective_key clock p -> snd p !! "Reentry Date" = Some (VDate d) -> fst p = VDate d.
Proof.
  intros (t & t' & H) Hd. rewrite (reentry_date_date clock _ d) in H by assumption.
  now injection H as <- _.
Qed.

Lemma effective_key_in_orbit (p : pyval * launch) :
  effective_key clock p -> snd p !! "Reentry Date" = Some (VStr "-") ->
  exists n, fst p = VDate (clock n).
Proof.
  intros (t & t' & H) Hd. rewrite (reentry_date_in_orbit clock) in H by assumption.
  injection H as <- _. eauto.
Qed.

(** The launches the loop reaches come in month order. *)
Lemma sorted_month_chain (s : list (pyval * launch)) :
  Sorted key_le s -> Forall (effective_key clock) s ->
  Forall (fun p => well_read (snd p)) s ->
  Forall (fun p => snd p !! "Reentry Date" <> Some (VStr "*")) s ->
  forall prev,
    (forall p d, head s = Some p -> snd p !! "Reentry Date" = Some (VDate d) ->
                 prev <= month_index d) ->
    month_chain prev (before_break (map snd s)).
Proof.
  induction s as [|p s IH]; intros Hs He Hw Hn prev Hprev; [exact I|].
  apply Sorted_inv in Hs as [Hs Hhd].
  apply Forall_cons_1 in He as [Hep He]. apply Forall_cons_1 in Hw as [Hwp Hw].
  apply Forall_cons_1 in Hn as [Hnp Hn].
  simpl. unfold still_in_orbit.
  destruct Hwp as (v & Hv & Hm). rewrite Hv.
  destruct v as [d|t]; simpl.
  - destruct Hm as [Hvd Hmd]. exists d. repeat split; try assumption; try apply Hvd;
      try apply Hmd.
    + now apply (Hprev p d).
    + apply IH; try assumption. intros q d' Hq Hd'.
      destruct s as [|q' s]; [discriminate|]. injection Hq as ->.
      apply HdRel_inv in Hhd. unfold key_le in Hhd.
      rewrite (effective_key_date p d), (effective_key_date q d') in Hhd;
        try assumption; [|now apply Forall_cons_1 in He as [? _]].
      injection Hhd as Hlt.
      apply Forall_cons_1 in Hw as [(v' & Hv' & Hm') _].
      rewrite Hd' in Hv'. injection Hv' as <-.
      apply dt_ltb_month_index in Hlt; [assumption | apply Hm' | assumption].
  - destruct Hm as [-> | ->]; [exact I | contradiction].
Qed.

(** With the concrete dates all earlier than the clock, the launches still
    in orbit sort last. *)
Lemma sentinels_last_sorted (s : list (pyval * launch)) :
  Sorted key_le s -> Forall (effective_key clock) s ->
  (exists k, Forall (fun p => key_kind (fst p) = k) s) ->
  (forall p d n, p ∈ s -> snd p !! "Reentry Date" = Some (VDate d) ->
                 dt_ltb d (clock n) = true) ->
  sentinels_last (map snd s).
Proof.
  intros Hs He [k Hk] Hpast i j l l' d Hi Hj Hl Hl'.
  rewrite list_lookup_fmap in Hi, Hj.
  destruct (s !! i) as [p|] eqn:Ei; [|discriminate]. injection Hi as <-.
  destruct (s !! j) as [q|] eqn:Ej; [|discriminate]. injection Hj as <-.
  rewrite Forall_forall in He, Hk.
  assert (Hp : p ∈ s) by (eapply list_elem_of_lookup_2; eauto).
  assert (Hq : q ∈ s) by (eapply list_elem_of_lookup_2; eauto).
  destruct (effective_key_in_orbit p (He p Hp) Hl) as [n Hn].
  pose proof (effective_key_date q d (He q Hq) Hl') as Hd.
  assert (k = true) as -> by (rewrite <- (Hk p Hp), Hn; reflexivity).
  destruct (Nat.lt_trichotomy j i) as [Hlt|[->|Hgt]]; [assumption| |].
  - rewrite Ei in Ej. injection Ej as ->. congruence.
  - exfalso. assert (Hss : StronglySorted key_le s).
    { apply Sorted_dates_strongly; [apply Forall_forall|]; assumption. }
    pose proof (StronglySorted_lookup _ _ Hss i j p q Hgt Ei Ej) as Hle.
    unfold key_le in Hle. rewrite Hn, Hd in Hle. injection Hle as Hle.
    rewrite (Hpast q d n Hq Hl') in Hle. discriminate.
Qed.
End SortOrder.

(** ** The final month *)

Lemma aggregate_unfold (clock : nat -> datetime) (parsed launches : list launch)
    (tick : nat) :
  sorted_by_reentry clock parsed O = Ok (launches, tick) ->
  aggregate clock parsed =
    (first <- list_getitem0 launches;
     ' (v, tick') <- reentry_date clock first tick;
     cur <- py_replace_day v 1;
     for_launches clock launches
       {| cur_date := cur; monthly_totals := []; cur_month_total := 0;
          ticks := tick' |}).
Proof. intros H. unfold aggregate. rewrite H. reflexivity. Qed.

Lemma aggregate_no_wildcard (clock : nat -> datetime) (parsed : list launch)
    (st : globals) (l : launch) :
  Forall well_read parsed -> aggregate clock parsed = Ok st -> l ∈ parsed ->
  l !! "Reentry Date" <> Some (VStr "*").
Proof.
  intros Hwr Ha Hin Hs.
  destruct (aggregate_wildcard clock parsed l Hwr Hin Hs) as [E _]. congruence.
Qed.

Lemma midnight_month_start (d : datetime) : midnight d -> midnight (month_start d).
Proof. intros H. exact H. Qed.

(** C1: the aggregation never emits a bucket for the month of the last dated
    record it reaches.  Every bucket of the output is for a month strictly
    before the month in progress when the loop ends; that month is the month
    of the last launch reached, its count is one at least, and no row of the
    output carries it. *)
Theorem final_month_never_flushed (clock : nat -> datetime) (rows : list csv_row)
    (parsed launches : list launch) (tick : nat) (st : globals) :
  read_csv rows = Ok parsed ->
  sorted_by_reentry clock parsed O = Ok (launches, tick) ->
  aggregate clock parsed = Ok st ->
  Forall (fun b => exists M, first_of_month M /\ Month b = strftime_dmY M
                     /\ month_index M < month_index (cur_date st))
    (monthly_totals st)
  /\ (forall b, b ∈ monthly_totals st -> Month b <> strftime_dmY (cur_date st))
  /\ (forall pre l d,
        before_break launches = (pre ++ [l])%list ->
        l !! "Reentry Date" = Some (VDate d) ->
        cur_date st = month_start d /\ 1 <= cur_month_total st)
  /\ main clock rows = Ok (monthly_csv (monthly_totals st)).
Proof.
  intros Hread Hsort Hagg.
  pose proof (read_csv_well_read _ _ Hread) as Hwr.
  pose proof Hagg as Hrun. rewrite (aggregate_unfold _ _ _ _ Hsort) in Hrun.
  apply bind_Ok in Hrun as (first & Hfirst & Hrun).
  apply bind_Ok in Hrun as ([v tick'] & Hkey & Hrun).
  apply bind_Ok in Hrun as (cur & Hcur & Hrun).
  apply replace_day_first in Hcur as (dt & -> & -> & Hf).
  assert (Hb : months_before st).
  { eapply for_launches_before; [|exact Hrun]. split; [exact Hf | constructor]. }
  destruct Hb as [Hfst Hb]. split; [exact Hb|]. split; [|split].
  - intros b Hin Heq. rewrite Forall_forall in Hb.
    destruct (Hb b Hin) as (M & HM & E & Hlt). rewrite E in Heq.
    apply strftime_first_inj in Heq; [lia | assumption..].
  - intros pre l d Hbb Hl.
    destruct (sorted_by_reentry_keyed _ _ _ _ _ Hsort) as (s & -> & Hs & He & Hp & _).
    assert (Hw : Forall (fun p => well_read (snd p)) s).
    { apply (proj1 (Forall_fmap snd well_read s)).
      change (snd <$> s) with (map snd s). now rewrite Hp. }
    assert (Hn : Forall (fun p => snd p !! "Reentry Date" <> Some (VStr "*")) s).
    { apply (proj1 (Forall_fmap snd (fun l => l !! "Reentry Date" <> Some (VStr "*")) s)).
      change (snd <$> s) with (map snd s). rewrite Hp. apply Forall_forall. intros l' Hl'.
      eapply aggregate_no_wildcard; eauto. }
    destruct s as [|p0 s]; [discriminate|]. simpl in Hfirst. injection Hfirst as <-.
    assert (Hd1 : exists d1, snd p0 !! "Reentry Date" = Some (VDate d1)
                             /\ valid_datetime d1 /\ midnight d1).
    { apply Forall_cons_1 in Hw as [(v0 & Hv0 & Hm0) _].
      apply Forall_cons_1 in Hn as [Hn0 _].
      simpl in Hbb. unfold still_in_orbit in Hbb. rewrite Hv0 in Hbb.
      destruct v0 as [d1|t]; [exists d1; tauto|].
      destruct Hm0 as [-> | ->]; [|contradiction].
      simpl in Hbb. now destruct pre. }
    destruct Hd1 as (d1 & Hd1 & Hv1 & Hm1).
    rewrite (reentry_date_date clock _ d1) in Hkey by assumption.
    injection Hkey as <- <-.
    rewrite for_launches_before_break in Hrun.
    eapply (for_launches_chain clock _ _ st); [.. | exact Hrun | exact Hbb | exact Hl];
      cbn [cur_date monthly_totals cur_month_total ticks];
      [assumption | now apply midnight_month_start | lia |].
    apply (sorted_month_chain clock); try assumption.
    intros p d' [= <-] Hd'. rewrite Hd1 in Hd'. injection Hd' as <-.
    unfold month_index, month_start. simpl. lia.
  - unfold main. rewrite Hread. simpl. now rewrite Hagg.
Qed.

Lemma final_month_never_flushed_witness :
  Forall (fun b => exists M, first_of_month M /\ Month b = strftime_dmY M
                     /\ month_index M < month_index (date 2020 3 1))
    [ {| Month := "01/01/2020"; Reentered := 2; Al := 286 |};
      {| Month := "01/02/2020"; Reentered := 0; Al := 0 |} ]
  /\ main noon_2022
       [sample_row "2020 Mar 02"; sample_row "2020 Jan 05"; sample_row "2020 Jan 20"]
     = Ok [ ["Month"; "Reentered"; "Al"];
            ["01/01/2020"; "2"; "286"];
            ["01/02/2020"; "0"; "0"] ].
Proof.
  pose proof (final_month_never_flushed noon_2022
    [sample_row "2020 Mar 02"; sample_row "2020 Jan 05"; sample_row "2020 Jan 20"]
    _
    [ sample_launch "2020 Jan 05" (VDate (date 2020 1 5));
      sample_launch "2020 Jan 20" (VDate (date 2020 1 20));
      sample_launch "2020 Mar 02" (VDate (date 2020 3 2)) ]
    O
    {| cur_date := date 2020 3 1;
       monthly_totals :=
         [ {| Month := "01/01/2020"; Reentered := 2; Al := 286 |};
           {| Month := "01/02/2020"; Reentered := 0; Al := 0 |} ];
       cur_month_total := 1; ticks := O |}
    read_sample_rows ltac:(reflexivity) ltac:(vm_compute; reflexivity))
    as (H1 & _ & _ & H4).
  split; [exact H1 | exact H4].
Defined.

(** ** Launches still in orbit *)

Lemma aggregate_count (clock : nat -> datetime) (parsed launches : list launch)
    (tick : nat) (st : globals) :
  sorted_by_reentry clock parsed O = Ok (launches, tick) ->
  aggregate clock parsed = Ok st ->
  reentered_sum (monthly_totals st) + cur_month_total st
  = Z.of_nat (length (before_break launches)).
Proof.
  intros Hsort Hrun. rewrite (aggregate_unfold _ _ _ _ Hsort) in Hrun.
  apply bind_Ok in Hrun as (first & _ & Hrun).
  apply bind_Ok in Hrun as ([v tick'] & _ & Hrun).
  apply bind_Ok in Hrun as (cur & _ & Hrun).
  apply for_launches_count in Hrun. simpl in Hrun. exact Hrun.
Qed.




(** ** Only the reentry column matters *)

Section Ext.
Variable clock : nat -> datetime.

Lemma past_month_end_ext (l l' : launch) (st : globals) :
  l !! "Reentry Date" = l' !! "Reentry Date" ->
  past_month_end clock l st = past_month_end clock l' st.
Proof. intros H. unfold past_month_end, reentry_date, getitem. now rewrite H. Qed.

Lemma flush_months_ext (l l' : launch) (st : globals) :
  l !! "Reentry Date" = l' !! "Reentry Date" ->
  flush_months clock l st = flush_months clock l' st.
Proof.
  intros H. unfold flush_months.
  generalize (S (months_left (cur_date st))). intros n. revert st.
  induction n as [|n IH]; intros st; simpl; [reflexivity|].
  rewrite (past_month_end_ext l l' st H).
  destruct (past_month_end clock l' st) as [[[] tick]|e]; try reflexivity.
  destruct (flush_month st tick) as [st'|e]; [|reflexivity]. apply IH.
Qed.

Lemma for_launches_ext (ls ls' : list launch) :
  Forall2 (fun l l' => l !! "Reentry Date" = l' !! "Reentry Date") ls ls' ->
  forall st, for_launches clock ls st = for_launches clock ls' st.
Proof.
  induction 1 as [|l l' ls ls' Hl _ IH]; intros st; [reflexivity|].
  simpl. unfold getitem. rewrite Hl, (flush_months_ext l l' st Hl).
  destruct (l' !! "Reentry Date") as [v|]; simpl; [|reflexivity].
  destruct (py_eqb v (VStr "-")); [reflexivity|].
  destruct (flush_months clock l' st); simpl; [apply IH | reflexivity].
Qed.
End Ext.

Lemma Permutation_three {A : Type} (l : list A) (a b c : A) :
  l ≡ₚ [a; b; c] ->
  l = [a; b; c] \/ l = [a; c; b] \/ l = [b; a; c]
  \/ l = [b; c; a] \/ l = [c; a; b] \/ l = [c; b; a].
Proof.
  intros H. symmetry in H. apply Permutation_cons_inv_l in H as (k1 & k2 & -> & H).
  apply Permutation_length_2_inv in H.
  destruct k1 as [|x1 [|x2 [|x3 k1]]]; simpl in H; destruct H as [H|H];
    try discriminate; try (destruct k2; discriminate);
    simplify_eq; simpl; auto 10.
Qed.

(** ** Three reentries over two months *)

Lemma dt_lt_trans (a b c : datetime) :
  dt_ltb a b = true -> dt_ltb b c = true -> dt_ltb a c = true.
Proof.
  intros Hab Hbc. destruct (dt_ltb a c) eqn:Hac; [reflexivity|].
  apply dt_ltb_asym in Hab.
  rewrite (dt_le_trans c a b Hac Hab) in Hbc. discriminate.
Qed.

Lemma still_in_orbit_true (l : launch) :
  still_in_orbit l = true <-> l !! "Reentry Date" = Some (VStr "-").
Proof.
  unfold still_in_orbit. destruct (l !! "Reentry Date") as [[d|s]|]; simpl;
    split; try discriminate.
  - destruct (String.eqb_spec s "-"); congruence.
  - now intros [= ->].
Qed.

Lemma before_break_split (ls : list launch) :
  exists U, ls = (before_break ls ++ U)%list
    /\ match U with [] => True | u :: _ => still_in_orbit u = true end.
Proof.
  induction ls as [|l ls (U & HU & Hhd)]; simpl; [exists []; auto|].
  destruct (still_in_orbit l) eqn:E.
  - exists (l :: ls). auto.
  - exists U. split; [simpl; f_equal; exact HU | exact Hhd].
Qed.

Lemma filter_reached_all (ls : list launch) :
  Forall (fun l => still_in_orbit l = false) ls ->
  filter (fun l => still_in_orbit l = false) ls = ls.
Proof.
  induction 1 as [|l ls Hl _ IH]; [reflexivity|].
  rewrite filter_cons_True by assumption. now rewrite IH.
Qed.

Lemma filter_reached_none (ls : list launch) :
  Forall (fun l => still_in_orbit l = true) ls ->
  filter (fun l => still_in_orbit l = false) ls = [].
Proof.
  induction 1 as [|l ls Hl _ IH]; [reflexivity|].
  rewrite filter_cons_False by congruence. exact IH.
Qed.

Section Scenario.
Variable clock : nat -> datetime.
Variables l1 l2 l3 : launch.
Hypothesis reentry1 : l1 !! "Reentry Date" = Some (VDate (date 2020 1 5)).
Hypothesis reentry2 : l2 !! "Reentry Date" = Some (VDate (date 2020 1 20)).
Hypothesis reentry3 : l3 !! "Reentry Date" = Some (VDate (date 2020 3 2)).

(** The other launches, all still in orbit; when there are any, the clock
    is past the last of the three dates. *)
Variable in_orbit : list launch.
Hypothesis in_orbit_unknown :
  Forall (fun l => l !! "Reentry Date" = Some (VStr "-")) in_orbit.
Hypothesis clock_later :
  in_orbit = [] \/ forall n, dt_ltb (date 2020 3 2) (clock n) = true.

Variable parsed : list launch.
Hypothesis parsed_records : parsed ≡ₚ ([l1; l2; l3] ++ in_orbit)%list.

Lemma scenario_launch (l : launch) :
  l ∈ parsed ->
  (exists d, l !! "Reentry Date" = Some (VDate d)
             /\ (d = date 2020 1 5 \/ d = date 2020 1 20 \/ d = date 2020 3 2))
  \/ (l !! "Reentry Date" = Some (VStr "-") /\ l ∈ in_orbit).
Proof.
  rewrite parsed_records. intros Hl. apply elem_of_app in Hl as [Hl|Hl].
  - left. repeat (apply elem_of_cons in Hl as [->|Hl]); [eauto 6..|].
    now apply not_elem_of_nil in Hl.
  - right. rewrite Forall_forall in in_orbit_unknown. auto.
Qed.

Lemma scenario_key_is_date (l : launch) : l ∈ parsed -> key_is_str l = false.
Proof.
  intros Hl. unfold key_is_str.
  destruct (scenario_launch l Hl) as [(d & -> & _)|[-> _]]; reflexivity.
Qed.

Lemma scenario_sort_returns :
  exists launches tick, sorted_by_reentry clock parsed O = Ok (launches, tick).
Proof.
  destruct (keys_of_Some clock parsed) with (tick := O) as (keyed & tick & Hk).
  { apply Forall_forall. intros l Hl.
    destruct (scenario_launch l Hl) as [(d & -> & _)|[-> _]]; eauto. }
  destruct (sort_keyed_same_kind true keyed) as [s Hs].
  { destruct (keys_of_Ok clock _ _ _ _ Hk) as [Hm Hf].
    rewrite Forall_forall in Hf. apply Forall_forall. intros p Hp.
    rewrite (Hf p Hp), scenario_key_is_date; [reflexivity|].
    rewrite <- Hm. now apply (list_elem_of_fmap_2 snd). }
  unfold sorted_by_reentry. rewrite Hk. simpl. rewrite Hs. simpl. eauto.
Qed.

Lemma scenario_earlier (l : launch) (d : datetime) (n : nat) :
  (forall k, dt_ltb (date 2020 3 2) (clock k) = true) ->
  l ∈ parsed -> l !! "Reentry Date" = Some (VDate d) -> dt_ltb d (clock n) = true.
Proof.
  intros Hc Hl Hd. destruct (scenario_launch l Hl) as [(d' & Hd' & Hcase)|[Ho _]];
    [|congruence].
  rewrite Hd in Hd'. injection Hd' as <-.
  destruct Hcase as [-> | [-> | ->]]; [| |apply Hc];
    (eapply dt_lt_trans; [|apply Hc]); reflexivity.
Qed.

(** The loop reaches the three dated launches, in the order of their dates. *)
Lemma scenario_reached (launches : list launch) (tick : nat) :
  sorted_by_reentry clock parsed O = Ok (launches, tick) ->
  before_break launches = [l1; l2; l3].
Proof.
  intros Hsort.
  destruct (sorted_by_reentry_keyed _ _ _ _ _ Hsort) as (s & -> & Hs & He & Hp & Hk).
  destruct (before_break_split (map snd s)) as (U & HU & Hhd).
  remember (before_break (map snd s)) as D eqn:ED.
  assert (HD : Forall (fun l => still_in_orbit l = false) D).
  { subst D. apply before_break_reached. }
  assert (HUo : Forall (fun l => still_in_orbit l = true) U).
  { destruct U as [|u U]; constructor; [exact Hhd|].
    destruct clock_later as [Hnone|Hc].
    { exfalso. assert (Hu : u ∈ parsed).
      { rewrite <- Hp, HU. apply elem_of_app. right. apply list_elem_of_here. }
      destruct (scenario_launch u Hu) as [(d & Hd & _)|[_ Hin]].
      - apply still_in_orbit_true in Hhd. congruence.
      - rewrite Hnone in Hin. now apply not_elem_of_nil in Hin. }
    assert (Hlast : sentinels_last (map snd s)).
    { apply (sentinels_last_sorted clock); try assumption.
      intros p d n Hin Hd. apply (scenario_earlier (snd p)); try assumption.
      rewrite <- Hp. now apply (list_elem_of_fmap_2 snd). }
    apply Forall_forall. intros l Hl.
    assert (Hlp : l ∈ parsed).
    { rewrite <- Hp, HU. apply elem_of_app. right. now apply list_elem_of_further. }
    destruct (scenario_launch l Hlp) as [(d & Hd & _)|[Ho _]];
      [|now apply still_in_orbit_true].
    exfalso. apply list_elem_of_lookup_1 in Hl as [j Hj].
    apply still_in_orbit_true in Hhd.
    assert (Hlt : (length D + S j < length D)%nat); [|lia].
    apply (Hlast (length D) (length D + S j)%nat u l d); try assumption.
    - rewrite HU. now apply list_lookup_middle.
    - rewrite HU, lookup_app_r by lia.
      replace (length D + S j - length D)%nat with (S j) by lia. exact Hj. }
  assert (E1 : filter (fun l => still_in_orbit l = false) (map snd s) = D).
  { rewrite HU, filter_app, (filter_reached_all D HD), (filter_reached_none U HUo).
    apply app_nil_r. }
  assert (E2 : filter (fun l => still_in_orbit l = false)
                 ([l1; l2; l3] ++ in_orbit)%list = [l1; l2; l3]).
  { rewrite filter_app, (filter_reached_none in_orbit), app_nil_r.
    - apply filter_reached_all. repeat constructor; unfold still_in_orbit;
        rewrite ?reentry1, ?reentry2, ?reentry3; reflexivity.
    - eapply Forall_impl; [exact in_orbit_unknown|]. intros l.
      apply still_in_orbit_true. }
  assert (Hperm : D ≡ₚ [l1; l2; l3]).
  { rewrite <- E1, <- E2. now rewrite Hp, parsed_records. }
  assert (Hkey : forall p d, p ∈ s -> snd p !! "Reentry Date" = Some (VDate d) ->
                             fst p = VDate d).
  { intros p d Hin Hd. rewrite Forall_forall in He.
    exact (effective_key_date clock p d (He p Hin) Hd). }
  apply Permutation_three in Hperm.
  destruct s as [|pa [|pb [|pc s]]];
    try (destruct Hperm as [E|[E|[E|[E|[E|E]]]]]; rewrite E in HU; discriminate).
  apply Sorted_inv in Hs as [Hs Hab]. apply HdRel_inv in Hab.
  apply Sorted_inv in Hs as [Hs Hbc]. apply HdRel_inv in Hbc.
  unfold key_le in Hab, Hbc.
  assert (Ha : pa ∈ pa :: pb :: pc :: s) by apply list_elem_of_here.
  assert (Hb : pb ∈ pa :: pb :: pc :: s)
    by apply list_elem_of_further, list_elem_of_here.
  assert (Hc : pc ∈ pa :: pb :: pc :: s)
    by apply list_elem_of_further, list_elem_of_further, list_elem_of_here.
  destruct Hperm as [E|[E|[E|[E|[E|E]]]]]; [exact E|exfalso..];
    rewrite E in HU; simpl in HU; injection HU as Ea Eb Ec _;
    rewrite (Hkey pa _ Ha ltac:(rewrite Ea; eassumption)),
            (Hkey pb _ Hb ltac:(rewrite Eb; eassumption)) in Hab;
    rewrite (Hkey pb _ Hb ltac:(rewrite Eb; eassumption)),
            (Hkey pc _ Hc ltac:(rewrite Ec; eassumption)) in Hbc;
    vm_compute in Hab, Hbc; discriminate.
Qed.

Lemma scenario_aggregate :
  exists tick,
    aggregate clock parsed =
      Ok {| cur_date := date 2020 3 1;
            monthly_totals :=
              [ {| Month := "01/01/2020"; Reentered := 2; Al := 286 |};
                {| Month := "01/02/2020"; Reentered := 0; Al := 0 |} ];
            cur_month_total := 1;
            ticks := tick |}.
Proof.
  destruct scenario_sort_returns as (launches & tick & Hsort).
  pose proof (scenario_reached launches tick Hsort) as Hreached.
  exists tick. rewrite (aggregate_unfold clock parsed _ _ Hsort).
  destruct launches as [|first launches]; [discriminate|].
  assert (first = l1) as ->.
  { pose proof Hreached as H. simpl in H. destruct (still_in_orbit first);
      [discriminate|]. now injection H. }
  cbn [list_getitem0 bind]. rewrite (reentry_date_date clock l1 _ tick reentry1).
  cbn [bind].
  change (py_replace_day (VDate (date 2020 1 5)) 1) with (Ok (date 2020 1 1)).
  cbn [bind]. rewrite for_launches_before_break, Hreached.
  rewrite (for_launches_ext clock [l1; l2; l3]
             [ {[ "Reentry Date" := VDate (date 2020 1 5) ]};
               {[ "Reentry Date" := VDate (date 2020 1 20) ]};
               {[ "Reentry Date" := VDate (date 2020 3 2) ]} ]).
  - vm_compute. reflexivity.
  - repeat constructor; rewrite lookup_singleton_eq; assumption.
Qed.
End Scenario.

(** C2: three records reentering on 2020-01-05, 2020-01-20 and 2020-03-02,
    in any order and with any number of records still in orbit beside them,
    give exactly two buckets: January 2020 with 2 and 286, then February 2020
    with 0 and 0, and none for March.  In general a launch whose month lies
    k+1 months after the current one makes the loop append the current month
    and then k buckets with count 0, as long as its month is not the last of
    the calendar. *)
Theorem three_reentries_two_buckets :
  (forall clock rows parsed l1 l2 l3 in_orbit,
     read_csv rows = Ok parsed ->
     l1 !! "Reentry Date" = Some (VDate (date 2020 1 5)) ->
     l2 !! "Reentry Date" = Some (VDate (date 2020 1 20)) ->
     l3 !! "Reentry Date" = Some (VDate (date 2020 3 2)) ->
     Forall (fun l => l !! "Reentry Date" = Some (VStr "-")) in_orbit ->
     (in_orbit = [] \/ forall n, dt_ltb (date 2020 3 2) (clock n) = true) ->
     parsed ≡ₚ ([l1; l2; l3] ++ in_orbit)%list ->
     (exists st,
        aggregate clock parsed = Ok st
        /\ monthly_totals st =
             [ {| Month := "01/01/2020"; Reentered := 2; Al := 286 |};
               {| Month := "01/02/2020"; Reentered := 0; Al := 0 |} ]
        /\ cur_date st = date 2020 3 1 /\ cur_month_total st = 1)
     /\ main clock rows =
          Ok [ ["Month"; "Reentered"; "Al"];
               ["01/01/2020"; "2"; "286"];
               ["01/02/2020"; "0"; "0"] ])
  /\ (forall clock l d st k,
        l !! "Reentry Date" = Some (VDate d) -> valid_datetime d -> midnight d ->
        first_of_month (cur_date st) -> midnight (cur_date st) ->
        month_index d = month_index (cur_date st) + Z.of_nat k + 1 ->
        month_index d < LAST_MONTH ->
        for_launches clock [l] st =
          Ok {| cur_date := month_start d;
                monthly_totals :=
                  (monthly_totals st ++
                   bucket_of (cur_date st) (cur_month_total st)
                   :: zero_buckets k (next_month (cur_date st)))%list;
                cur_month_total := 1;
                ticks := ticks st |}
        /\ length (zero_buckets k (next_month (cur_date st))) = k
        /\ Forall (fun b => Reentered b = 0 /\ Al b = 0)
             (zero_buckets k (next_month (cur_date st)))).
Proof.
  split.
  - intros clock rows parsed l1 l2 l3 in_orbit Hread H1 H2 H3 Ho Hc Hp.
    destruct (scenario_aggregate clock l1 l2 l3 H1 H2 H3 in_orbit Ho Hc parsed Hp)
      as [tick Ha].
    split; [eexists; split; [exact Ha | repeat split]|].
    unfold main. rewrite Hread. simpl. rewrite Ha. reflexivity.
  - intros clock l d st k Hl Hv Hmid Hf Hm Hk Hlt.
    split; [|apply zero_buckets_zero].
    simpl. unfold getitem. rewrite Hl. simpl.
    rewrite (flush_months_dated clock l d (S k)) by (assumption || lia).
    destruct (Z.ltb_spec (month_index d) LAST_MONTH); [|lia]. simpl.
    destruct (add_months_first (S k) (cur_date st) Hf Hm) as (Hf1 & Hm1 & Hi1); [lia|].
    f_equal. f_equal.
    change (next_month (add_months k (cur_date st))) with (add_months (S k) (cur_date st)).
    apply first_of_month_month_start; auto. lia.
Qed.

Lemma three_reentries_two_buckets_witness :
  main noon_2022
    [sample_row "2020 Mar 02"; sample_row "-"; sample_row "2020 Jan 05";
     sample_row "2020 Jan 20"]
  = Ok [ ["Month"; "Reentered"; "Al"];
         ["01/01/2020"; "2"; "286"];
         ["01/02/2020"; "0"; "0"] ]
  /\ for_launches noon_2022
       [ {[ "Reentry Date" := VDate (date 2020 6 15) ]} ]
       {| cur_date := date 2020 3 1; monthly_totals := [];
          cur_month_total := 1; ticks := O |}
     = Ok {| cur_date := date 2020 6 1;
             monthly_totals :=
               [ {| Month := "01/03/2020"; Reentered := 1; Al := 143 |};
                 {| Month := "01/04/2020"; Reentered := 0; Al := 0 |};
                 {| Month := "01/05/2020"; Reentered := 0; Al := 0 |} ];
             cur_month_total := 1; ticks := O |}.
Proof.
  split.
  - apply (proj1 three_reentries_two_buckets noon_2022 _ _
             (sample_launch "2020 Jan 05" (VDate (date 2020 1 5)))
             (sample_launch "2020 Jan 20" (VDate (date 2020 1 20)))
             (sample_launch "2020 Mar 02" (VDate (date 2020 3 2)))
             [sample_launch "-" (VStr "-")]
             read_sample_rows_in_orbit).
    + apply sample_launch_reentry.
    + apply sample_launch_reentry.
    + apply sample_launch_reentry.
    + constructor; [apply sample_launch_reentry | constructor].
    + right. intros n. reflexivity.
    + etransitivity; [exact (Permutation_cons_append [_; _; _] _)|].
      exact (Permutation_cons_append [_; _; _] _).
  - apply (proj1 (proj2 three_reentries_two_buckets noon_2022
             {[ "Reentry Date" := VDate (date 2020 6 15) ]} (date 2020 6 15)
             {| cur_date := date 2020 3 1; monthly_totals := [];
                cur_month_total := 1; ticks := O |} 2%nat
             (lookup_singleton_eq _ _) ltac:(split; reflexivity)
             ltac:(repeat split) ltac:(repeat split) ltac:(repeat split)
             ltac:(reflexivity) ltac:(reflexivity))).
Defined.

(** ** Ordinals of dates *)

Lemma is_leap_spec (y : Z) :
  is_leap y = true <-> y mod 4 = 0 /\ (y mod 100 <> 0 \/ y mod 400 = 0).
Proof.
  unfold is_leap.
  destruct (Z.eqb_spec (y mod 4) 0), (Z.eqb_spec (y mod 100) 0),
    (Z.eqb_spec (y mod 400) 0); simpl; intuition congruence.
Qed.

(** A year, counted from 1, on the cycles of 400, 100 and 4 years. *)
Lemma days_before_year_cycles (a b c e : Z) :
  0 <= b < 4 -> 0 <= c < 25 -> 0 <= e < 4 ->
  days_before_year (400 * a + 100 * b + 4 * c + e + 1)
  = DI400Y * a + DI100Y * b + DI4Y * c + 365 * e.
Proof.
  intros Hb Hc He. unfold days_before_year, DI400Y, DI100Y, DI4Y.
  replace (400 * a + 100 * b + 4 * c + e + 1 - 1) with (400 * a + 100 * b + 4 * c + e) by lia.
  assert (E4 : (400 * a + 100 * b + 4 * c + e) / 4 = 100 * a + 25 * b + c).
  { symmetry. apply (Z.div_unique _ _ _ e); lia. }
  assert (E100 : (400 * a + 100 * b + 4 * c + e) / 100 = 4 * a + b).
  { symmetry. apply (Z.div_unique _ _ _ (4 * c + e)); lia. }
  assert (E400 : (400 * a + 100 * b + 4 * c + e) / 400 = a).
  { symmetry. apply (Z.div_unique _ _ _ (100 * b + 4 * c + e)); lia. }
  rewrite E4, E100, E400. lia.
Qed.

Lemma is_leap_cycles (a b c e : Z) :
  0 <= b < 4 -> 0 <= c < 25 -> 0 <= e < 4 ->
  is_leap (400 * a + 100 * b + 4 * c + e + 1)
  = (e =? 3) && (negb (c =? 24) || (b =? 3)).
Proof.
  intros Hb Hc He. unfold is_leap.
  assert (M4 : (400 * a + 100 * b + 4 * c + e + 1) mod 4 = (e + 1) mod 4).
  { replace (400 * a + 100 * b + 4 * c + e + 1) with (e + 1 + (100 * a + 25 * b + c) * 4) by lia.
    apply Z.mod_add. lia. }
  assert (M100 : (400 * a + 100 * b + 4 * c + e + 1) mod 100 = (4 * c + e + 1) mod 100).
  { replace (400 * a + 100 * b + 4 * c + e + 1) with (4 * c + e + 1 + (4 * a + b) * 100) by lia.
    apply Z.mod_add. lia. }
  assert (M400 : (400 * a + 100 * b + 4 * c + e + 1) mod 400
                 = (100 * b + 4 * c + e + 1) mod 400).
  { replace (400 * a + 100 * b + 4 * c + e + 1) with (100 * b + 4 * c + e + 1 + a * 400) by lia.
    apply Z.mod_add. lia. }
  rewrite M4, M100, M400.
  destruct (Z.eqb_spec e 3), (Z.eqb_spec c 24), (Z.eqb_spec b 3);
    destruct (Z.eqb_spec ((e + 1) mod 4) 0), (Z.eqb_spec ((4 * c + e + 1) mod 100) 0),
      (Z.eqb_spec ((100 * b + 4 * c + e + 1) mod 400) 0); simpl; try reflexivity;
    exfalso; Z.div_mod_to_equations; lia.
Qed.

(** The cycles the ordinal [n] falls in. *)
Lemma ordinal_cycles (n : Z) :
  exists a b c e r,
    n - 1 = DI400Y * a + DI100Y * b + DI4Y * c + 365 * e + r
    /\ a = (n - 1) / DI400Y
    /\ b = (n - 1) mod DI400Y / DI100Y
    /\ c = (n - 1) mod DI400Y mod DI100Y / DI4Y
    /\ e = (n - 1) mod DI400Y mod DI100Y mod DI4Y / 365
    /\ r = (n - 1) mod DI400Y mod DI100Y mod DI4Y mod 365
    /\ 0 <= b <= 4 /\ 0 <= c <= 24 /\ 0 <= e <= 4 /\ 0 <= r < 365
    /\ (b = 4 -> c = 0 /\ e = 0 /\ r = 0)
    /\ (e = 4 -> r = 0)
    /\ (e = 4 -> c < 24).
Proof.
  unfold DI400Y, DI100Y, DI4Y.
  do 5 eexists. split; [|split; [reflexivity|split; [reflexivity|split; [reflexivity|
    split; [reflexivity|split; [reflexivity|]]]]]].
  - Z.div_mod_to_equations. lia.
  - Z.div_mod_to_equations. lia.
Qed.

Lemma check_date_fields_intro (y m d : Z) :
  1 <= y <= 9999 -> 1 <= m <= 12 -> 1 <= d <= days_in_month y m ->
  check_date_fields y m d = true.
Proof.
  intros Hy Hm Hd. unfold check_date_fields, MINYEAR, MAXYEAR.
  repeat (apply andb_true_intro; split); lia.
Qed.

Lemma ord2ymd_spec (n : Z) :
  1 <= n <= MAXORDINAL ->
  exists y m d, ord2ymd n = (y, m, d)
    /\ check_date_fields y m d = true /\ ymd2ord y m d = n.
Proof.
  intros Hn.
  destruct (ordinal_cycles n)
    as (a & b & c & e & r & En & Ea & Eb & Ec & Ee & Er & Hb & Hc & He & Hr & Hb4 & He4 & He4c).
  assert (Ha : 0 <= a <= 24).
  { subst a. unfold MAXORDINAL, DI400Y in *. Z.div_mod_to_equations. lia. }
  unfold ord2ymd. cbv zeta. rewrite <- Er, <- Ee, <- Ec, <- Eb, <- Ea.
  clear Ea Eb Ec Ee Er.
  destruct ((e =? 4) || (b =? 4)) eqn:Elast.
  - (* the last day of a leap year *)
    assert (Hcyc : exists b' c', 0 <= b' < 4 /\ 0 <= c' < 25
               /\ (negb (c' =? 24) || (b' =? 3)) = true
               /\ a * 400 + 1 + b * 100 + c * 4 + e - 1 = 400 * a + 100 * b' + 4 * c' + 3 + 1
               /\ n = DI400Y * a + DI100Y * b' + DI4Y * c' + 365 * 3 + 366).
    { unfold DI400Y, DI100Y, DI4Y in *.
      destruct (Z.eqb_spec b 4) as [->|Hb'].
      - destruct (Hb4 eq_refl) as (-> & -> & ->). exists 3, 24. repeat split; lia.
      - destruct (Z.eqb_spec e 4) as [->|He']; [|simpl in Elast; discriminate].
        exists b, c. specialize (He4 eq_refl). specialize (He4c eq_refl).
        repeat split; lia. }
    destruct Hcyc as (b' & c' & Hb' & Hc' & Hleap & -> & ->).
    eexists _, _, _. split; [reflexivity|].
    assert (Hl : is_leap (400 * a + 100 * b' + 4 * c' + 3 + 1) = true).
    { rewrite is_leap_cycles by lia. rewrite Hleap. reflexivity. }
    split.
    + apply check_date_fields_intro; [unfold MAXORDINAL, DI400Y, DI100Y, DI4Y in *; lia | lia |].
      unfold days_in_month. simpl. lia.
    + unfold ymd2ord, days_before_month. rewrite Hl, days_before_year_cycles by lia.
      simpl. lia.
  - apply orb_false_elim in Elast as [He' Hb'].
    apply Z.eqb_neq in He', Hb'.
    replace (a * 400 + 1 + b * 100 + c * 4 + e) with (400 * a + 100 * b + 4 * c + e + 1) by lia.
    rewrite <- (is_leap_cycles a b c e) by lia.
    set (y := 400 * a + 100 * b + 4 * c + e + 1).
    assert (Hy : 1 <= y <= 9999).
    { unfold y, MAXORDINAL, DI400Y, DI100Y, DI4Y in *. lia. }
    assert (Hdby : days_before_year y = n - 1 - r).
    { unfold y. rewrite days_before_year_cycles by lia. lia. }
    rewrite Z.shiftr_div_pow2 by lia. change (2 ^ 5) with 32.
    assert (Hest : 1 <= (r + 50) / 32 <= 12) by (Z.div_mod_to_equations; lia).
    assert (Hest' : 32 * ((r + 50) / 32) <= r + 50 < 32 * ((r + 50) / 32) + 32)
      by (Z.div_mod_to_equations; lia).
    remember ((r + 50) / 32) as est eqn:Eest. clear Eest.
    enum_Z est 1 12%nat ltac:(
      destruct (is_leap y) eqn:El;
      match goal with |- context [r <? ?p] =>
        let p' := eval cbv in p in change p with p'; destruct (Z.ltb_spec r p') end;
      eexists _, _, _; (split; [reflexivity|]);
      (split; [apply check_date_fields_intro; [lia | simpl; lia |];
               unfold days_in_month; rewrite El; simpl; lia
              | unfold ymd2ord, days_before_month; rewrite Hdby, El; simpl; lia])).
Qed.

(** Evaluates the lookups in the tables of days at a known month. *)
Ltac month_tables :=
  repeat match goal with
         | |- context [nth (Z.to_nat ?k) ?l ?d] =>
             let v := eval vm_compute in (nth (Z.to_nat k) l d) in
             change (nth (Z.to_nat k) l d) with v
         end;
  simpl.

Lemma days_before_year_succ (y : Z) :
  days_before_year (y + 1) = days_before_year y + 365 + (if is_leap y then 1 else 0).
Proof.
  unfold days_before_year, is_leap.
  replace (y + 1 - 1) with y by lia.
  destruct (Z.eqb_spec (y mod 4) 0), (Z.eqb_spec (y mod 100) 0),
    (Z.eqb_spec (y mod 400) 0); simpl; Z.div_mod_to_equations; lia.
Qed.

Lemma days_before_year_mono (y y' : Z) :
  y <= y' -> days_before_year y <= days_before_year y'.
Proof.
  intros H. unfold days_before_year. Z.div_mod_to_equations. lia.
Qed.

(** The day of the year of a date. *)
Lemma day_of_year_range (y m d : Z) :
  1 <= m <= 12 -> 1 <= d <= days_in_month y m ->
  1 <= days_before_month y m + d <= 365 + (if is_leap y then 1 else 0).
Proof.
  intros Hm. unfold days_before_month, days_in_month.
  enum_Z m 1 12%nat ltac:(destruct (is_leap y); month_tables; lia).
Qed.

Lemma days_before_month_next (y m m' : Z) :
  1 <= m -> m < m' -> m' <= 12 ->
  days_before_month y m + days_in_month y m <= days_before_month y m'.
Proof.
  intros H1 Hlt H12. unfold days_before_month, days_in_month.
  enum_Z m 1 12%nat ltac:(idtac);
    enum_Z m' 1 12%nat ltac:(try lia; destruct (is_leap y); month_tables; lia).
Qed.

Lemma check_date_fields_elim (y m d : Z) :
  check_date_fields y m d = true ->
  1 <= y <= 9999 /\ 1 <= m <= 12 /\ 1 <= d <= days_in_month y m.
Proof.
  unfold check_date_fields, MINYEAR, MAXYEAR. intros H.
  repeat (apply andb_prop in H; destruct H as [H ?]). lia.
Qed.

(** The ordinal grows with the date. *)
Lemma ymd2ord_lt (y m d y' m' d' : Z) :
  check_date_fields y m d = true -> check_date_fields y' m' d' = true ->
  y < y' \/ (y = y' /\ (m < m' \/ (m = m' /\ d < d'))) ->
  ymd2ord y m d < ymd2ord y' m' d'.
Proof.
  intros H H' Hlt.
  apply check_date_fields_elim in H as (Hy & Hm & Hd).
  apply check_date_fields_elim in H' as (Hy' & Hm' & Hd').
  pose proof (day_of_year_range y m d Hm Hd) as Hr.
  pose proof (day_of_year_range y' m' d' Hm' Hd') as Hr'.
  unfold ymd2ord. destruct Hlt as [Hlt|[<- Hlt]].
  - pose proof (days_before_year_succ y) as Hs.
    pose proof (days_before_year_mono (y + 1) y' ltac:(lia)). lia.
  - destruct Hlt as [Hlt|[<- Hlt]]; [|lia].
    pose proof (days_before_month_next y m m' ltac:(lia) Hlt ltac:(lia)). lia.
Qed.

Lemma ymd2ord_range (y m d : Z) :
  check_date_fields y m d = true -> 1 <= ymd2ord y m d <= MAXORDINAL.
Proof.
  intros H. apply check_date_fields_elim in H as (Hy & Hm & Hd).
  pose proof (day_of_year_range y m d Hm Hd) as Hr.
  pose proof (days_before_year_succ y) as Hs.
  pose proof (days_before_year_mono 1 y ltac:(lia)) as H1.
  pose proof (days_before_year_mono (y + 1) 10000 ltac:(lia)) as H2.
  change (days_before_year 1) with 0 in H1.
  change (days_before_year 10000) with MAXORDINAL in H2.
  unfold ymd2ord. lia.
Qed.

Lemma ymd2ord_inj (y m d y' m' d' : Z) :
  check_date_fields y m d = true -> check_date_fields y' m' d' = true ->
  ymd2ord y m d = ymd2ord y' m' d' -> y = y' /\ m = m' /\ d = d'.
Proof.
  intros H H' E.
  destruct (Z.lt_trichotomy y y') as [Hy|[Hy|Hy]];
  [pose proof (ymd2ord_lt _ _ _ _ _ _ H H' ltac:(lia)); lia| |
   pose proof (ymd2ord_lt _ _ _ _ _ _ H' H ltac:(lia)); lia].
  destruct (Z.lt_trichotomy m m') as [Hm|[Hm|Hm]];
  [pose proof (ymd2ord_lt _ _ _ _ _ _ H H' ltac:(lia)); lia| |
   pose proof (ymd2ord_lt _ _ _ _ _ _ H' H ltac:(lia)); lia].
  destruct (Z.lt_trichotomy d d') as [Hd|[Hd|Hd]];
  [pose proof (ymd2ord_lt _ _ _ _ _ _ H H' ltac:(lia)); lia| |
   pose proof (ymd2ord_lt _ _ _ _ _ _ H' H ltac:(lia)); lia].
  auto.
Qed.

(** From a date to its ordinal and back. *)
Lemma ord2ymd_ymd2ord (y m d : Z) :
  check_date_fields y m d = true -> ord2ymd (ymd2ord y m d) = (y, m, d).
Proof.
  intros H.
  destruct (ord2ymd_spec (ymd2ord y m d) (ymd2ord_range y m d H))
    as (y' & m' & d' & -> & H' & E).
  destruct (ymd2ord_inj _ _ _ _ _ _ H' H E) as (-> & -> & ->). reflexivity.
Qed.

(** ** timedelta and the arithmetic of datetimes *)

(** A timedelta of whole days, seconds within a day and microseconds within
    a second is built as it is given. *)
Lemma timedelta_new_normal (d s us mi h : Z) :
  Z.abs d <= 999999999 -> 0 <= s + mi * 60 + h * 3600 < 86400 -> 0 <= us < 1000000 ->
  timedelta_new d s us mi h
  = Some {| days := d; seconds := s + mi * 60 + h * 3600; microseconds := us |}.
Proof.
  intros Hd Hs Hus. unfold timedelta_new. cbv zeta.
  change (24 * 3600) with 86400.
  generalize dependent (s + mi * 60 + h * 3600). clear s mi h. intros s Hs.
  rewrite !(Z.mod_small us), (Z.div_small us) by lia.
  rewrite (Z.mod_small s), (Z.div_small s) by lia.
  change (0 / 86400) with 0. change (0 mod 86400) with 0.
  replace (s + 0 + 0) with s by lia.
  rewrite (Z.mod_small s), (Z.div_small s) by lia.
  replace (d + 0 + 0 + 0) with d by lia.
  destruct (Z.ltb_spec 999999999 (Z.abs d)); [lia | reflexivity].
Qed.

Lemma time_fields_range (dt : datetime) :
  check_time_fields (hour dt) (minute dt) (second dt) (microsecond dt) = true ->
  0 <= hour dt <= 23 /\ 0 <= minute dt <= 59 /\ 0 <= second dt <= 59
  /\ 0 <= microsecond dt <= 999999.
Proof.
  unfold check_time_fields. intros H.
  repeat (apply andb_prop in H; destruct H as [H ?]). lia.
Qed.

(** The difference of two datetimes, borrowing a day when the time of day of
    the first is the earlier one. *)
Lemma dt_sub_days (a b : datetime) :
  valid_datetime a -> valid_datetime b ->
  exists td, dt_sub a b = Some td /\ days td = whole_days b a.
Proof.
  intros [Ha Hta] [Hb Htb].
  apply ymd2ord_range in Ha, Hb. apply time_fields_range in Hta, Htb.
  unfold dt_sub, whole_days, time_of_day, toordinal, timedelta_new in *. cbv zeta.
  change (24 * 3600) with 86400.
  set (oa := ymd2ord (year a) (month a) (day a)) in *.
  set (ob := ymd2ord (year b) (month b) (day b)) in *.
  unfold MAXORDINAL in *.
  set (s := second a + minute a * 60 + hour a * 3600 - (second b + minute b * 60 + hour b * 3600) + 0 * 60 + 0 * 3600).
  set (us := microsecond a - microsecond b).
  assert (Hs : -86400 < s < 86400) by (unfold s; lia).
  assert (Hus : -1000000 < us < 1000000) by (unfold us; lia).
  assert (E1 : us / 1000000 / 86400 = if us <? 0 then -1 else 0).
  { destruct (Z.ltb_spec us 0); Z.div_mod_to_equations; lia. }
  assert (E2 : us mod 1000000 / 1000000 = 0) by (Z.div_mod_to_equations; lia).
  assert (E3 : us / 1000000 mod 86400 = if us <? 0 then 86399 else 0).
  { destruct (Z.ltb_spec us 0); Z.div_mod_to_equations; lia. }
  rewrite E1, E2, E3.
  match goal with |- context [if 999999999 <? Z.abs ?d then _ else _] =>
    assert (Hd : d = oa - ob - (if (second a + minute a * 60 + hour a * 3600) * 1000000 + microsecond a
                                    <? (second b + minute b * 60 + hour b * 3600) * 1000000 + microsecond b
                                then 1 else 0))
  end.
  { fold s. destruct (Z.ltb_spec us 0);
      match goal with |- context [if ?x <? ?y then 1 else 0] => destruct (Z.ltb_spec x y) end;
      unfold s, us in *; Z.div_mod_to_equations; lia. }
  rewrite Hd. clear Hd.
  match goal with |- context [if 999999999 <? Z.abs ?d then _ else _] =>
    destruct (Z.ltb_spec 999999999 (Z.abs d)) as [Hbig|_]
  end.
  { exfalso. revert Hbig. match goal with |- context [if ?c then 1 else 0] => destruct c end; lia. }
  eexists. split; reflexivity.
Qed.

Lemma plus_days_valid (dt : datetime) (i : Z) :
  valid_datetime dt -> 1 <= toordinal dt + i <= MAXORDINAL ->
  valid_datetime (plus_days dt i) /\ toordinal (plus_days dt i) = toordinal dt + i.
Proof.
  intros [Hd Ht] Hi. unfold plus_days.
  destruct (ord2ymd_spec _ Hi) as (y & m & d & -> & Hv & E).
  repeat split; assumption.
Qed.

Lemma plus_days_0 (dt : datetime) : valid_datetime dt -> plus_days dt 0 = dt.
Proof.
  intros [Hd Ht]. unfold plus_days, toordinal. rewrite Z.add_0_r.
  rewrite ord2ymd_ymd2ord by assumption. now destruct dt.
Qed.

Lemma dt_add_days (dt : datetime) (i : Z) :
  valid_datetime dt -> 0 <= i -> toordinal dt + i <= MAXORDINAL ->
  exists td, timedelta_new i 0 0 0 0 = Some td /\ dt_add dt td = Some (plus_days dt i).
Proof.
  intros Hv Hi Hmax. pose proof Hv as [Hd Ht].
  pose proof (ymd2ord_range _ _ _ Hd) as Ho. fold (toordinal dt) in Ho.
  pose proof (time_fields_range _ Ht) as (Hh & Hmi & Hs & Hus).
  unfold MAXORDINAL in *.
  rewrite (timedelta_new_normal i 0 0 0 0) by lia.
  eexists. split; [reflexivity|].
  unfold dt_add.
  rewrite (timedelta_new_normal (toordinal dt)) by lia. cbn [mbind option_bind].
  unfold td_add. cbn [days seconds microseconds].
  rewrite (timedelta_new_normal _ _ _ 0 0) by lia. cbn [mbind option_bind days seconds microseconds].
  replace (second dt + minute dt * 60 + hour dt * 3600 + (0 + 0 * 60 + 0 * 3600) + 0 * 60 + 0 * 3600)
    with (second dt + minute dt * 60 + hour dt * 3600) by lia.
  replace (microsecond dt + 0) with (microsecond dt) by lia.
  assert (E1 : (second dt + minute dt * 60 + hour dt * 3600) / 3600 = hour dt)
    by (Z.div_mod_to_equations; lia).
  assert (E2 : (second dt + minute dt * 60 + hour dt * 3600) mod 3600 / 60 = minute dt)
    by (Z.div_mod_to_equations; lia).
  assert (E3 : (second dt + minute dt * 60 + hour dt * 3600) mod 3600 mod 60 = second dt)
    by (Z.div_mod_to_equations; lia).
  rewrite E1, E2, E3.
  destruct (Z.ltb_spec 0 (toordinal dt + i)); [|lia].
  destruct (Z.leb_spec (toordinal dt + i) MAXORDINAL); [|unfold MAXORDINAL in *; lia]. cbn [andb].
  unfold plus_days.
  destruct (ord2ymd_spec (toordinal dt + i)) as (y & m & d & -> & Hv' & E);
    [unfold MAXORDINAL; lia|].
  unfold datetime_new. rewrite Hv', Ht. reflexivity.
Qed.

Lemma dates_from_spec (date1 : datetime) (range : list Z) :
  valid_datetime date1 ->
  Forall (fun i => 0 <= i /\ toordinal date1 + i <= MAXORDINAL) range ->
  forall dates,
    dates_from date1 range dates = Some (dates ++ map (plus_days date1) range)%list.
Proof.
  intros Hv. induction 1 as [|i range [Hi Hmax] _ IH]; intros dates; simpl.
  - now rewrite app_nil_r.
  - destruct (dt_add_days date1 i Hv Hi Hmax) as (td & -> & Ha). cbn [mbind option_bind].
    rewrite Ha. cbn [mbind option_bind]. rewrite IH, <- app_assoc. reflexivity.
Qed.

(** [dates_between] returns: the datetimes one day apart from [date1] on,
    as many as there are whole days up to [date2], and one more with
    [include_end]. *)
Lemma dates_between_returns (date1 date2 : datetime) (include_end : bool) :
  valid_datetime date1 -> valid_datetime date2 ->
  dates_between date1 date2 include_end
  = Some (map (plus_days date1)
            (seqZ 0 (whole_days date1 date2 + (if include_end then 1 else 0)))).
Proof.
  intros H1 H2. unfold dates_between.
  destruct (dt_sub_days date2 date1 H2 H1) as (td & -> & Ed). cbn [mbind option_bind].
  rewrite Ed.
  replace (if include_end then whole_days date1 date2 + 1 else whole_days date1 date2)
    with (whole_days date1 date2 + (if include_end then 1 else 0))
    by (destruct include_end; lia).
  rewrite dates_from_spec; [reflexivity | assumption |].
  apply Forall_forall. intros i Hi. apply elem_of_seqZ in Hi.
  destruct H2 as [Hd2 _]. apply ymd2ord_range in Hd2. fold (toordinal date2) in Hd2.
  unfold whole_days in Hi.
  destruct (time_of_day date2 <? time_of_day date1), include_end; lia.
Qed.

(** Datetimes compare as their ordinals do, then as their times of day. *)
Lemma dt_ltb_ordinal (a b : datetime) :
  valid_datetime a -> valid_datetime b ->
  dt_ltb a b = true <->
  toordinal a < toordinal b
  \/ (toordinal a = toordinal b /\ time_of_day a < time_of_day b).
Proof.
  intros [Ha Hta] [Hb Htb].
  pose proof (time_fields_range _ Hta) as (Hh & Hmi & Hs & Hus).
  pose proof (time_fields_range _ Htb) as (Hh' & Hmi' & Hs' & Hus').
  destruct a as [y m d h mi s us], b as [y' m' d' h' mi' s' us'].
  unfold toordinal, time_of_day, dt_ltb, dt_compare. cbn [dt_fields year month day hour minute second microsecond lex_compare] in *.
  pose proof (ymd2ord_lt y m d y' m' d' Ha Hb) as Hlt.
  pose proof (ymd2ord_lt y' m' d' y m d Hb Ha) as Hgt.
  destruct (Z.compare_spec y y') as [->| |]; [|split; [lia | reflexivity]|split; [discriminate | lia]].
  destruct (Z.compare_spec m m') as [->| |]; [|split; [lia | reflexivity]|split; [discriminate | lia]].
  destruct (Z.compare_spec d d') as [->| |]; [|split; [lia | reflexivity]|split; [discriminate | lia]].
  clear Hlt Hgt.
  destruct (Z.compare_spec h h') as [->| |]; [|split; [lia | reflexivity]|split; [discriminate | lia]].
  destruct (Z.compare_spec mi mi') as [->| |]; [|split; [lia | reflexivity]|split; [discriminate | lia]].
  destruct (Z.compare_spec s s') as [->| |]; [|split; [lia | reflexivity]|split; [discriminate | lia]].
  destruct (Z.compare_spec us us') as [->| |]; split; (discriminate || lia || reflexivity).
Qed.

Lemma dt_ltb_ordinal_false (a b : datetime) :
  valid_datetime a -> valid_datetime b ->
  dt_ltb a b = false <->
  toordinal b < toordinal a
  \/ (toordinal a = toordinal b /\ time_of_day b <= time_of_day a).
Proof.
  intros Ha Hb. pose proof (dt_ltb_ordinal a b Ha Hb) as H.
  destruct (dt_ltb a b); split; intros; try discriminate; try reflexivity.
  - exfalso. destruct H as [H _]. specialize (H eq_refl). lia.
  - destruct (Z.lt_trichotomy (toordinal a) (toordinal b)) as [Hlt|[Heq|Hgt]];
      [|right; split; [exact Heq|]|left; exact Hgt].
    + destruct H as [_ H]. discriminate H. auto.
    + destruct (Z.le_gt_cases (time_of_day b) (time_of_day a)) as [Hle|Hgt]; [exact Hle|].
      destruct H as [_ H]. discriminate H. right. split; [assumption | lia].
Qed.

(** ** dates_between *)

Lemma whole_days_le (date1 date2 : datetime) :
  whole_days date1 date2 <= toordinal date2 - toordinal date1.
Proof. unfold whole_days. destruct (_ <? _); lia. Qed.

Lemma plus_days_time (dt : datetime) (i : Z) :
  hour (plus_days dt i) = hour dt /\ minute (plus_days dt i) = minute dt
  /\ second (plus_days dt i) = second dt /\ microsecond (plus_days dt i) = microsecond dt.
Proof.
  unfold plus_days. generalize (ord2ymd (toordinal dt + i)).
  intros [[y m] d]. cbn [hour minute second microsecond]. auto.
Qed.

Lemma plus_days_time_of_day (dt : datetime) (i : Z) :
  time_of_day (plus_days dt i) = time_of_day dt.
Proof.
  unfold time_of_day. destruct (plus_days_time dt i) as (Eh & Em & Es & Eu).
  congruence.
Qed.

(** The elements of the list [dates_between] returns. *)
Lemma dates_between_lookup (date1 date2 : datetime) (include_end : bool)
    (dates : list datetime) (i : nat) (x : datetime) :
  valid_datetime date1 -> valid_datetime date2 ->
  dates_between date1 date2 include_end = Some dates ->
  dates !! i = Some x ->
  x = plus_days date1 (Z.of_nat i)
  /\ Z.of_nat i < whole_days date1 date2 + (if include_end then 1 else 0)
  /\ toordinal date1 + Z.of_nat i <= toordinal date2.
Proof.
  intros H1 H2 Hd Hi. rewrite dates_between_returns in Hd by assumption.
  injection Hd as <-. 
  change (map (plus_days date1)) with (fmap (M := list) (plus_days date1)) in Hi.
  rewrite list_lookup_fmap in Hi.
  destruct (seqZ 0 _ !! i) as [k|] eqn:Ek; [|discriminate].
  cbn [fmap option_fmap option_map] in Hi.
  assert (Ex : x = plus_days date1 k) by congruence.
  apply lookup_seqZ in Ek as [Ek Hlt]. rewrite Z.add_0_l in Ek. subst k.
  pose proof (whole_days_le date1 date2).
  split; [exact Ex|]. split; [exact Hlt|]. destruct include_end; lia.
Qed.

Lemma dates_between_element (date1 date2 : datetime) (include_end : bool)
    (dates : list datetime) (i : nat) (x : datetime) :
  valid_datetime date1 -> valid_datetime date2 ->
  dates_between date1 date2 include_end = Some dates ->
  dates !! i = Some x ->
  valid_datetime x /\ toordinal x = toordinal date1 + Z.of_nat i
  /\ time_of_day x = time_of_day date1
  /\ Z.of_nat i < whole_days date1 date2 + (if include_end then 1 else 0).
Proof.
  intros H1 H2 Hd Hi.
  destruct (dates_between_lookup _ _ _ _ _ _ H1 H2 Hd Hi) as (Ex & Hlt & Hle).
  assert (Hr : 1 <= toordinal date1 + Z.of_nat i <= MAXORDINAL).
  { destruct H1 as [Hd1 _], H2 as [Hd2 _]. apply ymd2ord_range in Hd1, Hd2.
    unfold toordinal in *. lia. }
  destruct (plus_days_valid date1 (Z.of_nat i) H1 Hr) as [Hv Ho].
  rewrite Ex. rewrite plus_days_time_of_day. auto.
Qed.

(** Without [include_end] every date of the list is earlier than [date2]. *)
Lemma dates_between_before_end (date1 date2 : datetime) (dates : list datetime)
    (x : datetime) :
  valid_datetime date1 -> valid_datetime date2 ->
  dates_between date1 date2 false = Some dates ->
  x ∈ dates -> dt_ltb x date2 = true.
Proof.
  intros H1 H2 Hd Hx. apply list_elem_of_lookup_1 in Hx as [i Hi].
  destruct (dates_between_element _ _ _ _ _ _ H1 H2 Hd Hi) as (Hv & Ho & Et & Hlt).
  apply dt_ltb_ordinal; [assumption..|]. unfold whole_days in Hlt.
  destruct (Z.ltb_spec (time_of_day date2) (time_of_day date1)); lia.
Qed.

Lemma time_of_day_inj (a b : datetime) :
  valid_datetime a -> valid_datetime b -> time_of_day a = time_of_day b ->
  hour a = hour b /\ minute a = minute b /\ second a = second b
  /\ microsecond a = microsecond b.
Proof.
  intros [_ Ha] [_ Hb]. apply time_fields_range in Ha, Hb.
  unfold time_of_day. lia.
Qed.

(** The date as many days after [date1] as [date2] is, at the time of day
    of [date1]. *)
Lemma plus_days_reaches (date1 date2 : datetime) :
  valid_datetime date1 -> valid_datetime date2 ->
  time_of_day date2 = time_of_day date1 ->
  plus_days date1 (toordinal date2 - toordinal date1) = date2.
Proof.
  intros H1 H2 Et.
  destruct (time_of_day_inj date2 date1 H2 H1 Et) as (Eh & Em & Es & Eu).
  unfold plus_days.
  replace (toordinal date1 + (toordinal date2 - toordinal date1))
    with (toordinal date2) by lia.
  unfold toordinal at 1. rewrite ord2ymd_ymd2ord by apply H2.
  rewrite <- Eh, <- Em, <- Es, <- Eu. now destruct date2.
Qed.

(** X1: on two datetimes of the calendar [dates_between] never raises, in
    particular not OverflowError at the end of the calendar.  It returns as
    many datetimes as there are whole days from [date1] to [date2], and one
    more with [include_end]; when [date2] is the earlier one the list is
    empty, with or without [include_end]. *)
Theorem dates_between_length (date1 date2 : datetime) (include_end : bool) :
  valid_datetime date1 -> valid_datetime date2 ->
  exists dates,
    dates_between date1 date2 include_end = Some dates
    /\ length dates
       = Z.to_nat (whole_days date1 date2 + (if include_end then 1 else 0))
    /\ (dt_ltb date2 date1 = true -> dates = []).
Proof.
  intros H1 H2. rewrite dates_between_returns by assumption.
  eexists. split; [reflexivity|]. split.
  - now rewrite length_map, length_seqZ.
  - intros Hlt. apply dt_ltb_ordinal in Hlt; [|assumption..].
    assert (Hn : whole_days date1 date2 + (if include_end then 1 else 0) <= 0).
    { unfold whole_days.
      destruct (Z.ltb_spec (time_of_day date2) (time_of_day date1)), include_end; lia. }
    apply nil_length_inv. rewrite length_map, length_seqZ. lia.
Qed.

Lemma dates_between_length_witness :
  exists dates,
    dates_between (date 2020 1 1) (date 2021 1 1) true = Some dates
    /\ length dates = 367%nat
    /\ (dt_ltb (date 2021 1 1) (date 2020 1 1) = true -> dates = []).
Proof.
  apply (dates_between_length (date 2020 1 1) (date 2021 1 1) true); split; reflexivity.
Defined.

(** X2: the dates [dates_between] returns are one day apart from [date1]
    on: the one at index [i] is a datetime of the calendar [i] days after
    [date1], at the time of day of [date1], whatever the time of day of
    [date2]; the first one is [date1] itself. *)
Theorem dates_between_days_apart (date1 date2 : datetime) (include_end : bool)
    (dates : list datetime) :
  valid_datetime date1 -> valid_datetime date2 ->
  dates_between date1 date2 include_end = Some dates ->
  forall (i : nat) (x : datetime),
    dates !! i = Some x ->
    valid_datetime x
    /\ toordinal x = toordinal date1 + Z.of_nat i
    /\ hour x = hour date1 /\ minute x = minute date1
    /\ second x = second date1 /\ microsecond x = microsecond date1
    /\ (i = O -> x = date1).
Proof.
  intros H1 H2 Hd i x Hi.
  destruct (dates_between_lookup _ _ _ _ _ _ H1 H2 Hd Hi) as (-> & Hlt & Hle).
  assert (Hr : 1 <= toordinal date1 + Z.of_nat i <= MAXORDINAL).
  { destruct H1 as [Hd1 _], H2 as [Hd2 _]. apply ymd2ord_range in Hd1, Hd2.
    unfold toordinal in *. lia. }
  destruct (plus_days_valid date1 (Z.of_nat i) H1 Hr) as [Hv Ho].
  split; [exact Hv|]. split; [exact Ho|].
  destruct (plus_days_time date1 (Z.of_nat i)) as (Eh & Em & Es & Eu).
  repeat split; try assumption.
  intros ->. now apply plus_days_0.
Qed.

Lemma dates_between_days_apart_witness :
  valid_datetime (mk_datetime 2020 3 1 6 30 0 0)
  /\ toordinal (mk_datetime 2020 3 1 6 30 0 0) = toordinal (mk_datetime 2020 2 28 6 30 0 0) + 2
  /\ hour (mk_datetime 2020 3 1 6 30 0 0) = 6 /\ minute (mk_datetime 2020 3 1 6 30 0 0) = 30
  /\ second (mk_datetime 2020 3 1 6 30 0 0) = 0
  /\ microsecond (mk_datetime 2020 3 1 6 30 0 0) = 0
  /\ (2%nat = O -> mk_datetime 2020 3 1 6 30 0 0 = mk_datetime 2020 2 28 6 30 0 0).
Proof.
  apply (dates_between_days_apart (mk_datetime 2020 2 28 6 30 0 0) (date 2020 3 5) false
           [ mk_datetime 2020 2 28 6 30 0 0; mk_datetime 2020 2 29 6 30 0 0;
             mk_datetime 2020 3 1 6 30 0 0; mk_datetime 2020 3 2 6 30 0 0;
             mk_datetime 2020 3 3 6 30 0 0 ]
           ltac:(split; reflexivity) ltac:(split; reflexivity) ltac:(vm_compute; reflexivity)
           2%nat _ eq_refl).
Defined.

(** X3: every date [dates_between] returns lies between [date1] and [date2]:
    it is not earlier than [date1]; with [include_end] it is not later than
    [date2], without it is earlier than [date2]; and the dates come in
    strictly increasing order. *)
Theorem dates_between_within (date1 date2 : datetime) (include_end : bool)
    (dates : list datetime) :
  valid_datetime date1 -> valid_datetime date2 ->
  dates_between date1 date2 include_end = Some dates ->
  (forall x, x ∈ dates ->
     dt_ltb x date1 = false
     /\ if include_end then dt_ltb date2 x = false else dt_ltb x date2 = true)
  /\ (forall (i j : nat) (x x' : datetime),
        (i < j)%nat -> dates !! i = Some x -> dates !! j = Some x' ->
        dt_ltb x x' = true).
Proof.
  intros H1 H2 Hd.
  assert (Hel := fun i x => dates_between_element date1 date2 include_end dates i x H1 H2 Hd).
  split.
  - intros x Hx. apply list_elem_of_lookup_1 in Hx as [i Hi].
    destruct (Hel i x Hi) as (Hv & Ho & Et & Hlt). split.
    + apply dt_ltb_ordinal_false; [assumption..|]. lia.
    + unfold whole_days in Hlt.
      destruct (Z.ltb_spec (time_of_day date2) (time_of_day date1)), include_end.
      * apply dt_ltb_ordinal_false; [assumption..|]. lia.
      * apply dt_ltb_ordinal; [assumption..|]. lia.
      * apply dt_ltb_ordinal_false; [assumption..|]. lia.
      * apply dt_ltb_ordinal; [assumption..|]. lia.
  - intros i j x x' Hij Hi Hj.
    destruct (Hel i x Hi) as (Hv & Ho & Et & _).
    destruct (Hel j x' Hj) as (Hv' & Ho' & Et' & _).
    apply dt_ltb_ordinal; [assumption..|]. lia.
Qed.

Lemma dates_between_within_witness :
  (forall x, x ∈ [date 2019 12 31; date 2020 1 1] ->
     dt_ltb x (date 2019 12 31) = false /\ dt_ltb x (mk_datetime 2020 1 2 8 0 0 0) = true)
  /\ (forall (i j : nat) (x x' : datetime),
        (i < j)%nat -> [date 2019 12 31; date 2020 1 1] !! i = Some x ->
        [date 2019 12 31; date 2020 1 1] !! j = Some x' -> dt_ltb x x' = true).
Proof.
  exact (dates_between_within (date 2019 12 31) (mk_datetime 2020 1 2 8 0 0 0) false
           [date 2019 12 31; date 2020 1 1]
           ltac:(split; reflexivity) ltac:(split; reflexivity)
           ltac:(vm_compute; reflexivity)).
Defined.

(** X4: without [include_end] the list is the list with [include_end] less
    its last date; both are empty when [date2] is earlier than [date1]. *)
Theorem dates_between_exclusive (date1 date2 : datetime) (dates : list datetime) :
  valid_datetime date1 -> valid_datetime date2 ->
  dates_between date1 date2 true = Some dates ->
  dates_between date1 date2 false = Some (removelast dates).
Proof.
  intros H1 H2 Hd. rewrite dates_between_returns in * by assumption.
  assert (Ed : dates = map (plus_days date1)
                 (seqZ 0 (whole_days date1 date2 + 1))) by congruence.
  rewrite Ed. f_equal. rewrite Z.add_0_r.
  destruct (Z.le_gt_cases 0 (whole_days date1 date2)) as [Hge|Hlt].
  - rewrite seqZ_app by lia. rewrite map_app.
    change (seqZ (0 + whole_days date1 date2) 1) with [0 + whole_days date1 date2].
    cbn [map]. now rewrite removelast_last.
  - assert (E0 : seqZ 0 (whole_days date1 date2) = []).
    { apply nil_length_inv. rewrite length_seqZ. lia. }
    assert (E1 : seqZ 0 (whole_days date1 date2 + 1) = []).
    { apply nil_length_inv. rewrite length_seqZ. lia. }
    now rewrite E0, E1.
Qed.

Lemma dates_between_exclusive_witness :
  dates_between (date 2020 2 28) (date 2020 3 1) false
  = Some [date 2020 2 28; date 2020 2 29].
Proof.
  exact (dates_between_exclusive (date 2020 2 28) (date 2020 3 1)
           [date 2020 2 28; date 2020 2 29; date 2020 3 1]
           ltac:(split; reflexivity) ltac:(split; reflexivity)
           ltac:(vm_compute; reflexivity)).
Defined.

(** X5: with [include_end], [date2] itself is in the list exactly when it is
    not earlier than [date1] and has the time of day of [date1], and it is
    then the last date of the list; without [include_end] it is never in
    the list. *)
Theorem dates_between_end (date1 date2 : datetime) (dates : list datetime) :
  valid_datetime date1 -> valid_datetime date2 ->
  dates_between date1 date2 true = Some dates ->
  (date2 ∈ dates <->
     dt_ltb date2 date1 = false /\ time_of_day date2 = time_of_day date1)
  /\ (date2 ∈ dates -> last dates = Some date2)
  /\ (forall dates', dates_between date1 date2 false = Some dates' -> date2 ∉ dates').
Proof.
  intros H1 H2 Hd.
  assert (Hin : date2 ∈ dates ->
                dt_ltb date2 date1 = false /\ time_of_day date2 = time_of_day date1).
  { intros Hx. apply list_elem_of_lookup_1 in Hx as [i Hi].
    destruct (dates_between_element _ _ _ _ _ _ H1 H2 Hd Hi) as (_ & Ho & Et & _).
    split; [|exact Et]. apply dt_ltb_ordinal_false; [assumption..|]. lia. }
  assert (Hlast : dt_ltb date2 date1 = false -> time_of_day date2 = time_of_day date1 ->
                  last dates = Some date2).
  { intros Hge Et. apply dt_ltb_ordinal_false in Hge; [|assumption..].
    rewrite dates_between_returns in Hd by assumption.
    assert (Ed : dates = map (plus_days date1)
                   (seqZ 0 (whole_days date1 date2 + 1))) by congruence.
    assert (Ew : whole_days date1 date2 = toordinal date2 - toordinal date1).
    { unfold whole_days. rewrite Et, Z.ltb_irrefl. lia. }
    rewrite Ed, Ew, seqZ_app, map_app by lia.
    change (seqZ (0 + (toordinal date2 - toordinal date1)) 1)
      with [0 + (toordinal date2 - toordinal date1)].
    cbn [map]. rewrite last_snoc, Z.add_0_l. f_equal.
    now apply plus_days_reaches. }
  split; [split; [exact Hin|]|split].
  - intros [Hge Et]. apply last_Some_elem_of. now apply Hlast.
  - intros Hx. destruct (Hin Hx) as [Hge Et]. now apply Hlast.
  - intros dates' Hd' Hx.
    pose proof (dates_between_before_end _ _ _ _ H1 H2 Hd' Hx) as Hlt.
    pose proof (dt_ltb_asym _ _ Hlt). congruence.
Qed.

Lemma dates_between_end_witness :
  last [date 2020 12 30; date 2020 12 31; date 2021 1 1] = Some (date 2021 1 1).
Proof.
  apply (proj1 (proj2 (dates_between_end (date 2020 12 30) (date 2021 1 1) _
           ltac:(split; reflexivity) ltac:(split; reflexivity)
           ltac:(vm_compute; reflexivity)))).
  apply list_elem_of_further, list_elem_of_further, list_elem_of_here.
Defined.


(** ** What a match consumed *)

Section MatcherInversion.
Context {A : Type}.

Lemma re_class_Some (p : ascii -> bool) (s : string) (k : Z -> string -> option A) (r : A) :
  re_class p s k = Some r ->
  exists c s', s = String c s' /\ p c = true /\ k (digit_val c) s' = Some r.
Proof.
  unfold re_class. destruct s as [|c s']; [discriminate|].
  destruct (p c) eqn:E; [|discriminate]. eauto.
Qed.

Lemma re_literal_Some (p : string) :
  forall (s : string) (k : string -> option A) (r : A),
    re_literal p s k = Some r ->
    exists t s', s = t +:+ s' /\ String.length t = String.length p /\ k s' = Some r.
Proof.
  induction p as [|pc p IH]; intros s k r; simpl.
  - intros H. exists "", s. auto.
  - destruct s as [|c s]; [discriminate|].
    destruct (Ascii.eqb (lower c) pc); [|discriminate].
    intros H. apply IH in H as (t & s' & -> & Hl & Hk).
    exists (String c t), s'. simpl. auto.
Qed.

Lemma re_alt_Some {V : Type} (alts : list (matcher V)) (s : string)
    (k : V -> string -> option A) (r : A) :
  re_alt alts s k = Some r -> exists m, m ∈ alts /\ m s k = Some r.
Proof.
  induction alts as [|m alts IH]; simpl; [discriminate|].
  destruct (m s k) as [r'|] eqn:E.
  - intros [= <-]. exists m. split; [apply list_elem_of_here | exact E].
  - intros H. destruct (IH H) as (m' & Hin & Hm). exists m'.
    split; [now apply list_elem_of_further | exact Hm].
Qed.

Lemma re_spaces_star_Some (s : string) (k : string -> option A) (r : A) :
  re_spaces_star s k = Some r ->
  exists w s', s = w +:+ s' /\ k s' = Some r.
Proof.
  induction s as [|c s IH]; simpl.
  - intros H. exists "", "". auto.
  - destruct (is_space c).
    + destruct (re_spaces_star s k) as [r'|] eqn:E.
      * intros [= <-]. destruct (IH eq_refl) as (w & s' & -> & Hk).
        exists (String c w), s'. auto.
      * intros H. exists "", (String c s). auto.
    + intros H. exists "", (String c s). auto.
Qed.

Lemma re_spaces_plus_Some (s : string) (k : string -> option A) (r : A) :
  re_spaces_plus s k = Some r ->
  exists w s', s = w +:+ s' /\ k s' = Some r.
Proof.
  unfold re_spaces_plus. destruct s as [|c s]; [discriminate|].
  destruct (is_space c); [|discriminate].
  intros H. apply re_spaces_star_Some in H as (w & s' & -> & Hk).
  exists (String c w), s'. auto.
Qed.

Lemma re_Y_Some (s : string) (k : Z -> string -> option A) (r : A) :
  re_Y s k = Some r -> exists y s', k y s' = Some r.
Proof.
  unfold re_Y. intros H.
  apply re_class_Some in H as (c1 & s1 & _ & _ & H).
  apply re_class_Some in H as (c2 & s2 & _ & _ & H).
  apply re_class_Some in H as (c3 & s3 & _ & _ & H).
  apply re_class_Some in H as (c4 & s4 & _ & _ & H). eauto.
Qed.

Lemma re_b_Some (s : string) (k : Z -> string -> option A) (r : A) :
  re_b s k = Some r -> exists m s', 1 <= m <= 12 /\ k m s' = Some r.
Proof.
  unfold re_b. intros H. apply re_alt_Some in H as (m & Hin & H).
  apply list_elem_of_lookup_1 in Hin as [i Hi].
  rewrite list_lookup_imap in Hi.
  destruct (a_month !! i) as [name|] eqn:En; [|discriminate]. injection Hi as <-.
  apply re_literal_Some in H as (t & s' & _ & _ & H).
  apply lookup_lt_Some in En. simpl in En.
  exists (Z.of_nat i + 1), s'. split; [lia | exact H].
Qed.
End MatcherInversion.

(** The month-precision format leaves the day at its default. *)
Lemma strptime_Yb_first (s : string) (dt : datetime) :
  strptime s fmt_Yb = Ok dt -> day dt = 1 /\ 1 <= month dt <= 12.
Proof.
  unfold strptime. destruct (re_match fmt_Yb s _) as [[f rest]|] eqn:Em; [|discriminate].
  destruct (String.eqb rest ""); [|discriminate].
  unfold fmt_Yb in Em. cbn [re_match found_Y found_b found_d] in Em.
  apply re_Y_Some in Em as (y & s1 & Em).
  apply re_spaces_plus_Some in Em as (w & s2 & _ & Em).
  apply re_b_Some in Em as (m & s3 & Hm & Em). injection Em as <- _.
  cbn [found_Y found_b found_d default]. intros H.
  apply datetime_new_Ok in H as (-> & _ & _). auto.
Qed.

(** ** increment_month on any day *)

Lemma next_month_valid (dt : datetime) :
  valid_datetime dt -> month_index dt < LAST_MONTH ->
  1 <= year (next_month dt) <= 9999 /\ 1 <= month (next_month dt) <= 12
  /\ month_index (next_month dt) = month_index dt + 1.
Proof.
  intros [Hd _] Hlt. apply check_date_fields_range in Hd as (Hy & Hm & _).
  unfold month_index, LAST_MONTH, MAXYEAR, next_month in *. simpl.
  destruct (Z.eqb_spec (month dt) 12); lia.
Qed.

Lemma increment_month_replace (dt : datetime) :
  increment_month dt
  = datetime_new (year (next_month dt)) (month (next_month dt)) (day dt)
                 (hour dt) (minute dt) (second dt) (microsecond dt).
Proof.
  unfold increment_month, replace, next_month. simpl.
  destruct (month dt =? 12); reflexivity.
Qed.

Lemma days_in_month_ge_28 (y m : Z) : 1 <= m <= 12 -> 28 <= days_in_month y m.
Proof.
  intros Hm. unfold days_in_month. destruct (_ && _); [lia|].
  enum_Z m 1 12%nat ltac:(simpl; lia).
Qed.

(** X8: [increment_month] on any day of a month.  It returns exactly when
    the month is not December 9999 and the following month has that day;
    what it returns is the same day and time of day of the following month,
    a later datetime of the calendar; otherwise it raises ValueError, as on
    January 31.  Up to the 28th it returns in every month but the last. *)
Theorem increment_month_any_day (dt : datetime) :
  valid_datetime dt ->
  ((exists nxt, increment_month dt = Ok nxt) <->
     month_index dt < LAST_MONTH
     /\ day dt <= days_in_month (year (next_month dt)) (month (next_month dt)))
  /\ (forall nxt, increment_month dt = Ok nxt ->
        nxt = next_month dt /\ valid_datetime nxt
        /\ month_index nxt = month_index dt + 1 /\ day nxt = day dt
        /\ hour nxt = hour dt /\ minute nxt = minute dt
        /\ second nxt = second dt /\ microsecond nxt = microsecond dt
        /\ dt_ltb dt nxt = true)
  /\ (forall e, increment_month dt = Raise e -> e = ValueError)
  /\ (day dt <= 28 -> month_index dt < LAST_MONTH ->
      increment_month dt = Ok (next_month dt)).
Proof.
  intros Hv. pose proof Hv as [Hd Ht].
  pose proof (check_date_fields_elim _ _ _ Hd) as (Hy & Hm & Hday).
  assert (Hok : month_index dt < LAST_MONTH ->
                day dt <= days_in_month (year (next_month dt)) (month (next_month dt)) ->
                increment_month dt = Ok (next_month dt)).
  { intros Hlt Hle. destruct (next_month_valid dt Hv Hlt) as (Hy' & Hm' & _).
    rewrite increment_month_replace. unfold datetime_new.
    rewrite check_date_fields_intro, Ht by lia. reflexivity. }
  assert (Hret : forall nxt, increment_month dt = Ok nxt ->
                 nxt = next_month dt
                 /\ check_date_fields (year (next_month dt)) (month (next_month dt))
                      (day dt) = true).
  { intros nxt H. rewrite increment_month_replace in H.
    apply datetime_new_Ok in H as (-> & H1 & _). split; [reflexivity | exact H1]. }
  split; [split|split; [|split]].
  - intros [nxt H]. destruct (Hret nxt H) as [_ Hc].
    apply check_date_fields_elim in Hc as (Hy' & Hm' & Hd').
    split; [|lia].
    unfold month_index, LAST_MONTH, MAXYEAR, next_month in *. simpl in *.
    destruct (Z.eqb_spec (month dt) 12); lia.
  - intros [Hlt Hle]. eauto.
  - intros nxt H. destruct (Hret nxt H) as [-> Hc].
    split; [reflexivity|]. split; [split; [exact Hc | exact Ht]|].
    split; [apply month_index_next|]. do 5 (split; [reflexivity|]).
    unfold dt_ltb, dt_compare, next_month. simpl.
    destruct (Z.eqb_spec (month dt) 12) as [E|E].
    + destruct (Z.compare_spec (year dt) (year dt + 1)); (reflexivity || lia).
    + rewrite Z.compare_refl.
      destruct (Z.compare_spec (month dt) (month dt + 1)); (reflexivity || lia).
  - apply increment_month_Raise.
  - intros H28 Hlt. apply Hok; [assumption|].
    destruct (next_month_valid dt Hv Hlt) as (_ & Hm' & _).
    pose proof (days_in_month_ge_28 (year (next_month dt)) (month (next_month dt)) Hm').
    lia.
Qed.

Lemma increment_month_any_day_witness :
  increment_month (mk_datetime 2021 1 15 9 30 0 0)
  = Ok (next_month (mk_datetime 2021 1 15 9 30 0 0))
  /\ ~ (exists nxt, increment_month (date 2021 1 31) = Ok nxt).
Proof.
  split.
  - apply (proj2 (proj2 (proj2 (increment_month_any_day (mk_datetime 2021 1 15 9 30 0 0)
             ltac:(split; reflexivity))))); [simpl; lia | reflexivity].
  - intros H.
    apply (proj1 (proj1 (increment_month_any_day (date 2021 1 31)
             ltac:(split; reflexivity)))) in H.
    destruct H as [_ H]. vm_compute in H. now apply H.
Defined.

(** ** What read_date returns *)

(** X6: what [read_date] can return.  A string it returns is ["-"], for the
    empty string and for ["-"], or ["*"], for ["*"] only.  A datetime it
    returns is a date of the calendar at midnight, read from a string that
    is no sentinel: the date the day-precision format gives, or else, that
    format having raised, the date the month-precision format gives, which
    is a first of the month. *)
Theorem read_date_returns (s : string) (v : pyval) :
  read_date s = Ok v ->
  match v with
  | VDate dt =>
      valid_datetime dt /\ midnight dt /\ ~ is_sentinel s
      /\ (strptime (strip_uncertain s) fmt_Ybd = Ok dt
          \/ (strptime (strip_uncertain s) fmt_Ybd = Raise ValueError
              /\ strptime (strip_uncertain s) fmt_Yb = Ok dt /\ day dt = 1))
  | VStr t => (t = "-" /\ (s = "" \/ s = "-")) \/ (t = "*" /\ s = "*")
  end.
Proof.
  intros H. pose proof (read_date_Ok s v H) as Hv.
  destruct v as [dt|t].
  - destruct Hv as [Hvalid Hmid].
    assert (Hs : ~ is_sentinel s).
    { intros [-> | [-> | ->]]; discriminate. }
    split; [exact Hvalid|]. split; [exact Hmid|]. split; [exact Hs|].
    rewrite read_date_parse in H by assumption.
    destruct (strptime (strip_uncertain s) fmt_Ybd) as [d1|e1] eqn:E1.
    + left. simpl in H. congruence.
    + right. pose proof (strptime_Raise _ _ _ E1) as ->. split; [reflexivity|].
      simpl in H.
      destruct (strptime (strip_uncertain s) fmt_Yb) as [d2|e2] eqn:E2; [|discriminate].
      injection H as <-. split; [reflexivity|].
      now apply strptime_Yb_first in E2.
  - unfold read_date in H.
    destruct (String.eqb_spec s ""); [injection H as <-; auto|].
    destruct (String.eqb_spec s "*"); [injection H as <-; auto|].
    destruct (String.eqb_spec s "-"); [injection H as <-; subst; auto|]. simpl in H.
    apply bind_Ok in H as (dt & _ & H). discriminate.
Qed.

Lemma read_date_returns_witness :
  valid_datetime (date 1998 11 1) /\ midnight (date 1998 11 1)
  /\ ~ is_sentinel "1998 Nov?"
  /\ (strptime (strip_uncertain "1998 Nov?") fmt_Ybd = Ok (date 1998 11 1)
      \/ (strptime (strip_uncertain "1998 Nov?") fmt_Ybd = Raise ValueError
          /\ strptime (strip_uncertain "1998 Nov?") fmt_Yb = Ok (date 1998 11 1)
          /\ day (date 1998 11 1) = 1)).
Proof. exact (read_date_returns "1998 Nov?" (VDate (date 1998 11 1)) eq_refl). Defined.

(** ** The launches read_csv returns *)

Lemma read_row_Ok (row : csv_row) (l : launch) :
  read_row row = Ok l ->
  exists a b c va vb vc,
    row !! "Launch Date" = Some a /\ row !! "Fail Date" = Some b
    /\ row !! "Reentry Date" = Some c
    /\ read_date a = Ok va /\ read_date b = Ok vb /\ read_date c = Ok vc
    /\ l = <["Reentry Date" := vc]> (<["Fail Date" := vb]>
             (<["Launch Date" := va]> (VStr <$> row))).
Proof.
  unfold read_row, getitem. intros H.
  destruct (row !! "Launch Date") as [a|] eqn:Ha; [|discriminate]. cbn [bind] in H.
  destruct (read_date a) as [va|] eqn:Ra; [|discriminate]. cbn [bind] in H.
  destruct (row !! "Fail Date") as [b|] eqn:Hb; [|discriminate]. cbn [bind] in H.
  destruct (read_date b) as [vb|] eqn:Rb; [|discriminate]. cbn [bind] in H.
  destruct (row !! "Reentry Date") as [c|] eqn:Hc; [|discriminate]. cbn [bind] in H.
  destruct (read_date c) as [vc|] eqn:Rc; [|discriminate]. cbn [bind] in H.
  injection H as <-. exists a, b, c, va, vb, vc. auto 10.
Qed.

Lemma read_row_returns (row : csv_row) :
  (forall col, col ∈ date_columns ->
     exists s v, row !! col = Some s /\ read_date s = Ok v) ->
  exists l, read_row row = Ok l.
Proof.
  intros H. unfold date_columns in H.
  destruct (H "Launch Date") as (a & va & Ha & Ra); [set_solver|].
  destruct (H "Fail Date") as (b & vb & Hb & Rb); [set_solver|].
  destruct (H "Reentry Date") as (c & vc & Hc & Rc); [set_solver|].
  rewrite (read_row_columns row a b c) by assumption.
  rewrite Ra, Rb, Rc. cbn [bind]. eauto.
Qed.

(** X7: what [read_csv] returns.  The launches come one per row and in the
    order of the rows; in a launch each of the three date columns holds what
    [read_date] returns for the text of the row, and every other column
    holds the text of the row unchanged, no column being added or dropped.
    [read_csv] returns exactly when every row has the three date columns
    and [read_date] returns for each of them. *)
Theorem read_csv_rows (rows : list csv_row) :
  (forall parsed, read_csv rows = Ok parsed ->
     Forall2 (fun row l =>
        (forall col, col ∈ date_columns ->
           exists s v, row !! col = Some s /\ read_date s = Ok v /\ l !! col = Some v)
        /\ (forall col, col ∉ date_columns -> l !! col = VStr <$> row !! col))
       rows parsed)
  /\ ((exists parsed, read_csv rows = Ok parsed) <->
      Forall (fun row => forall col, col ∈ date_columns ->
                exists s v, row !! col = Some s /\ read_date s = Ok v) rows).
Proof.
  assert (Hrow : forall row l, read_row row = Ok l ->
            (forall col, col ∈ date_columns ->
               exists s v, row !! col = Some s /\ read_date s = Ok v /\ l !! col = Some v)
            /\ (forall col, col ∉ date_columns -> l !! col = VStr <$> row !! col)).
  { intros row l H.
    apply read_row_Ok in H as (a & b & c & va & vb & vc & Ha & Hb & Hc & Ra & Rb & Rc & ->).
    unfold date_columns. split.
    - intros col Hcol.
      apply elem_of_cons in Hcol as [->|Hcol];
        [exists a, va; repeat split; try assumption;
         rewrite !lookup_insert_ne by discriminate; apply lookup_insert_eq|].
      apply elem_of_cons in Hcol as [->|Hcol];
        [exists b, vb; repeat split; try assumption;
         rewrite !lookup_insert_ne by discriminate; apply lookup_insert_eq|].
      apply elem_of_cons in Hcol as [->|Hcol];
        [exists c, vc; repeat split; try assumption; apply lookup_insert_eq|].
      now apply not_elem_of_nil in Hcol.
    - intros col Hcol.
      rewrite !lookup_insert_ne by (intros <-; apply Hcol; set_solver).
      apply lookup_fmap. }
  split; [|split].
  - intros parsed H. apply read_csv_Ok in H.
    induction H as [|row l rows parsed Hl _ IH]; constructor; auto.
  - intros [parsed H]. apply read_csv_Ok in H.
    induction H as [|row l rows parsed Hl _ IH]; constructor; [|assumption].
    intros col Hcol. destruct (Hrow row l Hl) as [Hd _].
    destruct (Hd col Hcol) as (s & v & Hs & Hv & _). eauto.
  - induction 1 as [|row rows Hr _ [parsed IH]]; [exists []; reflexivity|].
    destruct (read_row_returns row Hr) as [l Hl].
    exists (l :: parsed). simpl. rewrite Hl, IH. reflexivity.
Qed.

Lemma read_csv_rows_witness :
  exists parsed,
    read_csv [sample_row "2020 Jan 05?"; sample_row "-"] = Ok parsed.
Proof.
  apply (proj2 (proj2 (read_csv_rows [sample_row "2020 Jan 05?"; sample_row "-"]))).
  repeat constructor; intros col Hcol; unfold date_columns in Hcol;
    repeat (apply elem_of_cons in Hcol as [->|Hcol];
            [do 2 eexists; split; [vm_compute; reflexivity | reflexivity]|]);
    now apply not_elem_of_nil in Hcol.
Defined.


(** ** The monthly counts *)

Lemma month_index_add_months (k : nat) (c : datetime) :
  month_index (add_months k c) = month_index c + Z.of_nat k.
Proof.
  induction k as [|k IH]; [simpl; lia|].
  change (add_months (S k) c) with (next_month (add_months k c)).
  rewrite month_index_next, IH. lia.
Qed.

Lemma add_months_add (a b : nat) (c : datetime) :
  add_months (a + b) c = add_months b (add_months a c).
Proof. unfold add_months. rewrite Nat.add_comm. apply Nat.iter_add. Qed.

Lemma reentries_in_cons (M : Z) (l : launch) (ls : list launch) :
  reentries_in M (l :: ls)
  = (if decide (reentry_month l = Some M) then 1 else 0) + reentries_in M ls.
Proof.
  unfold reentries_in. rewrite filter_cons.
  destruct (decide (reentry_month l = Some M)); simpl length; lia.
Qed.

Lemma reentries_in_nil (M : Z) : reentries_in M [] = 0.
Proof. reflexivity. Qed.

(** No launch of a month chain reentered before the chain starts. *)
Lemma month_chain_none (ls : list launch) :
  forall prev M, month_chain prev ls -> M < prev -> reentries_in M ls = 0.
Proof.
  induction ls as [|l ls IH]; intros prev M Hc Hlt; [reflexivity|].
  destruct Hc as (d & Hl & _ & _ & Hle & Hc).
  rewrite reentries_in_cons, (IH (month_index d) M Hc) by lia.
  unfold reentry_month. rewrite Hl.
  destruct (decide (Some (month_index d) = Some M)) as [[= E]|_]; lia.
Qed.

Lemma seq_from (a n : nat) : seq a n = map (Nat.add a) (seq 0 n).
Proof.
  revert a. induction n as [|n IH]; intros a; [reflexivity|].
  simpl. rewrite Nat.add_0_r. f_equal.
  rewrite (IH (S a)), (IH 1%nat), map_map. apply map_ext. intros i. lia.
Qed.

Section Histogram.
Variable clock : nat -> datetime.

Lemma for_launches_histogram (ls : list launch) :
  forall st st',
    first_of_month (cur_date st) -> midnight (cur_date st) ->
    month_chain (month_index (cur_date st)) ls ->
    for_launches clock ls st = Ok st' ->
    exists k,
      cur_date st' = add_months k (cur_date st)
      /\ monthly_totals st' =
           (monthly_totals st ++
            map (fun i => bucket_of (add_months i (cur_date st))
                            (pending i (cur_month_total st)
                             + reentries_in (month_index (cur_date st) + Z.of_nat i) ls))
                (seq 0 k))%list
      /\ cur_month_total st' =
           pending k (cur_month_total st)
           + reentries_in (month_index (cur_date st) + Z.of_nat k) ls.
Proof.
  induction ls as [|l0 ls IH]; intros st st' Hf Hm Hc Hrun.
  { injection Hrun as <-. exists O. simpl. rewrite app_nil_r, reentries_in_nil.
    repeat split. lia. }
  destruct Hc as (d0 & Hl0 & Hv0 & Hm0 & Hle & Hc).
  simpl in Hrun. unfold getitem in Hrun. rewrite Hl0 in Hrun. simpl in Hrun.
  apply bind_Ok in Hrun as (st1 & H1 & Hrun).
  set (k0 := Z.to_nat (month_index d0 - month_index (cur_date st))) in *.
  rewrite (flush_months_dated clock l0 d0 k0) in H1 by (assumption || lia).
  pose proof (month_index_range d0 Hv0) as Hr.
  destruct (month_index d0 <? LAST_MONTH); [|discriminate]. injection H1 as <-.
  destruct (add_months_first k0 (cur_date st) Hf Hm) as (Hf1 & Hm1 & Hi1); [lia|].
  cbn [cur_date monthly_totals cur_month_total ticks] in Hrun.
  apply IH in Hrun; cbn [cur_date monthly_totals cur_month_total ticks];
    [|assumption|assumption|].
  2: { replace (month_index (add_months k0 (cur_date st))) with (month_index d0) by lia.
       exact Hc. }
  destruct Hrun as (k1 & E1 & E2 & E3).
  cbn [cur_date monthly_totals cur_month_total ticks] in E1, E2, E3.
  set (c := cur_date st) in *. set (t := cur_month_total st) in *.
  assert (Hmonth : reentry_month l0 = Some (month_index d0)).
  { unfold reentry_month. now rewrite Hl0. }
  (* the counts of the months before the one of [l0] *)
  assert (Hbefore : forall i : nat, (i < k0)%nat ->
            reentries_in (month_index c + Z.of_nat i) (l0 :: ls) = 0).
  { intros i Hi. rewrite reentries_in_cons, Hmonth.
    rewrite (month_chain_none ls (month_index d0)) by (assumption || lia).
    destruct (decide (Some (month_index d0) = Some (month_index c + Z.of_nat i)))
      as [[= E]|_]; lia. }
  (* the counts from the month of [l0] on *)
  assert (Hfrom : forall j : nat,
            pending j (pending k0 t + 1)
            + reentries_in (month_index (add_months k0 c) + Z.of_nat j) ls
            = pending (k0 + j) t
              + reentries_in (month_index c + Z.of_nat (k0 + j)) (l0 :: ls)).
  { intros j. rewrite reentries_in_cons, Hmonth.
    replace (month_index c + Z.of_nat (k0 + j)) with (month_index d0 + Z.of_nat j) by lia.
    replace (month_index (add_months k0 c)) with (month_index d0) by lia.
    destruct j as [|j].
    - rewrite Nat.add_0_r, Z.add_0_r.
      destruct (decide (Some (month_index d0) = Some (month_index d0))); [|congruence].
      simpl. lia.
    - rewrite Nat.add_succ_r.
      destruct (decide (Some (month_index d0) = Some (month_index d0 + Z.of_nat (S j))))
        as [[= E]|_]; [lia|]. simpl. lia. }
  exists (k0 + k1)%nat. split; [|split].
  - rewrite E1. symmetry. apply add_months_add.
  - rewrite E2, seq_app, map_app, <- app_assoc. f_equal. f_equal.
    + destruct k0 as [|k']; [reflexivity|].
      cbn [seq map pending]. rewrite (Hbefore O) by lia.
      rewrite Z.add_0_r. change (add_months 0 c) with c. f_equal.
      unfold zero_buckets. rewrite (seq_from 1), map_map.
      apply map_ext_in. intros i Hi. apply in_seq in Hi.
      rewrite add_months_S. cbn [Nat.add pending].
      rewrite (Hbefore (S i)) by lia. reflexivity.
    + rewrite (seq_from k0), map_map. apply map_ext_in. intros j Hj.
      change (match k0 with O => t | S _ => 0 end) with (pending k0 t).
      rewrite (Hfrom j), add_months_add. reflexivity.
  - rewrite E3. change (match k0 with O => t | S _ => 0 end) with (pending k0 t).
    apply Hfrom.
Qed.
(** The loop gets through a month chain only when every launch of it
    reentered before the last month of the calendar. *)
Lemma for_launches_below (ls : list launch) :
  forall st st',
    first_of_month (cur_date st) -> midnight (cur_date st) ->
    month_chain (month_index (cur_date st)) ls ->
    for_launches clock ls st = Ok st' ->
    forall l d, l ∈ ls -> l !! "Reentry Date" = Some (VDate d) ->
                month_index d < LAST_MONTH.
Proof.
  induction ls as [|l0 ls IH]; intros st st' Hf Hm Hc Hrun l d Hin Hd.
  { now apply not_elem_of_nil in Hin. }
  destruct Hc as (d0 & Hl0 & Hv0 & Hm0 & Hle & Hc).
  simpl in Hrun. unfold getitem in Hrun. rewrite Hl0 in Hrun. simpl in Hrun.
  apply bind_Ok in Hrun as (st1 & H1 & Hrun).
  set (k0 := Z.to_nat (month_index d0 - month_index (cur_date st))) in *.
  rewrite (flush_months_dated clock l0 d0 k0) in H1 by (assumption || lia).
  pose proof (month_index_range d0 Hv0) as Hr.
  destruct (month_index d0 <? LAST_MONTH) eqn:Elt; [|discriminate]. injection H1 as <-.
  apply Z.ltb_lt in Elt.
  destruct (add_months_first k0 (cur_date st) Hf Hm) as (Hf1 & Hm1 & Hi1); [lia|].
  cbn [cur_date monthly_totals cur_month_total ticks] in Hrun.
  apply elem_of_cons in Hin as [->|Hin].
  - rewrite Hl0 in Hd. injection Hd as <-. exact Elt.
  - eapply (IH _ st'); [.. | exact Hrun | exact Hin | exact Hd];
      cbn [cur_date monthly_totals cur_month_total ticks]; [assumption | assumption |].
    replace (month_index (add_months k0 (cur_date st))) with (month_index d0) by lia.
    exact Hc.
Qed.
End Histogram.

(** Every launch of a month chain has a date, not before the start of the
    chain nor after the date of the last launch. *)
Lemma month_chain_dated (ls : list launch) :
  forall prev l, month_chain prev ls -> l ∈ ls ->
    exists d, l !! "Reentry Date" = Some (VDate d) /\ valid_datetime d /\ midnight d
              /\ prev <= month_index d.
Proof.
  induction ls as [|l0 ls IH]; intros prev l Hc Hin; [now apply not_elem_of_nil in Hin|].
  destruct Hc as (d0 & Hl0 & Hv0 & Hm0 & Hle & Hc).
  apply elem_of_cons in Hin as [->|Hin]; [eauto 6|].
  destruct (IH _ l Hc Hin) as (d & Hd & Hv & Hm & Hge). exists d.
  repeat split; try assumption; try apply Hv; try apply Hm. lia.
Qed.

Lemma month_chain_last (ls : list launch) :
  forall prev pre l d l' d',
    month_chain prev ls -> ls = (pre ++ [l])%list ->
    l !! "Reentry Date" = Some (VDate d) ->
    l' ∈ ls -> l' !! "Reentry Date" = Some (VDate d') ->
    month_index d' <= month_index d.
Proof.
  induction ls as [|l0 ls IH]; intros prev pre l d l' d' Hc Hls Hl Hin Hl';
    [now apply not_elem_of_nil in Hin|].
  destruct Hc as (d0 & Hl0 & Hv0 & Hm0 & Hle & Hc).
  destruct pre as [|p pre]; simpl in Hls; injection Hls as -> Hls.
  - subst ls. apply elem_of_cons in Hin as [->|Hin];
      [|now apply not_elem_of_nil in Hin].
    rewrite Hl in Hl'. injection Hl' as <-. lia.
  - apply elem_of_cons in Hin as [->|Hin].
    + rewrite Hl0 in Hl'. injection Hl' as <-.
      destruct (month_chain_dated ls (month_index d0) l Hc) as (d1 & Hd1 & _ & _ & Hge).
      { rewrite Hls. apply elem_of_app. right. apply list_elem_of_here. }
      rewrite Hl in Hd1. injection Hd1 as <-. exact Hge.
    + eapply (IH _ pre l d l' d'); eauto.
Qed.

(** What the aggregation leaves of a list [read_csv] returned: the buckets
    of the months from the starting month on, each with the number of the
    launches reached that reentered in it. *)
Lemma aggregate_histogram (clock : nat -> datetime) (parsed launches : list launch)
    (tick : nat) (st : globals) :
  Forall well_read parsed ->
  sorted_by_reentry clock parsed O = Ok (launches, tick) ->
  aggregate clock parsed = Ok st ->
  exists start k,
    first_of_month start
    /\ cur_date st = add_months k start
    /\ monthly_totals st =
         map (fun i => bucket_of (add_months i start)
                         (reentries_in (month_index start + Z.of_nat i)
                                       (before_break launches)))
             (seq 0 k)
    /\ cur_month_total st
       = reentries_in (month_index start + Z.of_nat k) (before_break launches)
    /\ (forall l d, head launches = Some l ->
          l !! "Reentry Date" = Some (VDate d) -> start = month_start d)
    /\ (before_break launches = [] /\ k = O
        \/ midnight start
           /\ month_chain (month_index start) (before_break launches)
           /\ (forall l d, l ∈ before_break launches ->
                 l !! "Reentry Date" = Some (VDate d) -> month_index d < LAST_MONTH)
           /\ exists pre l d,
                before_break launches = (pre ++ [l])%list
                /\ l !! "Reentry Date" = Some (VDate d)
                /\ cur_date st = month_start d).
Proof.
  intros Hwr Hsort Hagg.
  pose proof Hagg as Hrun. rewrite (aggregate_unfold _ _ _ _ Hsort) in Hrun.
  apply bind_Ok in Hrun as (first & Hfirst & Hrun).
  apply bind_Ok in Hrun as ([v tick'] & Hkey & Hrun).
  apply bind_Ok in Hrun as (start & Hcur & Hrun).
  apply replace_day_first in Hcur as (dt & -> & -> & Hf).
  destruct (sorted_by_reentry_keyed _ _ _ _ _ Hsort) as (s & -> & Hs & He & Hp & _).
  assert (Hw : Forall (fun p => well_read (snd p)) s).
  { apply (proj1 (Forall_fmap snd well_read s)).
    change (snd <$> s) with (map snd s). now rewrite Hp. }
  assert (Hn : Forall (fun p => snd p !! "Reentry Date" <> Some (VStr "*")) s).
  { apply (proj1 (Forall_fmap snd (fun l => l !! "Reentry Date" <> Some (VStr "*")) s)).
    change (snd <$> s) with (map snd s). rewrite Hp. apply Forall_forall. intros l' Hl'.
    eapply aggregate_no_wildcard; eauto. }
  destruct s as [|p0 s]; [discriminate|]. simpl in Hfirst. injection Hfirst as <-.
  rewrite for_launches_before_break in Hrun.
  assert (Hhead : forall l d, head (map snd (p0 :: s)) = Some l ->
            l !! "Reentry Date" = Some (VDate d) -> month_start dt = month_start d).
  { intros l d [= <-] Hd. rewrite (reentry_date_date clock _ d) in Hkey by assumption.
    now injection Hkey as <- _. }
  pose proof Hw as Hw0. apply Forall_cons_1 in Hw0 as [(v0 & Hv0 & Hm0) _].
  pose proof Hn as Hn0. apply Forall_cons_1 in Hn0 as [Hn0 _].
  destruct v0 as [d1|t0].
  - (* the first launch has a date *)
    rewrite (reentry_date_date clock _ d1) in Hkey by assumption.
    injection Hkey as <- _. destruct Hm0 as [Hv1 Hm1].
    assert (Hmid : midnight (month_start d1)) by now apply midnight_month_start.
    assert (Hchain : month_chain (month_index (month_start d1))
                       (before_break (map snd (p0 :: s)))).
    { apply (sorted_month_chain clock); try assumption.
      intros p d' [= <-] Hd'. rewrite Hv0 in Hd'. injection Hd' as <-.
      unfold month_index, month_start. simpl. lia. }
    pose proof Hrun as Hhist.
    apply for_launches_histogram in Hhist;
      cbn [cur_date monthly_totals cur_month_total]; [|assumption..].
    destruct Hhist as (k & E1 & E2 & E3).
    cbn [cur_date monthly_totals cur_month_total app] in E1, E2, E3.
    exists (month_start d1), k. split; [exact Hf|]. split; [exact E1|].
    split; [|split; [|split; [exact Hhead|]]].
    + rewrite E2. apply map_ext. intros i. destruct i; simpl pending; f_equal; lia.
    + rewrite E3. destruct k; simpl pending; lia.
    + right. split; [exact Hmid|]. split; [exact Hchain|].
      split.
      { eapply (for_launches_below clock _ _ st); [.. | exact Hrun];
          cbn [cur_date monthly_totals cur_month_total ticks]; assumption. }
      assert (Hne : before_break (map snd (p0 :: s)) <> []).
      { simpl. unfold still_in_orbit. rewrite Hv0. discriminate. }
      destruct (exists_last Hne) as (pre & l & Hbb).
      destruct (month_chain_dated _ _ l Hchain) as (d & Hd & _).
      { rewrite Hbb. apply elem_of_app. right. apply list_elem_of_here. }
      exists pre, l, d. split; [exact Hbb|]. split; [exact Hd|].
      eapply (for_launches_chain clock _ _ st); [.. | exact Hrun | exact Hbb | exact Hd];
        cbn [cur_date monthly_totals cur_month_total ticks];
        [assumption | assumption | lia | assumption].
  - (* the first launch is still in orbit *)
    destruct Hm0 as [-> | ->]; [|contradiction].
    assert (Hnone : before_break (map snd (p0 :: s)) = []).
    { simpl. unfold still_in_orbit. now rewrite Hv0. }
    rewrite Hnone in Hrun. injection Hrun as <-.
    exists (month_start dt), O. split; [exact Hf|]. rewrite Hnone.
    repeat split; try exact Hhead. left. auto.
Qed.

(** X9: the buckets are the histogram, month by month, of the launches the
    loop reaches.  From the month of the first launch of the sorted list on
    there is one bucket for every month, in order and without a gap, each
    with the number of launches reached that reentered in that month; the
    month in progress at the end, which gets no bucket, has its count in
    [cur_month_total]; and there are as many buckets as there are months
    from the first to the last launch reached. *)
Theorem monthly_histogram (clock : nat -> datetime) (rows : list csv_row)
    (parsed launches : list launch) (tick : nat) (st : globals) :
  read_csv rows = Ok parsed ->
  sorted_by_reentry clock parsed O = Ok (launches, tick) ->
  aggregate clock parsed = Ok st ->
  exists start,
    first_of_month start
    /\ (forall l d, head launches = Some l ->
          l !! "Reentry Date" = Some (VDate d) -> start = month_start d)
    /\ cur_date st = add_months (length (monthly_totals st)) start
    /\ monthly_totals st =
         map (fun i => bucket_of (add_months i start)
                         (reentries_in (month_index start + Z.of_nat i)
                                       (before_break launches)))
             (seq 0 (length (monthly_totals st)))
    /\ cur_month_total st
       = reentries_in (month_index (cur_date st)) (before_break launches)
    /\ (forall pre l d,
          before_break launches = (pre ++ [l])%list ->
          l !! "Reentry Date" = Some (VDate d) ->
          Z.of_nat (length (monthly_totals st)) = month_index d - month_index start)
    /\ main clock rows = Ok (monthly_csv (monthly_totals st)).
Proof.
  intros Hread Hsort Hagg.
  pose proof (read_csv_well_read _ _ Hread) as Hwr.
  destruct (aggregate_histogram clock parsed launches tick st Hwr Hsort Hagg)
    as (start & k & Hf & E1 & E2 & E3 & Hhead & Hcase).
  assert (Hk : length (monthly_totals st) = k).
  { rewrite E2 at 1. now rewrite length_map, length_seq. }
  exists start. split; [exact Hf|]. split; [exact Hhead|].
  split; [now rewrite Hk|]. split; [now rewrite Hk|]. split; [|split].
  - rewrite E3. f_equal. rewrite E1, month_index_add_months. reflexivity.
  - intros pre l d Hbb Hl. rewrite Hk.
    destruct Hcase as [[Hnone _]|(_ & _ & _ & pre' & l' & d' & Hbb' & Hl' & Ec)].
    { rewrite Hnone in Hbb. now destruct pre. }
    rewrite Hbb' in Hbb. apply app_inj_tail in Hbb as [_ ->].
    rewrite Hl in Hl'. injection Hl' as <-.
    assert (Em : month_index (cur_date st) = month_index d) by now rewrite Ec.
    rewrite E1, month_index_add_months in Em. lia.
  - unfold main. rewrite Hread. simpl. now rewrite Hagg.
Qed.

Lemma monthly_histogram_witness :
  exists start,
    first_of_month start
    /\ date 2020 3 1 = add_months 2 start
    /\ [ {| Month := "01/01/2020"; Reentered := 2; Al := 286 |};
         {| Month := "01/02/2020"; Reentered := 0; Al := 0 |} ]
       = map (fun i => bucket_of (add_months i start)
                         (reentries_in (month_index start + Z.of_nat i)
                            (before_break
                               [ sample_launch "2020 Jan 05" (VDate (date 2020 1 5));
                                 sample_launch "2020 Jan 20" (VDate (date 2020 1 20));
                                 sample_launch "2020 Mar 02" (VDate (date 2020 3 2)) ])))
             (seq 0 2).
Proof.
  destruct (monthly_histogram noon_2022
    [sample_row "2020 Mar 02"; sample_row "2020 Jan 05"; sample_row "2020 Jan 20"]
    _
    [ sample_launch "2020 Jan 05" (VDate (date 2020 1 5));
      sample_launch "2020 Jan 20" (VDate (date 2020 1 20));
      sample_launch "2020 Mar 02" (VDate (date 2020 3 2)) ]
    O
    {| cur_date := date 2020 3 1;
       monthly_totals :=
         [ {| Month := "01/01/2020"; Reentered := 2; Al := 286 |};
           {| Month := "01/02/2020"; Reentered := 0; Al := 0 |} ];
       cur_month_total := 1; ticks := O |}
    read_sample_rows ltac:(reflexivity) ltac:(vm_compute; reflexivity))
    as (start & H1 & _ & H3 & H4 & _).
  exists start. split; [exact H1|]. split; [exact H3 | exact H4].
Defined.

(** ** The cause of an exception *)

Lemma read_row_cause (row : csv_row) (e : exn) :
  read_row row = Raise e ->
  (e = KeyError /\ exists col, col ∈ date_columns /\ row !! col = None)
  \/ (e = ValueError /\ exists col s, col ∈ date_columns /\ row !! col = Some s
                                      /\ read_date s = Raise ValueError).
Proof.
  unfold read_row, getitem, date_columns. intros H.
  destruct (row !! "Launch Date") as [a|] eqn:Ea;
    [|injection H as <-; left; split; [reflexivity|]; exists "Launch Date"; split;
       [set_solver | assumption]].
  cbn [bind] in H.
  destruct (read_date a) as [va|ea] eqn:Ra;
    [|injection H as <-; apply read_date_Raise in Ra as E; subst ea; right;
       split; [reflexivity|]; exists "Launch Date", a; repeat split;
       [set_solver | assumption..]].
  cbn [bind] in H.
  destruct (row !! "Fail Date") as [b|] eqn:Eb;
    [|injection H as <-; left; split; [reflexivity|]; exists "Fail Date"; split;
       [set_solver | assumption]].
  cbn [bind] in H.
  destruct (read_date b) as [vb|eb] eqn:Rb;
    [|injection H as <-; apply read_date_Raise in Rb as E; subst eb; right;
       split; [reflexivity|]; exists "Fail Date", b; repeat split;
       [set_solver | assumption..]].
  cbn [bind] in H.
  destruct (row !! "Reentry Date") as [c|] eqn:Ec;
    [|injection H as <-; left; split; [reflexivity|]; exists "Reentry Date"; split;
       [set_solver | assumption]].
  cbn [bind] in H.
  destruct (read_date c) as [vc|ec] eqn:Rc;
    [discriminate|injection H as <-; apply read_date_Raise in Rc as E; subst ec; right;
       split; [reflexivity|]; exists "Reentry Date", c; repeat split;
       [set_solver | assumption..]].
Qed.

(** The first row that does not parse decides the exception of [read_csv]. *)
Lemma read_csv_cause (rows : list csv_row) (e : exn) :
  read_csv rows = Raise e -> exists row, row ∈ rows /\ read_row row = Raise e.
Proof.
  induction rows as [|row rows IH]; simpl; [discriminate|].
  intros H. apply bind_Raise in H as [H|(l & _ & H)].
  - exists row. split; [apply list_elem_of_here | exact H].
  - apply bind_Raise in H as [H|(ls & _ & H)]; [|discriminate].
    destruct (IH H) as (r & Hr & Er). exists r. split; [|exact Er].
    now apply list_elem_of_further.
Qed.

(** Every launch [read_csv] returns was read from a row. *)
Lemma read_csv_row (rows : list csv_row) (parsed : list launch) (l : launch) :
  read_csv rows = Ok parsed -> l ∈ parsed ->
  exists row, row ∈ rows /\ read_row row = Ok l.
Proof.
  intros H. apply read_csv_Ok in H.
  induction H as [|row l' rows parsed Hl _ IH]; intros Hin;
    [now apply not_elem_of_nil in Hin|].
  apply elem_of_cons in Hin as [->|Hin].
  - exists row. split; [apply list_elem_of_here | exact Hl].
  - destruct (IH Hin) as (r & Hr & Er). exists r. split; [|exact Er].
    now apply list_elem_of_further.
Qed.

Lemma read_date_wildcard (s : string) : read_date s = Ok (VStr "*") -> s = "*".
Proof.
  unfold read_date.
  destruct (String.eqb_spec s ""); [discriminate|].
  destruct (String.eqb_spec s "*"); [auto|].
  destruct (String.eqb_spec s "-"); [subst s; discriminate|]. simpl.
  intros H. apply bind_Ok in H as (dt & _ & H). discriminate.
Qed.

Lemma well_read_str (l : launch) (s : string) :
  well_read l -> l !! "Reentry Date" = Some (VStr s) -> s <> "-" -> s = "*".
Proof.
  intros (v & Hv & Hm) Hl Hs. rewrite Hl in Hv. injection Hv as <-.
  destruct Hm; congruence.
Qed.

Lemma key_is_str_wildcard (l : launch) :
  well_read l -> key_is_str l = true -> l !! "Reentry Date" = Some (VStr "*").
Proof.
  intros Hw. unfold key_is_str.
  destruct (l !! "Reentry Date") as [[d|s]|] eqn:E; try discriminate.
  destruct (String.eqb_spec s "-"); [discriminate|]. intros _.
  now rewrite (well_read_str l s Hw E).
Qed.

Lemma increment_month_Raise_last (c : datetime) (e : exn) :
  first_of_month c -> increment_month c = Raise e ->
  e = ValueError /\ month_index c = LAST_MONTH.
Proof.
  intros Hf H. pose proof (increment_month_Raise _ _ H) as ->.
  split; [reflexivity|].
  assert (Hr := Hf). destruct Hr as [[Hd _] _].
  apply check_date_fields_range in Hd as (Hy & Hm & _).
  destruct (Z.eq_dec (month_index c) LAST_MONTH) as [E|Hne]; [exact E|].
  destruct (increment_month_next c Hf) as [E _]; [|congruence].
  unfold month_index, LAST_MONTH, MAXYEAR in Hne. lia.
Qed.

Section Causes.
Variable clock : nat -> datetime.
Hypothesis clock_valid : forall n, valid_datetime (clock n).

Variable parsed : list launch.

Lemma flush_months_cause (l : launch) (v : pyval) :
  l ∈ parsed -> well_read l ->
  l !! "Reentry Date" = Some v -> py_eqb v (VStr "-") = false ->
  forall st, cur_inv parsed st ->
    match flush_months clock l st with
    | Ok st' => cur_inv parsed st'
    | Raise e => points_to parsed e
    end.
Proof.
  intros Hin Hw Hv Hno.
  assert (Hkey : forall t, reentry_date clock l t = Ok (v, t)).
  { intros t. unfold reentry_date, getitem. rewrite Hv. cbn [bind]. now rewrite Hno. }
  assert (Hwv : match v with
                | VDate d => valid_datetime d
                | VStr s => s = "*"
                end).
  { destruct Hw as (v' & Hv' & Hm). rewrite Hv in Hv'. injection Hv' as <-.
    destruct v as [d|s]; [apply Hm|]. destruct Hm as [-> | ->]; [discriminate | reflexivity]. }
  apply (flush_months_ind clock l
    (fun st r => cur_inv parsed st ->
       match r with Ok st' => cur_inv parsed st' | Raise e => points_to parsed e end)).
  - (* the test raises *)
    intros st e H [Hf Hl]. unfold past_month_end in H. rewrite Hkey in H. cbn [bind] in H.
    apply bind_Raise in H as [H|(nxt & Hn & H)].
    { apply increment_month_Raise_last in H as [-> H]; [|assumption].
      right. split; [reflexivity | auto]. }
    apply bind_Raise in H as [H|(b & _ & H)]; [|discriminate].
    left. destruct v as [d|s]; simpl in H; [discriminate|]. injection H as <-.
    split; [reflexivity|]. exists l. split; [assumption|]. now rewrite Hv, Hwv.
  - intros st tick _ Hi. exact Hi.
  - intros st tick e _ H [Hf Hl]. unfold flush_month in H.
    apply bind_Raise in H as [H|(nxt & _ & H)]; [|discriminate].
    apply increment_month_Raise_last in H as [-> H]; [|assumption].
    right. split; [reflexivity | auto].
  - intros st tick st1 Ht Hfl IH [Hf Hl]. apply IH.
    unfold flush_month in Hfl. apply bind_Ok in Hfl as (nxt & Hn & [= <-]).
    cbn [cur_date]. unfold past_month_end in Ht. rewrite Hkey, Hn in Ht. cbn [bind] in Ht.
    apply bind_Ok in Ht as (b & Hb & [= -> _]).
    pose proof (increment_month_first _ _ Hf Hn) as [_ Hf']. split; [exact Hf'|].
    intros Elast. cbn [cur_date] in Elast.
    destruct v as [d|s]; [|discriminate]. injection Hb as Hb.
    exists l, d. split; [assumption|]. split; [assumption|].
    unfold dt_geb in Hb. apply negb_true_iff in Hb.
    apply dt_ltb_month_index in Hb; [|assumption|apply Hf'].
    pose proof (month_index_range d Hwv). lia.
Qed.

Lemma for_launches_cause (ls : list launch) :
  (forall l, l ∈ ls -> l ∈ parsed) -> Forall well_read ls ->
  forall st e, cur_inv parsed st -> for_launches clock ls st = Raise e -> points_to parsed e.
Proof.
  induction ls as [|l ls IH]; intros Hsub Hw st e Hi; simpl; [discriminate|].
  apply Forall_cons_1 in Hw as [Hwl Hw].
  destruct (well_read_key l Hwl) as [v Hv]. unfold getitem. rewrite Hv. cbn [bind].
  destruct (py_eqb v (VStr "-")) eqn:Eq; [discriminate|].
  pose proof (flush_months_cause l v (Hsub l (list_elem_of_here _ _)) Hwl Hv Eq st Hi)
    as Hfl.
  destruct (flush_months clock l st) as [st1|e1]; cbn [bind].
  - apply IH; [|assumption|].
    + intros l' Hl'. apply Hsub. now apply list_elem_of_further.
    + destruct Hfl as [Hf Hl]. split; assumption.
  - now intros [= <-].
Qed.

Lemma aggregate_cause (e : exn) :
  Forall well_read parsed -> aggregate clock parsed = Raise e ->
  (e = IndexError /\ parsed = []) \/ points_to parsed e.
Proof.
  intros Hwr H. unfold aggregate in H.
  apply bind_Raise in H as [H|([launches tick] & Hs & H)].
  { (* the sort *)
    right. left. unfold sorted_by_reentry in H.
    apply bind_Raise in H as [H|([keyed t1] & Hk & H)].
    { destruct (keys_of_Some clock parsed) with (tick := O) as (ks & t & Hks).
      - eapply Forall_impl; [exact Hwr|]. apply well_read_key.
      - congruence. }
    apply bind_Raise in H as [H|(s & _ & H)]; [|discriminate].
    pose proof (sort_keyed_Raise _ _ H) as ->. split; [reflexivity|].
    destruct (Forall_Exists_dec (fun l => key_is_str l = false)
                (fun l => key_is_str l = true)
                (fun l => match key_is_str l as b
                                return {b = false} + {b = true} with
                          | true => right eq_refl
                          | false => left eq_refl
                          end) parsed) as [Hall|Hex].
    - exfalso. destruct (sort_keyed_same_kind true keyed) as [s Hs]; [|congruence].
      destruct (keys_of_Ok clock _ _ _ _ Hk) as [Hm Hf].
      rewrite Forall_forall in Hf. rewrite Forall_forall in Hall.
      apply Forall_forall. intros p Hp.
      rewrite (Hf p Hp), Hall; [reflexivity|].
      rewrite <- Hm. now apply (list_elem_of_fmap_2 snd).
    - apply Exists_exists in Hex as (l & Hl & Hstr). exists l. split; [assumption|].
      rewrite Forall_forall in Hwr. now apply key_is_str_wildcard; [apply Hwr|]. }
  pose proof (sorted_by_reentry_Ok _ _ _ _ _ Hs) as [Hp [b Hb]].
  assert (Hsub : forall l, l ∈ launches -> l ∈ parsed).
  { intros l Hl. now rewrite <- Hp. }
  assert (Hwl : Forall well_read launches) by now rewrite Hp.
  apply bind_Raise in H as [H|(first & Hfirst & H)].
  { left. destruct launches; [|discriminate]. injection H as <-.
    split; [reflexivity|]. now apply Permutation_nil_l in Hp. }
  destruct launches as [|l0 launches]; [discriminate|]. injection Hfirst as <-.
  pose proof Hwl as Hw0. apply Forall_cons_1 in Hw0 as [Hw0 _].
  right.
  apply bind_Raise in H as [H|([v t] & Hk & H)].
  { apply reentry_date_Raise in H as [_ H].
    destruct (well_read_key l0 Hw0) as [v Hv]. congruence. }
  assert (Hin0 : l0 ∈ parsed) by apply Hsub, list_elem_of_here.
  unfold reentry_date, getitem in Hk.
  destruct (l0 !! "Reentry Date") as [v0|] eqn:Ev0; [|discriminate]. cbn [bind] in Hk.
  destruct (py_eqb v0 (VStr "-")) eqn:Eq.
  - (* the first launch is still in orbit: the loop stops at once *)
    injection Hk as <- <-. exfalso.
    apply bind_Raise in H as [H|(cur & _ & H)].
    + simpl in H. unfold replace, datetime_new in H. simpl in H.
      destruct (clock_valid tick) as [Hd Ht].
      apply check_date_fields_range in Hd as (Hy & Hm & _).
      rewrite check_date_fields_first, Ht in H by assumption. discriminate.
    + simpl in H. unfold getitem in H. rewrite Ev0 in H. simpl in H.
      rewrite Eq in H. discriminate.
  - injection Hk as <- <-.
    destruct v0 as [d0|s0].
    + destruct Hw0 as (v' & Hv' & Hm'). rewrite Ev0 in Hv'. injection Hv' as <-.
      destruct Hm' as [[Hd Ht] Hmid].
      apply bind_Raise in H as [H|(cur & Hcur & H)].
      { exfalso. simpl in H. unfold replace, datetime_new in H. simpl in H.
        apply check_date_fields_range in Hd as (Hy & Hm & _).
        rewrite check_date_fields_first, Ht in H by assumption. discriminate. }
      apply replace_day_first in Hcur as (dt & [= <-] & -> & Hf).
      apply for_launches_cause in H; [exact H|assumption..|].
      split; [exact Hf|]. cbn [cur_date]. intros Elast.
      exists l0, d0. repeat split; assumption.
    + left. apply bind_Raise in H as [H|(cur & Hcur & H)]; [|discriminate].
      injection H as <-. split; [reflexivity|]. exists l0. split; [assumption|].
      rewrite Ev0. f_equal. f_equal. apply (well_read_str l0 s0 Hw0 Ev0).
      intros ->. simpl in Eq. discriminate.
Qed.
End Causes.

(** X10: what an exception of the script says about its input, the clock
    giving datetimes of the calendar.  IndexError: there is no row.
    KeyError: a row lacks one of the three date columns.  TypeError: a row
    has the wildcard as reentry date.  ValueError: a date field of a row
    does not parse, or a row reentered in December 9999.  On an input with
    none of these the script returns. *)
Theorem main_error_causes (clock : nat -> datetime) (rows : list csv_row) :
  (forall n, valid_datetime (clock n)) ->
  (forall e, main clock rows = Raise e -> cause rows e)
  /\ ((forall e, ~ cause rows e) -> exists out, main clock rows = Ok out).
Proof.
  intros Hclock.
  assert (Hcause : forall e, main clock rows = Raise e -> cause rows e).
  { intros e H. unfold main in H.
    apply bind_Raise in H as [H|(parsed & Hp & H)].
    { apply read_csv_cause in H as (row & Hrow & H).
      apply read_row_cause in H as [[-> (col & Hcol & Hnone)]|[-> (col & s & Hcol & Hs & Hbad)]].
      - exists row, col. auto.
      - left. exists row, col, s. auto. }
    apply bind_Raise in H as [H|(st & _ & H)]; [|discriminate].
    pose proof (read_csv_well_read _ _ Hp) as Hwr.
    apply aggregate_cause in H as [[-> ->]|[[-> (l & Hl & Hstar)]|[-> (l & d & Hl & Hd & Hlast)]]];
      try assumption.
    - apply read_csv_Ok in Hp. now inversion Hp.
    - destruct (read_csv_row _ _ _ Hp Hl) as (row & Hrow & Hr).
      apply read_row_Ok_reentry in Hr as (s & v & Hs & Hv & Hlv).
      rewrite Hstar in Hlv. injection Hlv as <-.
      apply read_date_wildcard in Hv as ->. exists row. auto.
    - right. destruct (read_csv_row _ _ _ Hp Hl) as (row & Hrow & Hr).
      apply read_row_Ok_reentry in Hr as (s & v & Hs & Hv & Hlv).
      rewrite Hd in Hlv. injection Hlv as <-. exists row, s, d. auto. }
  split; [exact Hcause|].
  intros Hnone. destruct (main clock rows) as [out|e] eqn:E; [eauto|].
  destruct (Hnone e). now apply Hcause.
Qed.

Lemma noon_2022_valid : forall n, valid_datetime (noon_2022 n).
Proof. intros n. split; reflexivity. Qed.

Lemma main_error_causes_witness :
  cause [sample_row "9999 Dec 05"] ValueError.
Proof.
  apply (proj1 (main_error_causes noon_2022 [sample_row "9999 Dec 05"] noon_2022_valid)).
  vm_compute. reflexivity.
Defined.

(** ** Nothing has reentered *)

(** X11: an input no launch of which has reentered.  When every row has
    ["-"] or nothing as reentry date, the script writes the header and no
    other row; the month it starts and ends in is the one of the clock,
    read once for every row by the sort and once more for the start. *)
Theorem nothing_reentered (clock : nat -> datetime) (rows : list csv_row)
    (parsed : list launch) :
  (forall n, valid_datetime (clock n)) ->
  rows <> [] -> read_csv rows = Ok parsed ->
  Forall (fun row => row !! "Reentry Date" = Some "-"
                     \/ row !! "Reentry Date" = Some "") rows ->
  main clock rows = Ok [["Month"; "Reentered"; "Al"]]
  /\ exists st, aggregate clock parsed = Ok st
       /\ cur_date st = month_start (clock (length rows))
       /\ cur_month_total st = 0.
Proof.
  intros Hclock Hne Hread Hall.
  assert (Horbit : Forall (fun l => l !! "Reentry Date" = Some (VStr "-")) parsed).
  { pose proof (read_csv_Ok _ _ Hread) as H2. clear Hread Hne. revert Hall.
    induction H2 as [|row l rows parsed Hl _ IH]; intros Hall; [constructor|].
    apply Forall_cons_1 in Hall as [Hrow Hall]. constructor; [|auto].
    apply read_row_Ok_reentry in Hl as (s & v & Hs & Hv & Hlv). rewrite Hlv.
    destruct Hrow as [Hrow|Hrow]; rewrite Hrow in Hs; injection Hs as <-;
      injection Hv as <-; reflexivity. }
  assert (Hlen : length parsed = length rows).
  { symmetry. eapply Forall2_length, read_csv_Ok, Hread. }
  rewrite Forall_forall in Horbit.
  assert (Htick : forall ls tick keyed tick',
            (forall l, l ∈ ls -> l !! "Reentry Date" = Some (VStr "-")) ->
            keys_of clock ls tick = Ok (keyed, tick') -> tick' = (tick + length ls)%nat).
  { induction ls as [|l ls IH]; intros tick keyed tick' Hls; simpl.
    - intros [= _ <-]. lia.
    - rewrite (reentry_date_in_orbit clock l tick) by (apply Hls, list_elem_of_here).
      cbn [bind]. destruct (keys_of clock ls (S tick)) as [[ks t2]|] eqn:E; [|discriminate].
      cbn [bind]. intros [= _ <-].
      rewrite (IH (S tick) ks t2); [simpl; lia | | exact E].
      intros l' Hl'. apply Hls. now apply list_elem_of_further. }
  destruct (aggregate clock parsed) as [st|e] eqn:Hagg.
  - pose proof Hagg as Hrun. unfold aggregate in Hrun.
    apply bind_Ok in Hrun as ([launches tick] & Hsort & Hrun).
    pose proof (sorted_by_reentry_Ok _ _ _ _ _ Hsort) as [Hp _].
    assert (Etick : tick = length rows).
    { unfold sorted_by_reentry in Hsort.
      apply bind_Ok in Hsort as ([keyed t1] & Hk & Hsort).
      apply bind_Ok in Hsort as (s & _ & [= _ <-]).
      rewrite (Htick _ _ _ _ Horbit Hk). lia. }
    apply bind_Ok in Hrun as (first & Hfirst & Hrun).
    destruct launches as [|l0 launches]; [discriminate|]. injection Hfirst as <-.
    assert (Hl0 : l0 !! "Reentry Date" = Some (VStr "-")).
    { apply Horbit. rewrite <- Hp. apply list_elem_of_here. }
    rewrite (reentry_date_in_orbit clock l0 tick Hl0) in Hrun. cbn [bind] in Hrun.
    apply bind_Ok in Hrun as (cur & Hcur & Hrun).
    apply replace_day_first in Hcur as (dt & [= <-] & -> & _).
    simpl in Hrun. unfold getitem in Hrun. rewrite Hl0 in Hrun. simpl in Hrun.
    injection Hrun as <-. split.
    + unfold main. rewrite Hread. cbn [bind]. rewrite Hagg. reflexivity.
    + eexists. split; [reflexivity|]. cbn [cur_date cur_month_total].
      rewrite Etick. auto.
  - exfalso. apply aggregate_cause in Hagg;
      [|assumption|eapply read_csv_well_read; eassumption].
    destruct Hagg as [[_ ->]|[[_ (l & Hl & Hstar)]|[_ (l & d & Hl & Hd & _)]]].
    + destruct rows; [congruence | discriminate].
    + rewrite (Horbit l Hl) in Hstar. discriminate.
    + rewrite (Horbit l Hl) in Hd. discriminate.
Qed.

Lemma nothing_reentered_witness :
  main noon_2022 [sample_row "-"; sample_row ""] = Ok [["Month"; "Reentered"; "Al"]].
Proof.
  apply (fun H1 H2 H3 H4 => proj1 (nothing_reentered noon_2022
           [sample_row "-"; sample_row ""]
           [sample_launch "-" (VStr "-"); sample_launch "" (VStr "-")] H1 H2 H3 H4)).
  - intros n. split; reflexivity.
  - discriminate.
  - cbn [read_csv].
    rewrite (read_sample_row "-" (VStr "-")) by reflexivity.
    rewrite (read_sample_row "" (VStr "-")) by reflexivity. reflexivity.
  - constructor; [left; apply sample_row_reentry|].
    constructor; [right; apply sample_row_reentry | constructor].
Defined.

(** ** The report of a past record *)

(** With the launches still in orbit last, the loop reaches every launch
    that has reentered. *)
Lemma sentinels_last_tail (l : launch) (ls : list launch) :
  sentinels_last (l :: ls) -> sentinels_last ls.
Proof.
  intros H i j a b d Hi Hj Ha Hb.
  specialize (H (S i) (S j) a b d Hi Hj Ha Hb). lia.
Qed.

Lemma before_break_filter (ls : list launch) :
  sentinels_last ls -> Forall well_read ls ->
  Forall (fun l => l !! "Reentry Date" <> Some (VStr "*")) ls ->
  before_break ls = filter (fun l => still_in_orbit l = false) ls.
Proof.
  induction ls as [|l ls IH]; intros Hlast Hw Hn; [reflexivity|].
  apply Forall_cons_1 in Hw as [Hwl Hw]. apply Forall_cons_1 in Hn as [Hnl Hn].
  simpl. destruct (still_in_orbit l) eqn:E.
  - rewrite filter_cons_False by congruence.
    symmetry. apply filter_reached_none. apply Forall_forall. intros l' Hl'.
    apply still_in_orbit_true in E.
    rewrite Forall_forall in Hw. rewrite Forall_forall in Hn.
    destruct (Hw l' Hl') as (v & Hv & Hm).
    destruct v as [d|s].
    + exfalso. apply list_elem_of_lookup_1 in Hl' as [j Hj].
      specialize (Hlast O (S j) l l' d eq_refl Hj E Hv). lia.
    + destruct Hm as [-> | ->]; [now apply still_in_orbit_true|].
      now destruct (Hn l' Hl').
  - rewrite filter_cons_True by assumption. f_equal.
    apply IH; [eapply sentinels_last_tail; eassumption | assumption..].
Qed.

Lemma reentries_in_perm (M : Z) (ls ls' : list launch) :
  ls ≡ₚ ls' -> reentries_in M ls = reentries_in M ls'.
Proof. intros H. unfold reentries_in. now rewrite H. Qed.

Lemma reentries_in_reached (M : Z) (ls : list launch) :
  reentries_in M (filter (fun l => still_in_orbit l = false) ls) = reentries_in M ls.
Proof.
  induction ls as [|l ls IH]; [reflexivity|].
  rewrite filter_cons, (reentries_in_cons M l ls).
  destruct (decide (still_in_orbit l = false)) as [E|E].
  - rewrite reentries_in_cons, IH. reflexivity.
  - rewrite IH. apply not_false_is_true, still_in_orbit_true in E.
    unfold reentry_month. rewrite E.
    destruct (decide (None = Some M)); [discriminate | lia].
Qed.

(** The first of the month of a midnight is determined by its month index. *)
Lemma month_start_month_index (a b : datetime) :
  valid_datetime a -> midnight a -> valid_datetime b -> midnight b ->
  month_index a = month_index b -> month_start a = month_start b.
Proof.
  destruct a as [y m dd h mi s us], b as [y' m' dd' h' mi' s' us'].
  unfold valid_datetime, midnight, month_index, month_start. simpl.
  intros [Ha _] (-> & -> & -> & ->) [Hb _] (-> & -> & -> & ->) E.
  apply check_date_fields_range in Ha, Hb. cbn [year month day] in Ha, Hb.
  assert (y = y') by lia. assert (m = m') by lia. now subst.
Qed.

(** What the aggregation leaves when every concrete reentry date is earlier
    than every reading of the clock: either no launch has reentered, or the
    buckets run from the month of the earliest reentry up to the month of
    the latest one, which is the month in progress at the end, and count
    the launches of the whole list. *)
Lemma aggregate_report (clock : nat -> datetime) (parsed : list launch) (st : globals) :
  Forall well_read parsed -> aggregate clock parsed = Ok st ->
  (forall l d n, l ∈ parsed -> l !! "Reentry Date" = Some (VDate d) ->
                 dt_ltb d (clock n) = true) ->
  (Forall (fun l => still_in_orbit l = true) parsed /\ monthly_totals st = [])
  \/ exists f dF e dL,
       (f ∈ parsed /\ f !! "Reentry Date" = Some (VDate dF))
       /\ (e ∈ parsed /\ e !! "Reentry Date" = Some (VDate dL))
       /\ (forall l d, l ∈ parsed -> l !! "Reentry Date" = Some (VDate d) ->
             month_index dF <= month_index d <= month_index dL
             /\ month_index d < LAST_MONTH)
       /\ cur_date st = month_start dL
       /\ monthly_totals st =
            map (fun i => bucket_of (add_months i (month_start dF))
                            (reentries_in (month_index dF + Z.of_nat i) parsed))
                (seq 0 (Z.to_nat (month_index dL - month_index dF)))
       /\ cur_month_total st = reentries_in (month_index dL) parsed.
Proof.
  intros Hwr Hagg Hpast.
  pose proof Hagg as Hsort. unfold aggregate in Hsort.
  apply bind_Ok in Hsort as ([launches tick] & Hsort & _).
  destruct (aggregate_histogram clock parsed launches tick st Hwr Hsort Hagg)
    as (start & k & Hf & E1 & E2 & E3 & Hhead & Hcase).
  destruct (sorted_by_reentry_keyed _ _ _ _ _ Hsort) as (s & El & Hs & He & Hp & Hk).
  assert (Hperm : launches ≡ₚ parsed) by now rewrite El.
  assert (Hlast : sentinels_last launches).
  { rewrite El. apply (sentinels_last_sorted clock); try assumption.
    intros p d n Hin Hd. apply (Hpast (snd p)); [|assumption].
    rewrite <- Hp. now apply (list_elem_of_fmap_2 snd). }
  assert (Hbb : before_break launches
                = filter (fun l => still_in_orbit l = false) launches).
  { apply before_break_filter; [assumption | now rewrite Hperm |].
    apply Forall_forall. intros l Hl. rewrite Hperm in Hl.
    eapply aggregate_no_wildcard; eassumption. }
  assert (Hcount : forall M, reentries_in M (before_break launches)
                             = reentries_in M parsed).
  { intros M. rewrite Hbb, reentries_in_reached. now apply reentries_in_perm. }
  assert (Hmem : forall l, l ∈ before_break launches
                           <-> l ∈ parsed /\ still_in_orbit l = false).
  { intros l. rewrite Hbb, list_elem_of_filter, Hperm. tauto. }
  assert (Hdated : forall l d, l ∈ parsed -> l !! "Reentry Date" = Some (VDate d) ->
                               l ∈ before_break launches).
  { intros l d Hl Hd. apply Hmem. split; [assumption|].
    unfold still_in_orbit. now rewrite Hd. }
  destruct Hcase as [[Hnone ->]|(Hmid & Hchain & Hbelow & pre & e & dL & Hpre & HdL & Ec)].
  - left. split; [|exact E2].
    apply Forall_forall. intros l Hl.
    destruct (still_in_orbit l) eqn:E; [reflexivity|].
    assert (Hin : l ∈ before_break launches) by (apply Hmem; auto).
    rewrite Hnone in Hin. now apply not_elem_of_nil in Hin.
  - right.
    destruct (before_break launches) as [|f bb] eqn:Ebb; [now destruct pre|].
    pose proof Hchain as Hc0. destruct Hc0 as (dF & HdF & HvF & HmF & _ & _).
    assert (Hst : start = month_start dF).
    { apply (Hhead f dF); [|exact HdF].
      destruct (before_break_split launches) as (U & HU & _).
      rewrite Ebb in HU. rewrite HU. reflexivity. }
    assert (Hi : month_index start = month_index dF) by now rewrite Hst.
    assert (Hfin : f ∈ parsed) by (apply Hmem, list_elem_of_here).
    assert (Hein : e ∈ parsed).
    { apply Hmem. rewrite Hpre. apply elem_of_app. right. apply list_elem_of_here. }
    assert (Hk' : Z.of_nat k = month_index dL - month_index dF).
    { assert (Em : month_index (cur_date st) = month_index dL) by now rewrite Ec.
      rewrite E1, month_index_add_months in Em. lia. }
    exists f, dF, e, dL. split; [auto|]. split; [auto|].
    split; [|split; [exact Ec|split]].
    + intros l d Hl Hd. pose proof (Hdated l d Hl Hd) as Hin.
      destruct (month_chain_dated _ _ l Hchain Hin) as (d' & Hd' & _ & _ & Hge).
      rewrite Hd in Hd'. injection Hd' as <-.
      pose proof (month_chain_last _ _ pre e dL l d Hchain Hpre HdL Hin Hd) as Hle.
      pose proof (Hbelow l d Hin Hd). lia.
    + rewrite E2. replace (Z.to_nat (month_index dL - month_index dF)) with k by lia.
      apply map_ext. intros i. rewrite Hcount, Hi, Hst. reflexivity.
    + rewrite E3, Hcount. f_equal. lia.
Qed.



(** ** The order of the rows *)

Lemma read_csv_perm (rows rows' : list csv_row) :
  rows ≡ₚ rows' ->
  forall parsed, read_csv rows = Ok parsed ->
    exists parsed', read_csv rows' = Ok parsed' /\ parsed ≡ₚ parsed'.
Proof.
  induction 1 as [|x l l' _ IH|x y l|l l' l'' _ IH1 _ IH2]; intros parsed Hread.
  - exists parsed. auto.
  - simpl in Hread. apply bind_Ok in Hread as (a & Ha & Hread).
    apply bind_Ok in Hread as (ls & Hls & [= <-]).
    destruct (IH ls Hls) as (ls' & Hls' & Hp).
    exists (a :: ls'). simpl. rewrite Ha, Hls'. split; [reflexivity|].
    now constructor.
  - simpl in Hread. apply bind_Ok in Hread as (a & Ha & Hread).
    apply bind_Ok in Hread as (ls0 & Hls0 & [= <-]).
    apply bind_Ok in Hls0 as (b & Hb & Hls0).
    apply bind_Ok in Hls0 as (ls & Hls & [= <-]).
    exists (b :: a :: ls). simpl. rewrite Hb, Ha, Hls. split; [reflexivity|].
    apply Permutation_swap.
  - destruct (IH1 parsed Hread) as (p1 & H1 & Hp1).
    destruct (IH2 p1 H1) as (p2 & H2 & Hp2).
    exists p2. split; [assumption|]. now rewrite Hp1.
Qed.

(** X13: the order of the rows of the input plays no part.  When every
    concrete reentry date is earlier than every reading of the clock and
    the script writes its report for a list of rows, it writes the same
    report for every rearrangement of these rows. *)
Theorem report_order_independent (clock : nat -> datetime)
    (rows rows' : list csv_row) (out : list (list string)) :
  (forall n, valid_datetime (clock n)) ->
  (forall row s d n, row ∈ rows -> row !! "Reentry Date" = Some s ->
                     read_date s = Ok (VDate d) -> dt_ltb d (clock n) = true) ->
  rows ≡ₚ rows' ->
  main clock rows = Ok out -> main clock rows' = Ok out.
Proof.
  intros Hclock Hrows Hperm Hmain. unfold main in Hmain.
  apply bind_Ok in Hmain as (parsed & Hread & Hmain).
  apply bind_Ok in Hmain as (st & Hagg & [= <-]).
  destruct (read_csv_perm rows rows' Hperm parsed Hread) as (parsed' & Hread' & Hpp).
  pose proof (read_csv_well_read _ _ Hread) as Hwr.
  pose proof (read_csv_well_read _ _ Hread') as Hwr'.
  assert (Hpast : forall l d n, l ∈ parsed -> l !! "Reentry Date" = Some (VDate d) ->
                                dt_ltb d (clock n) = true).
  { intros l d n Hl Hd.
    destruct (read_csv_row rows parsed l Hread Hl) as (row & Hrow & Hl').
    apply read_row_Ok_reentry in Hl' as (s & v & Hs & Hv & Hlv).
    rewrite Hd in Hlv. injection Hlv as <-. eapply Hrows; eassumption. }
  assert (Hpast' : forall l d n, l ∈ parsed' -> l !! "Reentry Date" = Some (VDate d) ->
                                 dt_ltb d (clock n) = true).
  { intros l d n Hl. apply Hpast. now rewrite Hpp. }
  pose proof (aggregate_report clock parsed st Hwr Hagg Hpast) as R.
  unfold main. rewrite Hread'. cbn [bind].
  destruct (aggregate clock parsed') as [st'|e] eqn:Hagg'.
  - cbn [bind]. do 2 f_equal.
    pose proof (aggregate_report clock parsed' st' Hwr' Hagg' Hpast') as R'.
    destruct R as [[Hnone E]|(f & dF & e & dL & [HF HdF] & [HL HdL] & Hall & _ & E & _)];
      destruct R' as [[Hnone' E']
                     |(f' & dF' & e' & dL' & [HF' HdF'] & [HL' HdL'] & Hall' & _ & E' & _)].
    + now rewrite E, E'.
    + exfalso. rewrite Forall_forall in Hnone.
      rewrite <- Hpp in HF'. specialize (Hnone f' HF').
      unfold still_in_orbit in Hnone. rewrite HdF' in Hnone. discriminate.
    + exfalso. rewrite Forall_forall in Hnone'.
      rewrite Hpp in HF. specialize (Hnone' f HF).
      unfold still_in_orbit in Hnone'. rewrite HdF in Hnone'. discriminate.
    + pose proof HF as HF2. pose proof HL as HL2. rewrite Hpp in HF2, HL2.
      pose proof HF' as HF3. pose proof HL' as HL3. rewrite <- Hpp in HF3, HL3.
      pose proof (Hall f' dF' HF3 HdF'). pose proof (Hall e' dL' HL3 HdL').
      pose proof (Hall' f dF HF2 HdF). pose proof (Hall' e dL HL2 HdL).
      assert (EF : month_index dF' = month_index dF) by lia.
      assert (EL : month_index dL' = month_index dL) by lia.
      assert (ES : month_start dF' = month_start dF).
      { rewrite Forall_forall in Hwr.
        destruct (Hwr f HF) as (v & Hv & Hm). rewrite HdF in Hv. injection Hv as <-.
        destruct (Hwr f' HF3) as (v' & Hv' & Hm'). rewrite HdF' in Hv'.
        injection Hv' as <-.
        apply month_start_month_index; try apply Hm; try apply Hm'. exact EF. }
      rewrite E, E', EF, EL, ES. apply map_ext. intros i. f_equal.
      symmetry. now apply reentries_in_perm.
  - exfalso.
    apply (aggregate_cause clock Hclock parsed' e Hwr') in Hagg'.
    destruct Hagg' as [[_ ->]|[[_ (l & Hl & Hstar)]|[_ (l & d & Hl & Hd & Hlast)]]].
    + apply Permutation_nil_r in Hpp. subst parsed. discriminate Hagg.
    + rewrite <- Hpp in Hl.
      exact (aggregate_no_wildcard clock parsed st l Hwr Hagg Hl Hstar).
    + rewrite <- Hpp in Hl.
      destruct R as [[Hnone _]|(f & dF & e0 & dL & _ & _ & Hall & _)].
      * rewrite Forall_forall in Hnone. specialize (Hnone l Hl).
        unfold still_in_orbit in Hnone. rewrite Hd in Hnone. discriminate.
      * pose proof (Hall l d Hl Hd). lia.
Qed.

Lemma report_order_independent_witness :
  main noon_2022
    [sample_row "2020 Jan 20"; sample_row "2020 Jan 05"; sample_row "-";
     sample_row "2020 Mar 02"]
  = Ok [ ["Month"; "Reentered"; "Al"];
         ["01/01/2020"; "2"; "286"];
         ["01/02/2020"; "0"; "0"] ].
Proof.
  apply (report_order_independent noon_2022
    [sample_row "2020 Mar 02"; sample_row "-"; sample_row "2020 Jan 05";
     sample_row "2020 Jan 20"]).
  - intros n. split; reflexivity.
  - intros row s d n Hrow Hs Hd.
    repeat (apply elem_of_cons in Hrow as [->|Hrow];
            [rewrite sample_row_reentry in Hs; injection Hs as <-;
             vm_compute in Hd; (discriminate Hd || (injection Hd as <-; reflexivity))|]).
    now apply not_elem_of_nil in Hrow.
  - exact (Permutation_rev [sample_row "2020 Mar 02"; sample_row "-";
                             sample_row "2020 Jan 05"; sample_row "2020 Jan 20"]).
  - unfold main. rewrite read_sample_rows_in_orbit. vm_compute. reflexivity.
Defined.

(** ** The texts of a date *)

Lemma append_assoc (a b c : string) : (a +:+ b) +:+ c = a +:+ (b +:+ c).
Proof.
  induction a as [|x a IH]; [reflexivity|]. rewrite !append_String. now rewrite IH.
Qed.

Lemma all_of_app (p : ascii -> bool) (a b : string) :
  all_of p (a +:+ b) = all_of p a && all_of p b.
Proof.
  induction a as [|x a IH]; [reflexivity|]. simpl. rewrite IH. apply andb_assoc.
Qed.

Lemma lower_space (c : ascii) : lower c = " "%char -> c = " "%char.
Proof.
  destruct c as [[] [] [] [] [] [] [] []]; vm_compute; intros H;
    try discriminate H; reflexivity.
Qed.

Lemma lower_keeps_space (c pc : ascii) :
  lower c = pc -> is_space c = true -> is_space pc = true.
Proof.
  intros <-. destruct c as [[] [] [] [] [] [] [] []]; vm_compute; intros H;
    try discriminate H; reflexivity.
Qed.

Lemma is_digit_char (c : ascii) :
  is_digit c = true -> c = digit_char (digit_val c) /\ 0 <= digit_val c <= 9.
Proof.
  destruct c as [[] [] [] [] [] [] [] []]; vm_compute; intros H;
    try discriminate H; split; try reflexivity; split; discriminate.
Qed.

Lemma is_digit_not_space (c : ascii) : is_digit c = true -> is_space c = false.
Proof.
  destruct c as [[] [] [] [] [] [] [] []]; vm_compute; intros H;
    try discriminate H; reflexivity.
Qed.

Lemma in_range_digit (lo hi : Z) (c : ascii) :
  in_range lo hi c = true -> is_digit c = true.
Proof.
  unfold in_range. intros H.
  apply andb_prop in H as [H _]. apply andb_prop in H as [H _]. exact H.
Qed.

Section MatcherText.
Context {A : Type}.

Lemma re_literal_text (p : string) :
  forall (s : string) (k : string -> option A) (r : A),
    re_literal p s k = Some r ->
    exists t s', s = t +:+ s' /\ lower_string t = p /\ k s' = Some r.
Proof.
  induction p as [|pc p IH]; intros s k r; simpl.
  - intros H. exists "", s. auto.
  - destruct s as [|c s]; [discriminate|].
    destruct (Ascii.eqb_spec (lower c) pc) as [E|_]; [|discriminate].
    intros H. apply IH in H as (t & s' & -> & Hl & Hk).
    exists (String c t), s'. simpl. rewrite E, Hl. auto.
Qed.

Lemma re_spaces_star_text (s : string) (k : string -> option A) (r : A) :
  re_spaces_star s k = Some r ->
  exists w s', s = w +:+ s' /\ all_of is_space w = true /\ k s' = Some r.
Proof.
  induction s as [|c s IH]; simpl.
  - intros H. exists "", "". auto.
  - destruct (is_space c) eqn:Ec.
    + destruct (re_spaces_star s k) as [r'|] eqn:E.
      * intros [= <-]. destruct (IH eq_refl) as (w & s' & -> & Hw & Hk).
        exists (String c w), s'. simpl. rewrite Ec, Hw. auto.
      * intros H. exists "", (String c s). auto.
    + intros H. exists "", (String c s). auto.
Qed.

Lemma re_spaces_plus_text (s : string) (k : string -> option A) (r : A) :
  re_spaces_plus s k = Some r ->
  exists w s', s = w +:+ s' /\ blank w /\ k s' = Some r.
Proof.
  unfold re_spaces_plus. destruct s as [|c s]; [discriminate|].
  destruct (is_space c) eqn:Ec; [|discriminate].
  intros H. apply re_spaces_star_text in H as (w & s' & -> & Hw & Hk).
  exists (String c w), s'. split; [reflexivity|]. split; [|exact Hk].
  split; [discriminate|]. simpl. now rewrite Ec, Hw.
Qed.

Lemma re_Y_text (s : string) (k : Z -> string -> option A) (r : A) :
  re_Y s k = Some r ->
  exists Y s', s = Y +:+ s' /\ year_text Y (digits_value 0 Y)
               /\ k (digits_value 0 Y) s' = Some r.
Proof.
  unfold re_Y. intros H.
  apply re_class_Some in H as (c1 & s1 & -> & H1 & H).
  apply re_class_Some in H as (c2 & s2 & -> & H2 & H).
  apply re_class_Some in H as (c3 & s3 & -> & H3 & H).
  apply re_class_Some in H as (c4 & s4 & -> & H4 & H).
  exists (String c1 (String c2 (String c3 (String c4 "")))), s4.
  split; [reflexivity|]. split.
  - split; [reflexivity|]. split; [|reflexivity]. simpl. now rewrite H1, H2, H3, H4.
  - cbn [digits_value].
    replace (10 * (10 * (10 * (10 * 0 + digit_val c1) + digit_val c2) + digit_val c3)
             + digit_val c4)
      with (1000 * digit_val c1 + 100 * digit_val c2 + 10 * digit_val c3 + digit_val c4)
      by lia.
    exact H.
Qed.

Lemma re_b_text (s : string) (k : Z -> string -> option A) (r : A) :
  re_b s k = Some r ->
  exists B s' m, s = B +:+ s' /\ month_text B m /\ k m s' = Some r.
Proof.
  unfold re_b. intros H. apply re_alt_Some in H as (f & Hin & H).
  apply list_elem_of_lookup_1 in Hin as [i Hi].
  rewrite list_lookup_imap in Hi.
  destruct (a_month !! i) as [name|] eqn:En; [|discriminate]. injection Hi as <-.
  apply re_literal_text in H as (t & s' & -> & Ht & H).
  exists t, s', (Z.of_nat i + 1). split; [reflexivity|]. split; [|exact H].
  pose proof (lookup_lt_Some _ _ _ En) as Hlt. simpl in Hlt.
  split; [lia|]. rewrite Ht.
  do 12 (destruct i as [|i]; [injection En as <-; reflexivity|]). lia.
Qed.

Lemma re_d_text (s : string) (k : Z -> string -> option A) (r : A) :
  re_d s k = Some r ->
  exists w D s', s = w +:+ D +:+ s' /\ (w = "" \/ w = " ")
                 /\ day_text D (digits_value 0 D)
                 /\ k (digits_value 0 D) s' = Some r.
Proof.
  unfold re_d. intros H. apply re_alt_Some in H as (f & Hin & H).
  repeat (apply elem_of_cons in Hin as [->|Hin]).
  1-3: apply re_class_Some in H as (c1 & s1 & -> & H1 & H);
       apply re_class_Some in H as (c2 & s2 & -> & H2 & H);
       exists "", (String c1 (String c2 "")), s2;
       apply in_range_digit in H1; try apply in_range_digit in H2;
       split; [reflexivity|]; split; [auto|]; split;
       [ split; [auto|]; split; [simpl; now rewrite H1, H2 | reflexivity]
       | cbn [digits_value];
         replace (10 * (10 * 0 + digit_val c1) + digit_val c2)
           with (10 * digit_val c1 + digit_val c2) by lia; exact H ].
  - apply re_class_Some in H as (c1 & s1 & -> & H1 & H).
    exists "", (String c1 ""), s1. apply in_range_digit in H1.
    split; [reflexivity|]. split; [auto|]. split.
    + split; [auto|]. split; [simpl; now rewrite H1 | reflexivity].
    + cbn [digits_value]. replace (10 * 0 + digit_val c1) with (digit_val c1) by lia.
      exact H.
  - apply re_literal_text in H as (t & s0 & -> & Ht & H).
    apply re_class_Some in H as (c1 & s1 & -> & H1 & H).
    destruct t as [|c [|c' t]]; try discriminate Ht.
    injection Ht as Ht. apply lower_space in Ht as ->.
    exists " ", (String c1 ""), s1. apply in_range_digit in H1.
    split; [reflexivity|]. split; [auto|]. split.
    + split; [auto|]. split; [simpl; now rewrite H1 | reflexivity].
    + cbn [digits_value]. replace (10 * 0 + digit_val c1) with (digit_val c1) by lia.
      exact H.
  - now apply not_elem_of_nil in Hin.
Qed.
End MatcherText.

Lemma blank_app (w w' : string) :
  blank w -> all_of is_space w' = true -> blank (w +:+ w').
Proof.
  intros [Hne Hw] Hw'. split.
  - destruct w; [contradiction | discriminate].
  - now rewrite all_of_app, Hw, Hw'.
Qed.

(** What a text the day-precision format matches to the end looks like. *)
Lemma re_match_Ybd_text (t : string) (f : found) :
  re_match fmt_Ybd t (mk_found None None None) = Some (f, "") ->
  exists y m d, f = mk_found (Some y) (Some m) (Some d) /\ day_precision t y m d.
Proof.
  unfold fmt_Ybd. cbn [re_match found_Y found_b found_d]. intros H.
  apply re_Y_text in H as (Y & s1 & -> & HY & H).
  apply re_spaces_plus_text in H as (w & s2 & -> & Hw & H).
  apply re_b_text in H as (B & s3 & m & -> & HB & H).
  apply re_spaces_plus_text in H as (w1 & s4 & -> & Hw1 & H).
  apply re_d_text in H as (w2 & D & s5 & -> & Hw2 & HD & H).
  injection H as <- ->. rewrite append_Empty_r.
  exists (digits_value 0 Y), m, (digits_value 0 D). split; [reflexivity|].
  exists Y, w, B, (w1 +:+ w2), D. split.
  - now rewrite !append_assoc.
  - repeat split; try apply HY; try apply Hw; try apply HB; try apply HD.
    + apply blank_app; [exact Hw1|]. destruct Hw2 as [-> | ->]; reflexivity.
    + apply blank_app; [exact Hw1|]. destruct Hw2 as [-> | ->]; reflexivity.
Qed.

Lemma re_match_Yb_text (t : string) (f : found) :
  re_match fmt_Yb t (mk_found None None None) = Some (f, "") ->
  exists y m, f = mk_found (Some y) (Some m) None /\ month_precision t y m.
Proof.
  unfold fmt_Yb. cbn [re_match found_Y found_b found_d]. intros H.
  apply re_Y_text in H as (Y & s1 & -> & HY & H).
  apply re_spaces_plus_text in H as (w & s2 & -> & Hw & H).
  apply re_b_text in H as (B & s3 & m & -> & HB & H).
  injection H as <- ->. rewrite append_Empty_r.
  exists (digits_value 0 Y), m. split; [reflexivity|].
  exists Y, w, B. auto.
Qed.

(** ** The texts the formats match *)

Lemma a_month_NoDup : NoDup a_month.
Proof. apply (bool_decide_unpack _). vm_compute. exact I. Qed.

Lemma month_text_name (B : string) (m : Z) :
  month_text B m -> a_month !! Z.to_nat (m - 1) = Some (lower_string B).
Proof.
  intros [Hm ->]. enum_Z m 1 12%nat ltac:(reflexivity).
Qed.

Lemma month_text_length (B : string) (m : Z) :
  month_text B m -> Forall (fun n => String.length n = String.length B) a_month.
Proof.
  intros [Hm HB].
  assert (Hl : forall t, String.length (lower_string t) = String.length t).
  { induction t as [|c t IH]; simpl; congruence. }
  assert (E : String.length B = 3%nat).
  { rewrite <- Hl, HB. enum_Z m 1 12%nat ltac:(reflexivity). }
  rewrite E. repeat constructor.
Qed.

Lemma month_text_head (B : string) (m : Z) :
  month_text B m -> forall c s', B = String c s' -> is_space c = false.
Proof.
  intros [Hm HB] c s' ->. simpl in HB.
  destruct (is_space c) eqn:E; [|reflexivity].
  assert (Hs : exists pc r, lower_string (month_abbr m) = String pc r
                            /\ is_space pc = false).
  { enum_Z m 1 12%nat ltac:(do 2 eexists; split; reflexivity). }
  destruct Hs as (pc & r & Hr & Hpc). rewrite Hr in HB. injection HB as Hc _.
  now rewrite (lower_keeps_space c pc Hc E) in Hpc.
Qed.

Lemma day_text_head (D : string) (d : Z) :
  day_text D d -> forall c s', D = String c s' -> is_space c = false.
Proof.
  intros (_ & HD & _) c s' ->. simpl in HD. apply andb_prop in HD as [HD _].
  now apply is_digit_not_space.
Qed.

Section MatcherRuns.
Context {A : Type}.

Lemma re_spaces_star_run (w s : string) (k : string -> option A) (r : A) :
  all_of is_space w = true -> (forall c s', s = String c s' -> is_space c = false) ->
  k s = Some r -> re_spaces_star (w +:+ s) k = Some r.
Proof.
  intros Hw Hs Hk. induction w as [|c w IH].
  - rewrite append_Empty. destruct s as [|c s']; [exact Hk|].
    simpl. now rewrite (Hs c s' eq_refl).
  - simpl in Hw. apply andb_prop in Hw as [Hc Hw].
    rewrite append_String. simpl. rewrite Hc, (IH Hw). reflexivity.
Qed.

Lemma re_spaces_plus_run (w s : string) (k : string -> option A) (r : A) :
  blank w -> (forall c s', s = String c s' -> is_space c = false) ->
  k s = Some r -> re_spaces_plus (w +:+ s) k = Some r.
Proof.
  intros [Hne Hw] Hs Hk. destruct w as [|c w]; [contradiction|].
  simpl in Hw. apply andb_prop in Hw as [Hc Hw].
  rewrite append_String. unfold re_spaces_plus. rewrite Hc.
  now apply re_spaces_star_run.
Qed.

Lemma re_spaces_star_none (w s : string) (k : string -> option A) :
  all_of is_space w = true -> (forall c s', s = String c s' -> is_space c = false) ->
  (forall c s', is_space c = true -> k (String c s') = None) ->
  k s = None -> re_spaces_star (w +:+ s) k = None.
Proof.
  intros Hw Hs Hb Hk. induction w as [|c w IH].
  - rewrite append_Empty. destruct s as [|c s']; [exact Hk|].
    simpl. now rewrite (Hs c s' eq_refl).
  - simpl in Hw. apply andb_prop in Hw as [Hc Hw].
    rewrite append_String. simpl. rewrite Hc, (IH Hw). now apply Hb.
Qed.

Lemma re_Y_digits (Y s : string) (y : Z) (k : Z -> string -> option A) :
  year_text Y y -> re_Y (Y +:+ s) k = k y s.
Proof.
  intros (Hl & Hd & <-).
  destruct Y as [|c1 [|c2 [|c3 [|c4 [|c5 Y]]]]]; try discriminate Hl.
  simpl in Hd.
  apply andb_prop in Hd as [H1 Hd]. apply andb_prop in Hd as [H2 Hd].
  apply andb_prop in Hd as [H3 Hd]. apply andb_prop in Hd as [H4 _].
  rewrite !append_String, append_Empty. unfold re_Y, re_class.
  rewrite H1, H2, H3, H4. cbn [digits_value]. f_equal. lia.
Qed.

Lemma re_literal_hit (t s : string) (k : string -> option A) :
  re_literal (lower_string t) (t +:+ s) k = k s.
Proof.
  induction t as [|c t IH]; [reflexivity|].
  rewrite append_String. simpl. now rewrite Ascii.eqb_refl.
Qed.

Lemma re_literal_miss (p : string) :
  forall (t s : string) (k : string -> option A),
    String.length p = String.length t -> lower_string t <> p ->
    re_literal p (t +:+ s) k = None.
Proof.
  induction p as [|pc p IH]; intros t s k Hl Hne.
  - destruct t; [now destruct Hne | discriminate].
  - destruct t as [|c t]; [discriminate|]. rewrite append_String. simpl.
    destruct (Ascii.eqb_spec (lower c) pc) as [E|_]; [|reflexivity].
    apply IH; [simpl in Hl; congruence|]. intros E'. apply Hne. simpl. congruence.
Qed.

Lemma re_literal_whole (p : string) :
  forall (t : string) (k : string -> option A),
    String.length p = String.length t -> k "" = None -> re_literal p t k = None.
Proof.
  induction p as [|pc p IH]; intros t k Hl Hk.
  - destruct t; [exact Hk | discriminate].
  - destruct t as [|c t]; [discriminate|]. simpl.
    destruct (Ascii.eqb (lower c) pc); [|reflexivity].
    apply IH; [simpl in Hl; congruence | exact Hk].
Qed.

(** The alternation of the names: the name the text spells is the one that
    matches. *)
Lemma re_alt_names_hit (names : list string) (t s : string) :
  forall (g : nat -> Z) (i : nat) (k : Z -> string -> option A) (r : A),
    NoDup names -> Forall (fun n => String.length n = String.length t) names ->
    names !! i = Some (lower_string t) -> k (g i) s = Some r ->
    re_alt (imap (fun j name => fun s k => re_literal name s (k (g j))) names)
           (t +:+ s) k = Some r.
Proof.
  induction names as [|n names IH]; intros g i k r Hnd Hl Hi Hk; [discriminate|].
  apply NoDup_cons in Hnd as [Hn Hnd]. apply Forall_cons_1 in Hl as [Hln Hl].
  simpl. destruct i as [|i].
  - injection Hi as ->. rewrite re_literal_hit, Hk. reflexivity.
  - simpl in Hi. rewrite re_literal_miss; [|assumption|].
    + apply (IH (fun j => g (S j)) i); assumption.
    + intros E. apply Hn. rewrite <- E. eapply list_elem_of_lookup_2, Hi.
Qed.

Lemma re_alt_names_whole (names : list string) (t : string) :
  forall (g : nat -> Z) (k : Z -> string -> option A),
    Forall (fun n => String.length n = String.length t) names ->
    (forall m, k m "" = None) ->
    re_alt (imap (fun j name => fun s k => re_literal name s (k (g j))) names) t k = None.
Proof.
  induction names as [|n names IH]; intros g k Hl Hk; [reflexivity|].
  apply Forall_cons_1 in Hl as [Hln Hl]. simpl.
  rewrite re_literal_whole by auto. apply (IH (fun j => g (S j))); assumption.
Qed.

Lemma re_alt_names_blank (names : list string) (c : ascii) (s : string) :
  forall (g : nat -> Z) (k : Z -> string -> option A),
    is_space c = true ->
    Forall (fun n => exists pc n', n = String pc n' /\ is_space pc = false) names ->
    re_alt (imap (fun j name => fun s k => re_literal name s (k (g j))) names)
           (String c s) k = None.
Proof.
  induction names as [|n names IH]; intros g k Hc Hl; [reflexivity|].
  apply Forall_cons_1 in Hl as [(pc & n' & -> & Hpc) Hl]. simpl.
  destruct (Ascii.eqb_spec (lower c) pc) as [E|_].
  - now rewrite (lower_keeps_space c pc E Hc) in Hpc.
  - apply (IH (fun j => g (S j))); assumption.
Qed.

Lemma re_b_hit (B s : string) (m : Z) (k : Z -> string -> option A) (r : A) :
  month_text B m -> k m s = Some r -> re_b (B +:+ s) k = Some r.
Proof.
  intros HB Hk. unfold re_b.
  apply (re_alt_names_hit a_month B s (fun i => Z.of_nat i + 1) (Z.to_nat (m - 1))).
  - apply a_month_NoDup.
  - eapply month_text_length, HB.
  - now apply month_text_name.
  - destruct HB as [Hm _]. replace (Z.of_nat (Z.to_nat (m - 1)) + 1) with m by lia.
    exact Hk.
Qed.

Lemma re_b_whole (B : string) (m : Z) (k : Z -> string -> option A) :
  month_text B m -> (forall m', k m' "" = None) -> re_b B k = None.
Proof.
  intros HB Hk. unfold re_b.
  apply (re_alt_names_whole a_month B (fun i => Z.of_nat i + 1)); [|exact Hk].
  eapply month_text_length, HB.
Qed.

Lemma re_b_blank (c : ascii) (s : string) (k : Z -> string -> option A) :
  is_space c = true -> re_b (String c s) k = None.
Proof.
  intros Hc. unfold re_b.
  apply (re_alt_names_blank a_month c s (fun i => Z.of_nat i + 1)); [exact Hc|].
  repeat constructor; do 2 eexists; split; reflexivity.
Qed.

Lemma re_d_digits (D : string) (d : Z) (k : Z -> string -> option A) (r : A) :
  day_text D d -> 1 <= d <= 31 -> k d "" = Some r -> re_d D k = Some r.
Proof.
  intros (Hl & Hd & <-) Hr Hk. destruct Hl as [Hl|Hl].
  - destruct D as [|c1 [|c2 D]]; try discriminate Hl.
    simpl in Hd. apply andb_prop in Hd as [H1 _].
    apply is_digit_char in H1 as [E1 R1]. cbn [digits_value] in Hr, Hk.
    rewrite Z.mul_0_r, Z.add_0_l in Hr, Hk.
    assert (Hone : forall a, 1 <= a <= 9 -> k a "" = Some r ->
                             re_d (String (digit_char a) "") k = Some r).
    { intros a Ha. enum_Z a 1 9%nat ltac:(intros Hka; vm_compute; vm_compute in Hka;
                                          rewrite Hka; reflexivity). }
    rewrite E1. apply Hone; [lia | exact Hk].
  - destruct D as [|c1 [|c2 [|c3 D]]]; try discriminate Hl.
    simpl in Hd. apply andb_prop in Hd as [H1 Hd]. apply andb_prop in Hd as [H2 _].
    apply is_digit_char in H1 as [E1 R1]. apply is_digit_char in H2 as [E2 R2].
    cbn [digits_value] in Hr, Hk. rewrite Z.mul_0_r, Z.add_0_l in Hr, Hk.
    replace (String c1 (String c2 ""))
      with (pad2 (10 * digit_val c1 + digit_val c2)).
    + now apply re_d_pad2.
    + unfold pad2. f_equal; [|f_equal].
      * transitivity (digit_char (digit_val c1)); [|symmetry; exact E1].
        f_equal. Z.div_mod_to_equations. lia.
      * transitivity (digit_char (digit_val c2)); [|symmetry; exact E2].
        f_equal. Z.div_mod_to_equations. lia.
Qed.
End MatcherRuns.

Lemma re_match_day_text (t : string) (y m d : Z) :
  day_precision t y m d -> 1 <= d <= 31 ->
  re_match fmt_Ybd t (mk_found None None None)
  = Some (mk_found (Some y) (Some m) (Some d), "").
Proof.
  intros (Y & w & B & w' & D & -> & HY & Hw & HB & Hw' & HD) Hd.
  unfold fmt_Ybd. cbn [re_match found_Y found_b found_d].
  rewrite (re_Y_digits Y _ y) by assumption.
  assert (HBh : forall c s', B +:+ w' +:+ D = String c s' -> is_space c = false).
  { intros c s' E. destruct B as [|b B'].
    - destruct HB as [Hm HB]. exfalso. revert HB.
      enum_Z m 1 12%nat ltac:(discriminate).
    - rewrite append_String in E. injection E as <- _.
      now apply (month_text_head _ m HB b B'). }
  apply re_spaces_plus_run; [assumption | exact HBh |].
  apply (re_b_hit B _ m); [assumption|].
  apply re_spaces_plus_run; [assumption | |].
  - intros c s' E. now apply (day_text_head D d HD c s').
  - now apply (re_d_digits D d).
Qed.

Lemma re_match_month_text (t : string) (y m : Z) :
  month_precision t y m ->
  re_match fmt_Yb t (mk_found None None None) = Some (mk_found (Some y) (Some m) None, "")
  /\ re_match fmt_Ybd t (mk_found None None None) = None.
Proof.
  intros (Y & w & B & -> & HY & Hw & HB).
  assert (HBh : forall c s', B = String c s' -> is_space c = false).
  { intros c s'. now apply (month_text_head B m). }
  unfold fmt_Yb, fmt_Ybd. cbn [re_match found_Y found_b found_d].
  rewrite !(re_Y_digits Y _ y) by assumption. split.
  - apply re_spaces_plus_run; [assumption | exact HBh |].
    rewrite <- (append_Empty_r B). now apply (re_b_hit B "" m).
  - destruct Hw as [Hne Hw]. destruct w as [|c w]; [contradiction|].
    simpl in Hw. apply andb_prop in Hw as [Hc Hw].
    rewrite append_String. unfold re_spaces_plus. rewrite Hc.
    apply re_spaces_star_none; [assumption | exact HBh | |].
    + intros c' s' Hc'. now apply re_b_blank.
    + apply (re_b_whole B m); [assumption | reflexivity].
Qed.

Lemma year_text_not_sentinel (s Y r : string) (y : Z) :
  year_text Y y -> strip_uncertain s = Y +:+ r -> ~ is_sentinel s.
Proof.
  intros (Hl & _) E.
  destruct Y as [|c1 [|c2 [|c3 [|c4 [|c5 Y]]]]]; try discriminate Hl.
  intros [-> | [-> | ->]]; discriminate E.
Qed.

Lemma strptime_text (t : string) (fmt : list directive) (dt : datetime) :
  strptime t fmt = Ok dt ->
  exists f, re_match fmt t (mk_found None None None) = Some (f, "")
            /\ datetime_new (default 1900 (found_Y f)) (default 1 (found_b f))
                            (default 1 (found_d f)) 0 0 0 0 = Ok dt.
Proof.
  unfold strptime. destruct (re_match _ _ _) as [[f rest]|]; [|discriminate].
  destruct (String.eqb_spec rest "") as [->|_]; [|discriminate]. eauto.
Qed.



(** ** Calls of increment_month in a row *)

Lemma increment_month_upto_28 (dt : datetime) :
  valid_datetime dt -> day dt <= 28 -> month_index dt < LAST_MONTH ->
  increment_month dt = Ok (next_month dt) /\ valid_datetime (next_month dt).
Proof.
  intros Hv H28 Hlt. pose proof Hv as [Hd Ht].
  pose proof (check_date_fields_elim _ _ _ Hd) as (_ & _ & Hday).
  destruct (next_month_valid dt Hv Hlt) as (Hy' & Hm' & _).
  pose proof (days_in_month_ge_28 (year (next_month dt)) (month (next_month dt)) Hm').
  assert (Hc : check_date_fields (year (next_month dt)) (month (next_month dt)) (day dt)
               = true) by (apply check_date_fields_intro; lia).
  split.
  - rewrite increment_month_replace. unfold datetime_new. now rewrite Hc, Ht.
  - split; [exact Hc | exact Ht].
Qed.

Lemma increment_month_end (dt : datetime) :
  valid_datetime dt -> month_index dt = LAST_MONTH ->
  increment_month dt = Raise ValueError.
Proof.
  intros [Hd _] Hl. apply check_date_fields_range in Hd as (Hy & Hmo & _).
  unfold LAST_MONTH, MAXYEAR, month_index in Hl.
  assert (month dt = 12) as Hm by lia. assert (year dt = 9999) as Hyr by lia.
  unfold increment_month, replace, datetime_new. rewrite Hm, Hyr. reflexivity.
Qed.

Lemma months_later_0 (dt : datetime) : valid_datetime dt -> months_later 0 dt = dt.
Proof.
  intros [Hd _]. apply check_date_fields_range in Hd as (_ & Hm & _).
  destruct dt as [y m d h mi s us]. unfold months_later, month_index.
  cbn [year month day hour minute second microsecond] in *.
  f_equal; Z.div_mod_to_equations; lia.
Qed.

Lemma months_later_next (k : Z) (dt : datetime) :
  months_later k (next_month dt) = months_later (k + 1) dt.
Proof.
  unfold months_later. rewrite month_index_next.
  replace (month_index dt + 1 + k - 1) with (month_index dt + (k + 1) - 1) by lia.
  reflexivity.
Qed.

(** X15: calls of [increment_month] in a row.  From a datetime of the
    calendar on a day up to the 28th, [k] calls, each on the result of the
    call before, return the same day and time of day [k] months later: the
    month index grows by [k], twelve months make a year.  They return as
    long as December 9999 is not passed; the call that would pass it raises
    ValueError. *)
Theorem increment_months_later (k : nat) (dt : datetime) :
  valid_datetime dt -> day dt <= 28 ->
  increment_months k dt
  = (if month_index dt + Z.of_nat k <=? LAST_MONTH
     then Ok (months_later (Z.of_nat k) dt) else Raise ValueError)
  /\ (month_index dt + Z.of_nat k <= LAST_MONTH ->
      valid_datetime (months_later (Z.of_nat k) dt)
      /\ month_index (months_later (Z.of_nat k) dt) = month_index dt + Z.of_nat k)
  /\ (year dt < 9999 ->
      increment_months 12 dt
      = Ok (mk_datetime (year dt + 1) (month dt) (day dt)
                        (hour dt) (minute dt) (second dt) (microsecond dt))).
Proof.
  intros Hv H28.
  assert (Hgen : forall n c, valid_datetime c -> day c <= 28 ->
            increment_months n c
            = (if month_index c + Z.of_nat n <=? LAST_MONTH
               then Ok (months_later (Z.of_nat n) c) else Raise ValueError)
            /\ (month_index c + Z.of_nat n <= LAST_MONTH ->
                valid_datetime (months_later (Z.of_nat n) c))).
  { induction n as [|n IH]; intros c Hc Hc28.
    - pose proof (month_index_range c Hc) as Hr.
      cbn [increment_months Z.of_nat]. rewrite Z.add_0_r.
      destruct (Z.leb_spec (month_index c) LAST_MONTH); [|lia].
      rewrite months_later_0 by assumption. auto.
    - pose proof (month_index_range c Hc) as Hr. cbn [increment_months].
      destruct (Z.eq_dec (month_index c) LAST_MONTH) as [E|E].
      + rewrite increment_month_end by assumption. cbn [bind].
        destruct (Z.leb_spec (month_index c + Z.of_nat (S n)) LAST_MONTH); [lia|].
        split; [reflexivity | lia].
      + destruct (increment_month_upto_28 c Hc Hc28) as [-> Hn]; [lia|]. cbn [bind].
        destruct (IH (next_month c) Hn Hc28) as [-> Hvalid].
        rewrite month_index_next, months_later_next in *.
        replace (month_index c + 1 + Z.of_nat n) with (month_index c + Z.of_nat (S n))
          in * by lia.
        replace (Z.of_nat n + 1) with (Z.of_nat (S n)) in * by lia.
        auto. }
  destruct (Hgen k dt Hv H28) as [E Hvalid]. split; [exact E|]. split.
  - intros Hle. split; [auto|].
    pose proof Hv as [Hd _]. apply check_date_fields_range in Hd as (_ & Hm & _).
    clear Hgen E Hvalid Hle. unfold months_later, month_index. cbv zeta.
    cbn [year month]. Z.div_mod_to_equations. lia.
  - intros Hy. destruct (Hgen 12%nat dt Hv H28) as [-> _].
    pose proof Hv as [Hd _]. apply check_date_fields_range in Hd as (_ & Hm & _).
    destruct (Z.leb_spec (month_index dt + Z.of_nat 12) LAST_MONTH) as [_|Hgt].
    + clear Hgen E Hvalid. unfold months_later, month_index. cbv zeta.
      do 2 f_equal; Z.div_mod_to_equations; lia.
    + unfold month_index, LAST_MONTH, MAXYEAR in Hgt. lia.
Qed.

Lemma increment_months_later_witness :
  increment_months 14 (mk_datetime 2020 11 28 6 30 0 0)
  = Ok (mk_datetime 2022 1 28 6 30 0 0)
  /\ increment_months 2 (date 9999 11 5) = Raise ValueError.
Proof.
  split.
  - exact (proj1 (increment_months_later 14 (mk_datetime 2020 11 28 6 30 0 0)
                    ltac:(split; reflexivity) ltac:(simpl; lia))).
  - exact (proj1 (increment_months_later 2 (date 9999 11 5)
                    ltac:(split; reflexivity) ltac:(simpl; lia))).
Defined.

(** ** Reentries after the current time *)

(** X16: with a launch still in orbit, the current time cuts the record.
    When some launch has the unknown sentinel, there is a reading of the
    clock, the one that stands for the launch the loop breaks at, such that
    every launch the loop reaches reentered at that reading at the latest,
    and every launch that reentered before that reading is reached: a
    launch with a later reentry date is never counted. *)
Theorem reached_up_to_now (clock : nat -> datetime) (parsed launches : list launch)
    (tick : nat) :
  sorted_by_reentry clock parsed O = Ok (launches, tick) ->
  (exists u, u ∈ parsed /\ u !! "Reentry Date" = Some (VStr "-")) ->
  exists n u0,
    launches !! length (before_break launches) = Some u0
    /\ u0 !! "Reentry Date" = Some (VStr "-")
    /\ (forall l d, l ∈ before_break launches ->
          l !! "Reentry Date" = Some (VDate d) -> dt_ltb (clock n) d = false)
    /\ (forall l d, l ∈ parsed -> l !! "Reentry Date" = Some (VDate d) ->
          dt_ltb d (clock n) = true -> l ∈ before_break launches).
Proof.
  intros Hsort (u & Hu & Huo).
  destruct (sorted_by_reentry_keyed _ _ _ _ _ Hsort) as (s & -> & Hs & He & Hp & [k Hk]).
  destruct (before_break_split (map snd s)) as (U & HU & Hhd).
  pose proof (before_break_reached (map snd s)) as Hbb.
  remember (before_break (map snd s)) as bb eqn:Ebb. clear Ebb.
  rewrite Forall_forall in Hbb.
  assert (HuU : u ∈ U).
  { rewrite <- Hp, HU in Hu. apply elem_of_app in Hu as [Hu|Hu]; [|exact Hu].
    apply still_in_orbit_true in Huo. rewrite (Hbb u Hu) in Huo. discriminate. }
  destruct U as [|u0 U]; [now apply not_elem_of_nil in HuU|].
  apply still_in_orbit_true in Hhd.
  assert (Hi0 : map snd s !! length bb = Some u0).
  { rewrite HU. now apply list_lookup_middle. }
  pose proof Hi0 as Hi0'. change (map snd s) with (snd <$> s) in Hi0'.
  rewrite list_lookup_fmap in Hi0'.
  destruct (s !! length bb) as [p0|] eqn:Ep0; [|discriminate]. injection Hi0' as E0.
  rewrite Forall_forall in He. rewrite Forall_forall in Hk.
  assert (Hp0 : p0 ∈ s) by (eapply list_elem_of_lookup_2; eauto).
  destruct (effective_key_in_orbit clock p0 (He p0 Hp0)) as [n Hn];
    [now rewrite E0|].
  assert (k = true) as -> by (rewrite <- (Hk p0 Hp0), Hn; reflexivity).
  assert (Hss : StronglySorted key_le s).
  { apply Sorted_dates_strongly; [now apply Forall_forall | exact Hs]. }
  assert (Hat : forall i l d, map snd s !! i = Some l ->
            l !! "Reentry Date" = Some (VDate d) ->
            exists p, s !! i = Some p /\ fst p = VDate d).
  { intros i l d Hi Hd. change (map snd s) with (snd <$> s) in Hi.
    rewrite list_lookup_fmap in Hi.
    destruct (s !! i) as [p|] eqn:Ep; [|discriminate]. injection Hi as El.
    exists p. split; [reflexivity|].
    apply (effective_key_date clock); [|now rewrite El].
    apply He. eapply list_elem_of_lookup_2; eauto. }
  assert (Hreached : forall l d, l ∈ bb -> l !! "Reentry Date" = Some (VDate d) ->
                                 dt_ltb (clock n) d = false).
  { intros l d Hl Hd. apply list_elem_of_lookup_1 in Hl as [i Hi].
    pose proof (lookup_lt_Some _ _ _ Hi) as Hlt.
    destruct (Hat i l d) as (p & Hpi & Hkey); [|exact Hd|].
    { rewrite HU, lookup_app_l by assumption. exact Hi. }
    pose proof (StronglySorted_lookup key_le s Hss i (length bb) p p0 Hlt Hpi Ep0) as Hle.
    unfold key_le in Hle. rewrite Hn, Hkey in Hle. simpl in Hle. now injection Hle. }
  exists n, u0. split; [exact Hi0|]. split; [exact Hhd|]. split; [exact Hreached|].
  intros l d Hl Hd Hlt. rewrite <- Hp, HU in Hl.
  apply elem_of_app in Hl as [Hl|Hl]; [exact Hl|]. exfalso.
  apply list_elem_of_lookup_1 in Hl as [j Hj].
  destruct j as [|j]; [simpl in Hj; injection Hj as ->; congruence|].
  destruct (Hat (length bb + S j)%nat l d) as (p & Hpi & Hkey); [|exact Hd|].
  { rewrite HU, lookup_app_r by lia.
    replace (length bb + S j - length bb)%nat with (S j) by lia. exact Hj. }
  assert (Hlt' : (length bb < length bb + S j)%nat) by lia.
  pose proof (StronglySorted_lookup key_le s Hss _ _ p0 p Hlt' Ep0 Hpi) as Hle.
  unfold key_le in Hle. rewrite Hn, Hkey in Hle. simpl in Hle. congruence.
Qed.

Lemma reached_up_to_now_witness :
  exists n u0,
    [sample_launch "-" (VStr "-"); sample_launch "2030 Jan 01" (VDate (date 2030 1 1))]
      !! length (before_break
                   [sample_launch "-" (VStr "-");
                    sample_launch "2030 Jan 01" (VDate (date 2030 1 1))])
    = Some u0
    /\ u0 !! "Reentry Date" = Some (VStr "-")
    /\ (forall l d,
          l ∈ [sample_launch "2030 Jan 01" (VDate (date 2030 1 1));
               sample_launch "-" (VStr "-")] ->
          l !! "Reentry Date" = Some (VDate d) ->
          dt_ltb d (noon_2022 n) = true ->
          l ∈ before_break
                [sample_launch "-" (VStr "-");
                 sample_launch "2030 Jan 01" (VDate (date 2030 1 1))]).
Proof.
  destruct (reached_up_to_now noon_2022
    [sample_launch "2030 Jan 01" (VDate (date 2030 1 1)); sample_launch "-" (VStr "-")]
    [sample_launch "-" (VStr "-"); sample_launch "2030 Jan 01" (VDate (date 2030 1 1))]
    1%nat)
    as (n & u0 & H1 & H2 & _ & H4).
  - unfold sorted_by_reentry. cbn [keys_of].
    rewrite (reentry_date_date noon_2022 _ (date 2030 1 1) O)
      by apply sample_launch_reentry.
    cbn [bind].
    rewrite (reentry_date_in_orbit noon_2022 _ 0) by apply sample_launch_reentry.
    reflexivity.
  - eexists. split; [apply list_elem_of_further, list_elem_of_here|].
    apply sample_launch_reentry.
  - exists n, u0. auto.
Defined.
